(** * uae2ynab: bank-statement parsers and the YNAB exporter

    A shallow embedding of the TypeScript sources

      - [client/src/lib/parsers/adcb.ts]   (ADCB CSV statements),
      - [client/src/lib/parsers/enbd.ts]   (Emirates NBD PDF statements),
      - [client/src/lib/parsers/index.ts]  (the orchestrator),
      - [client/src/lib/ynab-export.ts]    (the CSV exporter, two revisions),
      - [client/src/components/FileUploadZone.tsx]   (the upload zone),
      - [client/src/components/ExportPanel.tsx]      (the export handler),
      - [client/src/components/TransactionTable.tsx] (the totals of the table),

    together with the properties of the parsing and normalisation engine.

    Conventions of the embedding.

    - A JavaScript string is a sequence of UTF-16 code units.  The embedding
      covers the strings all of whose units are below 256 and represents
      them as [list ascii], one [ascii] per unit.
    - A JavaScript number is an IEEE-754 binary64 value, represented by
      [spec_float] at precision 53 and maximal exponent 1024.
    - Regular expressions follow the backtracking semantics of ECMA-262: a
      matcher takes a state and a continuation.
    - A promise is modelled by its outcome: resolved with a value, or
      rejected with a message; [await] is the bind of that monad and
      [try]/[catch] a case analysis on the outcome. *)

From Stdlib Require Import ZArith QArith Qround Lqa Ascii String List Lia Bool.
From Stdlib Require Import Permutation Sorted DecimalString.
From Stdlib Require Import Floats.SpecFloat.
From stdpp Require Import base list strings gmap.

(** ** JavaScript strings *)

Definition str := list ascii.
Definition lit (s : string) : str := list_ascii_of_string s.
Coercion lit : string >-> str.

Definition strs (l : list string) : list str := List.map lit l.

Definition cat (a b : str) : str := a ++ b.
Infix "+.+" := cat (at level 60, right associativity).

Definition code (c : ascii) : N := N_of_ascii c.

Definition is_digit (c : ascii) : bool := (48 <=? code c)%N && (code c <=? 57)%N.
Definition is_upper (c : ascii) : bool := (65 <=? code c)%N && (code c <=? 90)%N.
Definition is_lower (c : ascii) : bool := (97 <=? code c)%N && (code c <=? 122)%N.

(** [\w] *)
Definition is_word (c : ascii) : bool :=
  is_digit c || is_upper c || is_lower c || (code c =? 95)%N.

(** WhiteSpace and LineTerminator of ECMA-262 below 256: TAB, LF, VT, FF, CR,
    SP and NBSP.  This is the class of [\s] and of [String.prototype.trim]. *)
Definition is_space (c : ascii) : bool :=
  match code c with
  | 9 | 10 | 11 | 12 | 13 | 32 | 160 => true
  | _ => false
  end%N.

Definition is_line_terminator (c : ascii) : bool :=
  match code c with
  | 10 | 13 => true
  | _ => false
  end%N.

Definition ascii_eqb (a b : ascii) : bool := Ascii.eqb a b.

Definition lower_char (c : ascii) : ascii :=
  if is_upper c || ((192 <=? code c)%N && (code c <=? 222)%N && negb (code c =? 215)%N)
  then ascii_of_N (code c + 32) else c.

Definition upper_ascii (c : ascii) : ascii :=
  if is_lower c then ascii_of_N (code c - 32) else c.

Definition toLowerCase (s : str) : str := List.map lower_char s.

Fixpoint str_eqb (a b : str) : bool :=
  match a, b with
  | [], [] => true
  | x :: a', y :: b' => ascii_eqb x y && str_eqb a' b'
  | _, _ => false
  end.

Fixpoint startsWith (s p : str) : bool :=
  match p, s with
  | [], _ => true
  | x :: p', y :: s' => ascii_eqb x y && startsWith s' p'
  | _ :: _, [] => false
  end.

Fixpoint includes (s sub : str) : bool :=
  startsWith s sub ||
  match s with
  | [] => false
  | _ :: s' => includes s' sub
  end.

Definition endsWith (s p : str) : bool := startsWith (rev s) (rev p).

Fixpoint trimStart (s : str) : str :=
  match s with
  | c :: s' => if is_space c then trimStart s' else s
  | [] => []
  end.

Definition trimEnd (s : str) : str := rev (trimStart (rev s)).

Definition trim (s : str) : str := trimEnd (trimStart s).

(** [s.split(sep)] for a one-unit separator: the pieces between the
    separators, the empty string giving one empty piece. *)
Fixpoint split_aux (sep : ascii) (cur : str) (s : str) : list str :=
  match s with
  | [] => [rev cur]
  | c :: s' =>
      if ascii_eqb c sep then rev cur :: split_aux sep [] s'
      else split_aux sep (c :: cur) s'
  end.

Definition split (sep : ascii) (s : str) : list str := split_aux sep [] s.

Fixpoint join (sep : str) (l : list str) : str :=
  match l with
  | [] => []
  | [x] => x
  | x :: l' => x ++ sep ++ join sep l'
  end.

Definition padStart (n : nat) (fill : ascii) (s : str) : str :=
  List.repeat fill (n - length s) ++ s.

(** [s.substring(n)] *)
Definition substring_from (n : nat) (s : str) : str := skipn n s.

(** [s.substring(0, n)] *)
Definition substring_to (n : nat) (s : str) : str := firstn n s.

(** [Boolean(s)]: a string is truthy when it is not empty. *)
Definition truthy (s : str) : bool :=
  match s with [] => false | _ => true end.

Definition nl : ascii := ascii_of_N 10.
Definition dquote : ascii := ascii_of_N 34.

Definition decimal_of_N (n : N) : str := lit (NilZero.string_of_uint (N.to_uint n)).

(** ** JavaScript numbers *)

Definition number := spec_float.

Abbreviation prec := 53%Z (only parsing).
Abbreviation emax := 1024%Z (only parsing).

Definition NaN : number := S754_nan.
Definition zero : number := S754_zero false.

Definition isNaN (x : number) : bool :=
  match x with S754_nan => true | _ => false end.

(** [x === y], [x > y] and [x < y] on numbers: false as soon as one side is
    NaN, and the two zeros are equal. *)
Definition num_eq (x y : number) : bool := SFeqb x y.
Definition num_lt (x y : number) : bool := SFltb x y.
Definition num_gt (x y : number) : bool := SFltb y x.

(** Unary minus and [Math.abs]. *)
Definition neg (x : number) : number := SFopp x.
Definition Math_abs (x : number) : number := SFabs x.

(** The binary64 value nearest to [(-1)^s * n / d], ties to even, for
    positive [n] and [d]: the quotient is taken with enough bits for the
    remainder to decide the rounding. *)
Definition round_ratio (s : bool) (n d : positive) : number :=
  let sh := Z.max 0 (prec + 1 + Zdigits2 (Zpos d) - Zdigits2 (Zpos n)) in
  let num := Z.shiftl (Zpos n) sh in
  let q := (num / Zpos d)%Z in
  let r := (num mod Zpos d)%Z in
  let loc := if (r =? 0)%Z then loc_Exact else loc_Inexact (2 * r ?= Zpos d)%Z in
  binary_round_aux prec emax s q (- sh) loc.

(** The number denoted by the decimal [(-1)^s * m * 10^e]. *)
Definition of_decimal (s : bool) (m : N) (e : Z) : number :=
  match m with
  | N0 => S754_zero s
  | Npos p =>
      match e with
      | Zneg k => round_ratio s p (Pos.pow 10 k)
      | Z0 => round_ratio s p 1
      | Zpos k => round_ratio s (p * Pos.pow 10 k) 1
      end
  end.

(** The number with integer value [z]. *)
Definition of_Z (z : Z) : number :=
  of_decimal (z <? 0)%Z (Z.abs_N z) 0.

Definition digit_value (c : ascii) : N := (code c - 48)%N.

Definition digits_value (ds : str) : N :=
  fold_left (fun acc c => (10 * acc + digit_value c)%N) ds 0%N.

Fixpoint span (p : ascii -> bool) (s : str) : str * str :=
  match s with
  | c :: s' => if p c then let '(a, b) := span p s' in (c :: a, b) else ([], s)
  | [] => ([], [])
  end.

(** The exponent part [e], [e+] or [e-] followed by digits; without digits
    there is no exponent part. *)
Definition exponent_part (s : str) : Z :=
  match s with
  | c :: s' =>
      if ascii_eqb c "e" || ascii_eqb c "E" then
        let '(sg, s'') :=
          match s' with
          | d :: t => if ascii_eqb d "-" then (true, t)
                      else if ascii_eqb d "+" then (false, t) else (false, s')
          | [] => (false, s')
          end in
        let '(ds, _) := span is_digit s'' in
        match ds with
        | [] => 0%Z
        | _ => if sg then (- Z.of_N (digits_value ds))%Z else Z.of_N (digits_value ds)
        end
      else 0%Z
  | [] => 0%Z
  end.

(** [parseFloat]: leading white space is dropped and the longest prefix that
    is a StrDecimalLiteral is converted; NaN when there is none. *)
Definition parseFloat (s : str) : number :=
  let t := trimStart s in
  let '(sg, t1) :=
    match t with
    | c :: t' => if ascii_eqb c "-" then (true, t')
                 else if ascii_eqb c "+" then (false, t') else (false, t)
    | [] => (false, t)
    end in
  if startsWith t1 "Infinity" then S754_infinity sg
  else
    let '(ip, r1) := span is_digit t1 in
    let '(fp, r2) :=
      match r1 with
      | c :: r => if ascii_eqb c "." then span is_digit r else ([], r1)
      | [] => ([], r1)
      end in
    match ip ++ fp with
    | [] => NaN
    | ds => of_decimal sg (digits_value ds) (exponent_part r2 - Z.of_nat (length fp))
    end.

(** The integer [n] for which [n / 100 - x] is closest to zero, the larger
    one on a tie, for [x = m * 2^e] positive. *)
Definition hundredths (m : positive) (e : Z) : N :=
  match e with
  | Zneg k => Z.to_N ((200 * Zpos m + Z.pow 2 (Zpos k)) / Z.pow 2 (Zpos k + 1))
  | _ => Z.to_N (100 * Zpos m * Z.pow 2 e)
  end.

(** The digits of [n] with a point before the last two, zero-padded to at
    least three digits. *)
Definition fixed2_digits (n : N) : str :=
  let ds := padStart 3 "0" (decimal_of_N n) in
  firstn (length ds - 2) ds ++ lit "." ++ skipn (length ds - 2) ds.

Section ToFixed.
(** [Number::toString], the shortest round-trip printer of the engine;
    [toFixed] reaches it for finite values only from [10^21] on. *)
Variable NumberToString : number -> str.

(** [x.toFixed(2)] *)
Definition toFixed2 (x : number) : str :=
  match x with
  | S754_nan => lit "NaN"
  | S754_infinity false => lit "Infinity"
  | S754_infinity true => lit "-Infinity"
  | S754_zero _ => lit "0.00"
  | S754_finite s m e =>
      if num_lt (S754_finite false m e) (of_decimal false 1 21)
      then (if s then lit "-" else []) ++ fixed2_digits (hundredths m e)
      else (if s then lit "-" else []) ++ NumberToString (S754_finite false m e)
  end.
End ToFixed.

(** ** Regular expressions *)

(** The patterns of the sources use character classes, sequencing,
    alternation, greedy and lazy repetition, capture groups and the
    assertions [^], [$] and [\b]; none uses a back-reference or a
    look-around, no capture group stands under a repetition, and no
    pattern has the [m] or [s] flag. *)
Inductive regex : Type :=
| Eps
| Chr (p : ascii -> bool)
| Seq (r1 r2 : regex)
| Alt (r1 r2 : regex)
| Star (greedy : bool) (r : regex)
| Group (i : nat) (r : regex)
| Bol
| Eol
| WordB.

(** A matcher state: the units already passed, last one first, the units
    still ahead, and the captures closed so far. *)
Record mstate : Type := MState {
  seen : str;
  ahead : str;
  caps : list (nat * str)
}.

Definition start_state (s : str) : mstate :=
  {| seen := []; ahead := s; caps := [] |}.

Definition index_of (s : mstate) : nat := length (seen s).

(** The text between two states of one run. *)
Definition consumed (s0 s1 : mstate) : str :=
  rev (firstn (length (seen s1) - length (seen s0)) (seen s1)).

Definition set_cap (i : nat) (s0 s1 : mstate) : mstate :=
  {| seen := seen s1; ahead := ahead s1; caps := (i, consumed s0 s1) :: caps s1 |}.

Fixpoint get_cap (i : nat) (cs : list (nat * str)) : option str :=
  match cs with
  | [] => None
  | (j, v) :: cs' => if Nat.eqb i j then Some v else get_cap i cs'
  end.

Definition word_at (s : str) : bool :=
  match s with c :: _ => is_word c | [] => false end.

Definition or_else {A} (o : option A) (f : unit -> option A) : option A :=
  match o with Some x => Some x | None => f tt end.

(** RepeatMatcher: [body] is the matcher of the repeated pattern.  The
    greedy loop tries one more iteration before it leaves, the lazy one
    leaves first; an iteration that consumes nothing is rejected.  Every
    iteration consumes a unit, so the units ahead bound the iterations. *)
Fixpoint star_loop {A} (body : mstate -> (mstate -> option A) -> option A)
    (greedy : bool) (k : mstate -> option A) (fuel : nat) (s : mstate) : option A :=
  let again (_ : unit) :=
    match fuel with
    | O => None
    | S fuel' =>
        body s (fun s1 =>
          if (length (ahead s1) <? length (ahead s))%nat
          then star_loop body greedy k fuel' s1 else None)
    end in
  if greedy then or_else (again tt) (fun _ => k s)
  else or_else (k s) again.

(** The matcher of a pattern: [rx_match r s k] runs [r] from [s] and hands
    every end state to the continuation [k], in the order of priority,
    until [k] accepts one. *)
Fixpoint rx_match {A} (r : regex) (s : mstate) (k : mstate -> option A) : option A :=
  match r with
  | Eps => k s
  | Chr p =>
      match ahead s with
      | c :: tl =>
          if p c then k {| seen := c :: seen s; ahead := tl; caps := caps s |}
          else None
      | [] => None
      end
  | Seq r1 r2 => rx_match r1 s (fun s1 => rx_match r2 s1 k)
  | Alt r1 r2 => or_else (rx_match r1 s k) (fun _ => rx_match r2 s k)
  | Star g r1 => star_loop (rx_match r1) g k (length (ahead s)) s
  | Group i r1 => rx_match r1 s (fun s1 => k (set_cap i s s1))
  | Bol => match seen s with [] => k s | _ => None end
  | Eol => match ahead s with [] => k s | _ => None end
  | WordB => if xorb (word_at (seen s)) (word_at (ahead s)) then k s else None
  end.

(** One attempt at the current position. *)
Definition rx_at (r : regex) (s : mstate) : option mstate :=
  rx_match r s Some.

Definition step_over (s : mstate) : option mstate :=
  match ahead s with
  | c :: tl => Some {| seen := c :: seen s; ahead := tl; caps := [] |}
  | [] => None
  end.

(** The leftmost match at or after the position of [s]: the state where it
    starts and the state where it ends. *)
Fixpoint rx_search_from (fuel : nat) (r : regex) (s : mstate) : option (mstate * mstate) :=
  match rx_at r s with
  | Some e => Some (s, e)
  | None =>
      match fuel with
      | O => None
      | S fuel' =>
          match step_over s with
          | Some s' => rx_search_from fuel' r s'
          | None => None
          end
      end
  end.

Definition rx_search (r : regex) (s : mstate) : option (mstate * mstate) :=
  rx_search_from (length (ahead s)) r s.

(** The result of [str.match(re)] or [re.exec(str)]: the index, the matched
    text and the captures. *)
Record rx_result : Type := RxResult {
  rx_index : nat;
  rx_text : str;
  rx_caps : list (nat * str)
}.

Definition result_of (b e : mstate) : rx_result :=
  {| rx_index := index_of b; rx_text := consumed b e; rx_caps := caps e |}.

(** [m[i]] for a capture group: [None] is [undefined]. *)
Definition group (i : nat) (m : rx_result) : option str := get_cap i (rx_caps m).

(** [m[i]] where the group takes part in every match. *)
Definition group_str (i : nat) (m : rx_result) : str :=
  match group i m with Some v => v | None => [] end.

(** [str.match(re)] for a pattern without the [g] flag. *)
Definition rx_exec (r : regex) (s : str) : option rx_result :=
  match rx_search r (start_state s) with
  | Some (b, e) => Some (result_of b e)
  | None => None
  end.

Definition rx_test (r : regex) (s : str) : bool :=
  match rx_exec r s with Some _ => true | None => false end.

(** [str.replace(re, by)] for a pattern without the [g] flag and a
    replacement text without [$]. *)
Definition replace_first (r : regex) (by_ : str) (s : str) : str :=
  match rx_search r (start_state s) with
  | Some (b, e) => rev (seen b) ++ by_ ++ ahead e
  | None => s
  end.

(** All matches of a pattern with the [g] flag, left to right: after a match
    the search resumes where it ended, one unit further when the match is
    empty. *)
Fixpoint rx_all_from (fuel : nat) (r : regex) (s : mstate) : list (mstate * mstate) :=
  match fuel with
  | O => []
  | S fuel' =>
      match rx_search r s with
      | Some (b, e) =>
          let e0 := {| seen := seen e; ahead := ahead e; caps := [] |} in
          (b, e) ::
          (if (length (ahead e) <? length (ahead b))%nat
           then rx_all_from fuel' r e0
           else match step_over e0 with
                | Some e1 => rx_all_from fuel' r e1
                | None => []
                end)
      | None => []
      end
  end.

Definition rx_all (r : regex) (s : str) : list (mstate * mstate) :=
  rx_all_from (S (length s)) r (start_state s).

(** The successive results of [re.exec(str)] for a pattern with the [g]
    flag, until it returns [null]. *)
Definition rx_exec_all (r : regex) (s : str) : list rx_result :=
  List.map (fun be => result_of (fst be) (snd be)) (rx_all r s).

(** [str.replace(re, by)] for a pattern with the [g] flag: the text between
    the matches is kept and every match becomes [by]. *)
Fixpoint splice (from : nat) (by_ : str) (s : str) (ms : list (mstate * mstate)) : str :=
  match ms with
  | [] => skipn from s
  | (b, e) :: ms' =>
      firstn (index_of b - from) (skipn from s) ++ by_ ++ splice (index_of e) by_ s ms'
  end.

Definition replace_all (r : regex) (by_ : str) (s : str) : str :=
  splice 0 by_ s (rx_all r s).

(** *** Pattern syntax *)

Definition chr (c : ascii) : regex := Chr (ascii_eqb c).

(** A letter under the [i] flag. *)
Definition chr_i (c : ascii) : regex :=
  Chr (fun x => ascii_eqb (upper_ascii x) (upper_ascii c)).

Fixpoint text (s : str) : regex :=
  match s with
  | [] => Eps
  | [c] => chr c
  | c :: s' => Seq (chr c) (text s')
  end.

Fixpoint text_i (s : str) : regex :=
  match s with
  | [] => Eps
  | [c] => chr_i c
  | c :: s' => Seq (chr_i c) (text_i s')
  end.

Definition digit : regex := Chr is_digit.            (* \d *)
Definition space : regex := Chr is_space.            (* \s *)
Definition word : regex := Chr is_word.              (* \w *)
Definition dot : regex := Chr (fun c => negb (is_line_terminator c)).  (* . *)
Definition digit_or_comma : regex :=                 (* [\d,] *)
  Chr (fun c => is_digit c || ascii_eqb c ",").
Definition not_quote : regex :=                      (* any unit but the double quote *)
  Chr (fun c => negb (ascii_eqb c dquote)).

Definition star (r : regex) : regex := Star true r.                (* r* *)
Definition plus (r : regex) : regex := Seq r (Star true r).        (* r+ *)
Definition plus_lazy (r : regex) : regex := Seq r (Star false r).  (* r+? *)
Definition opt (r : regex) : regex := Alt r Eps.                   (* r? *)

Fixpoint times (n : nat) (r : regex) : regex :=                    (* r{n} *)
  match n with
  | O => Eps
  | 1%nat => r
  | S n' => Seq r (times n' r)
  end.

Fixpoint seqs (rs : list regex) : regex :=
  match rs with
  | [] => Eps
  | [r] => r
  | r :: rs' => Seq r (seqs rs')
  end.

Fixpoint alts (rs : list regex) : regex :=
  match rs with
  | [] => Eps
  | [r] => r
  | r :: rs' => Alt r (alts rs')
  end.

(** ** Arrays *)

(** [Array.prototype.sort(cmp)] is stable; [le a b] stands for
    [cmp(a, b) <= 0].  An element is put before the first one it may
    precede, so equal elements keep their order. *)
Fixpoint sort_insert {A} (le : A -> A -> bool) (a : A) (l : list A) : list A :=
  match l with
  | [] => [a]
  | b :: l' => if le a b then a :: l else b :: sort_insert le a l'
  end.

Fixpoint Array_sort {A} (le : A -> A -> bool) (l : list A) : list A :=
  match l with
  | [] => []
  | a :: l' => sort_insert le a (Array_sort le l')
  end.

(** ** Promises *)

Inductive promise (A : Type) : Type :=
| Resolved (value : A)
| Rejected (message : str).
Arguments Resolved {A} value.
Arguments Rejected {A} message.

(** [await p] followed by the rest of the function: a rejection of [p]
    rejects the whole. *)
#[global] Instance promise_ret : MRet promise := @Resolved.
#[global] Instance promise_bind : MBind promise := λ A B k p,
  match p with
  | Resolved a => k a
  | Rejected msg => Rejected msg
  end.

(** ** The transaction model (adcb.ts) *)

Record Transaction : Type := mkTransaction {
  date : str;
  payee : str;
  memo : str;
  amount : number;
  originalDate : str
}.

Record ParseResult : Type := mkParseResult {
  bankName : str;
  statementType : str;
  transactions : list Transaction;
  metadata : gmap string str;
  errors : list str
}.

Inductive StatementKind : Type := account | creditcard.

(** [/^\d{2}\/\d{2}\/\d{4}/] without the anchors, shared by the patterns
    of both banks. *)
Definition ddmmyyyy : regex :=
  seqs [times 2 digit; chr "/"; times 2 digit; chr "/"; times 4 digit].

(** ** ADCB statements (adcb.ts) *)

Module Adcb.

Fixpoint parseCSVLine_loop (line : str) (result : list str) (current : str)
    (inQuotes : bool) : list str :=
  match line with
  | [] => result ++ [trim current]
  | char :: line' =>
      if ascii_eqb char dquote then
        parseCSVLine_loop line' result current (negb inQuotes)
      else if ascii_eqb char "," && negb inQuotes then
        parseCSVLine_loop line' (result ++ [trim current]) [] inQuotes
      else
        parseCSVLine_loop line' result (current ++ [char]) inQuotes
  end.

Definition parseCSVLine (line : str) : list str :=
  parseCSVLine_loop line [] [] false.

Definition parseDDMMYYYY (dateStr : str) : str :=
  match split "/" dateStr with
  | [dd; mm; yyyy] =>
      yyyy +.+ "-" +.+ padStart 2 "0" mm +.+ "-" +.+ padStart 2 "0" dd
  | _ => dateStr
  end.

Definition parseAmount (s : str) : number :=
  if negb (truthy s) || str_eqb s "0" then zero
  else parseFloat (replace_all (chr ",") [] s).

Definition content_lines (content : str) : list str :=
  List.filter truthy (List.map trim (split nl content)).

Fixpoint detect_headers (lines : list str) : option StatementKind :=
  match lines with
  | [] => None
  | line :: lines' =>
      if includes line "Posting Date" && includes line "Value Date"
         && includes line "Debit Amount" then Some account
      else if includes line "Transaction Date" && includes line "Cr/Dr"
         && includes line "Amount in AED" then Some creditcard
      else detect_headers lines'
  end.

Definition detectADCBType (content : str) : option StatementKind :=
  let lines := content_lines content in
  if match lines with l0 :: _ => includes l0 "Account Number:" | [] => false end
  then Some account
  else if match lines with l0 :: _ => includes l0 "Statement Period" | [] => false end
          && existsb (fun l => includes l "Credit Limit") lines
  then Some creditcard
  else detect_headers (firstn 10 lines).

Definition cleanDescription (desc : str) : str :=
  if negb (truthy desc) then []
  else
    trim (replace_all (Alt (Seq Bol (plus space)) (Seq (plus space) Eol)) []
           (replace_all (plus space) " " desc)).

(** [/label\s*(Q+)/], where [Q] is the class of all units but the double
    quote. *)
Definition labelled (label : regex) : regex :=
  seqs [label; star space; Group 1 (plus not_quote)].

(** [/\s*,\s*$/] *)
Definition trailing_comma : regex :=
  seqs [star space; chr ","; star space; Eol].

Definition capture (key : string) (re : regex) (post : str -> str) (line : str)
    (metadata : gmap string str) : gmap string str :=
  match rx_exec re line with
  | Some m => <[key := post (trim (group_str 1 m))]> metadata
  | None => metadata
  end.

(** [/^\d{2}\/\d{2}\/\d{4}$/] *)
Definition date_only : regex := seqs [Bol; ddmmyyyy; Eol].

(** The metadata pass of [parseADCBAccount]: it stops at the header row
    and returns its index. *)
Fixpoint account_header (lines : list str) (i : nat) (metadata : gmap string str)
    : gmap string str * option nat :=
  match lines with
  | [] => (metadata, None)
  | line :: lines' =>
      let metadata :=
        if includes line "Account Number:"
        then capture "accountNumber" (labelled (text "Account Number:"))
               (replace_first trailing_comma []) line metadata
        else metadata in
      let metadata :=
        if includes line "Statement Period:"
        then capture "period" (labelled (text "Statement Period:"))
               (replace_first trailing_comma []) line metadata
        else metadata in
      let metadata :=
        if includes line "Account Name"
        then capture "accountName" (labelled (text "Account Name(s):"))
               (replace_first trailing_comma []) line metadata
        else metadata in
      if startsWith line "Posting Date" || includes line "Posting Date,Value Date"
      then (metadata, Some i)
      else account_header lines' (S i) metadata
  end.

(** The body of the transaction loop of [parseADCBAccount]. *)
Definition account_row (line : str) : option Transaction :=
  match parseCSVLine line with
  | postingDate :: _valueDate :: _refNo :: description :: debitStr :: creditStr :: _ =>
      if negb (truthy postingDate) || negb (rx_test date_only postingDate) then None
      else
        let debit := parseAmount debitStr in
        let credit := parseAmount creditStr in
        if num_eq debit zero && num_eq credit zero then None
        else
          let amount := if num_gt credit zero then credit else neg debit in
          Some {| date := parseDDMMYYYY postingDate;
                  payee := cleanDescription description;
                  memo := [];
                  amount := amount;
                  originalDate := postingDate |}
  | _ => None
  end.

Definition parseADCBAccount (content : str) : ParseResult :=
  let lines := content_lines content in
  match account_header lines 0 ∅ with
  | (metadata, None) =>
      {| bankName := "ADCB"; statementType := "Account Statement";
         transactions := []; metadata := metadata;
         errors := [lit "Could not find header row in ADCB account statement"] |}
  | (metadata, Some headerIndex) =>
      {| bankName := "ADCB"; statementType := "Account Statement";
         transactions := omap account_row (skipn (headerIndex + 1) lines);
         metadata := metadata;
         errors := [] |}
  end.

(** The metadata pass of [parseADCBCreditCard]. *)
Fixpoint creditcard_header (lines : list str) (i : nat) (metadata : gmap string str)
    : gmap string str * option nat :=
  match lines with
  | [] => (metadata, None)
  | line :: lines' =>
      let metadata :=
        if includes line "Statement Period"
        then capture "period"
               (labelled (seqs [text "Statement Period"; star space; chr ":"]))
               id line metadata
        else metadata in
      let metadata :=
        if includes line "Current Balance"
        then capture "balance" (labelled (text "Current Balance:")) id line metadata
        else metadata in
      let metadata :=
        if includes line "Credit Limit" && negb (includes line "Available")
        then capture "creditLimit" (labelled (text "Credit Limit:")) id line metadata
        else metadata in
      if includes line "Transaction Date" && includes line "Cr/Dr"
      then (metadata, Some i)
      else creditcard_header lines' (S i) metadata
  end.

(** The body of the transaction loop of [parseADCBCreditCard]. *)
Definition creditcard_row (line : str) : option Transaction :=
  match parseCSVLine line with
  | dateStr :: description :: crDr :: amountStr :: _ =>
      if includes description "Primary Card Number"
         || includes description "Card Holder Name" then None
      else if negb (truthy dateStr) || negb (rx_test date_only dateStr) then None
      else
        let rawAmount := parseAmount amountStr in
        if num_eq rawAmount zero then None
        else
          let amount := if str_eqb crDr "CR" then rawAmount else neg rawAmount in
          Some {| date := parseDDMMYYYY dateStr;
                  payee := cleanDescription description;
                  memo := [];
                  amount := amount;
                  originalDate := dateStr |}
  | _ => None
  end.

Definition parseADCBCreditCard (content : str) : ParseResult :=
  let lines := content_lines content in
  match creditcard_header lines 0 ∅ with
  | (metadata, None) =>
      {| bankName := "ADCB"; statementType := "Credit Card Statement";
         transactions := []; metadata := metadata;
         errors := [lit "Could not find header row in ADCB credit card statement"] |}
  | (metadata, Some headerIndex) =>
      {| bankName := "ADCB"; statementType := "Credit Card Statement";
         transactions := omap creditcard_row (skipn (headerIndex + 1) lines);
         metadata := metadata;
         errors := [] |}
  end.

End Adcb.

(** ** The content-extraction service *)

(** A text item of a page, as pdf.js returns it: [str], [transform[4]] and
    [transform[5]].  The coordinates are finite numbers; they are kept as
    the rationals they denote. *)
Record TextItem : Type := mkTextItem {
  item_str : str;
  item_x : Q;
  item_y : Q
}.

(** What the parsers can observe of a [File]: its name, the outcome of
    [file.text()], and the outcome of opening it as a document (loading the
    library, [file.arrayBuffer()], [getDocument]); an opened document is the
    list of its pages, each the outcome of [getPage(i)] followed by
    [getTextContent()]. *)
Record File : Type := mkFile {
  name : str;
  text_of : promise str;
  pdf : promise (list (promise (list TextItem)))
}.

(** [Math.round] *)
Definition Math_round (q : Q) : Z := Qfloor (q + (1 # 2)).

(** ** Emirates NBD statements (enbd.ts) *)

Module Enbd.

Record RawItem : Type := mkRawItem {
  raw_x : Q;
  raw_y : Z;
  raw_text : str
}.

Record LineItem : Type := mkLineItem {
  li_x : Q;
  li_text : str
}.

Record MergedLine : Type := mkMergedLine {
  line_y : Z;
  line_items : list LineItem
}.

Definition Y_TOLERANCE : Z := 4.

Definition raw_items (items : list TextItem) : list RawItem :=
  List.map
    (fun item => {| raw_x := item_x item;
                    raw_y := Math_round (item_y item);
                    raw_text := item_str item |})
    (List.filter
       (fun item => truthy (item_str item) && negb (str_eqb (trim (item_str item)) []))
       items).

Definition within_tolerance (l : MergedLine) (item : RawItem) : bool :=
  (Z.abs (line_y l - raw_y item) <=? Y_TOLERANCE)%Z.

Definition line_item (item : RawItem) : LineItem :=
  {| li_x := raw_x item; li_text := raw_text item |}.

(** One turn of the merging loop: the first line within the tolerance
    receives the item in place; without such a line a new one is pushed. *)
Fixpoint place (item : RawItem) (mergedLines : list MergedLine) : list MergedLine :=
  match mergedLines with
  | [] => [ {| line_y := raw_y item; line_items := [line_item item] |} ]
  | l :: ls =>
      if within_tolerance l item
      then {| line_y := line_y l; line_items := line_items l ++ [line_item item] |} :: ls
      else l :: place item ls
  end.

Definition merge_lines (rawItems : list RawItem) : list MergedLine :=
  fold_left (fun mergedLines item => place item mergedLines) rawItems [].

Definition line_text (line : MergedLine) : str :=
  let lineItems :=
    Array_sort (fun a b => Qle_bool (li_x a - li_x b) 0) (line_items line) in
  join " " (List.map li_text lineItems).

(** The text of one page: the body of the page loop of
    [extractTextFromPDF]. *)
Definition page_text (items : list TextItem) : str :=
  let rawItems :=
    Array_sort (fun a b => (raw_y b - raw_y a <=? 0)%Z) (raw_items items) in
  let mergedLines :=
    Array_sort (fun a b => (line_y b - line_y a <=? 0)%Z) (merge_lines rawItems) in
  join [nl] (List.map line_text mergedLines).

Definition extractTextFromPDF (file : File) : promise (list str) :=
  doc ← pdf file;
  mapM (fun page => items ← page; mret (page_text items)) doc.

(** The Arabic marker of [detectENBDType] has units above 255, so it does
    not occur in a text of the embedding. *)
Definition includes_arabic_marker (text : str) : bool := false.

Definition detectENBDType (text : str) : option StatementKind :=
  if includes text "Credit Card Statement" || includes_arabic_marker text
  then Some creditcard
  else if includes text "Account Statement" || includes text "STATEMENT OF ACCOUNT"
  then Some account
  else None.

Definition parseDDMMYYYY (dateStr : str) : str :=
  match split "/" dateStr with
  | [dd; mm; yyyy] =>
      yyyy +.+ "-" +.+ padStart 2 "0" mm +.+ "-" +.+ padStart 2 "0" dd
  | _ => dateStr
  end.

Definition months : list (str * str) :=
  [ (lit "jan", lit "01"); (lit "feb", lit "02"); (lit "mar", lit "03");
    (lit "apr", lit "04"); (lit "may", lit "05"); (lit "jun", lit "06");
    (lit "jul", lit "07"); (lit "aug", lit "08"); (lit "sep", lit "09");
    (lit "oct", lit "10"); (lit "nov", lit "11"); (lit "dec", lit "12") ].

Fixpoint months_get (table : list (str * str)) (key : str) : option str :=
  match table with
  | [] => None
  | (k, v) :: table' => if str_eqb key k then Some v else months_get table' key
  end.

(** [/(\d{1,2})\s+(\w{3})\s+(\d{4})/i] *)
Definition month_date : regex :=
  seqs [Group 1 (Seq digit (opt digit)); plus space; Group 2 (times 3 word);
        plus space; Group 3 (times 4 digit)].

Definition parseMonthDate (dateStr : str) : str :=
  match rx_exec month_date dateStr with
  | None => dateStr
  | Some m =>
      let day := group_str 1 m in
      let month := group_str 2 m in
      let year := group_str 3 m in
      match months_get months (toLowerCase month) with
      | None => dateStr
      | Some mm => year +.+ "-" +.+ mm +.+ "-" +.+ padStart 2 "0" day
      end
  end.

(** [/\bARE\s*$/] and [/\bABUDHABI\b/gi] *)
Definition trailing_are : regex := seqs [WordB; text "ARE"; star space; Eol].
Definition abudhabi : regex := seqs [WordB; text_i "ABUDHABI"; WordB].

Definition cleanENBDDescription (desc : str) : str :=
  if negb (truthy desc) then []
  else
    trim (replace_all abudhabi "ABU DHABI"
           (replace_first trailing_are []
             (replace_all (plus space) " " desc))).

(** [[\d,]+\.\d{2}] *)
Definition amount2 : regex := seqs [plus digit_or_comma; chr "."; times 2 digit].

(** [/Card Number[:\s]*([\dX\s*]+)/] *)
Definition card_number : regex :=
  seqs [text "Card Number";
        star (Chr (fun c => ascii_eqb c ":" || is_space c));
        Group 1 (plus (Chr (fun c => is_digit c || ascii_eqb c "X" || is_space c
                                     || ascii_eqb c "*")))].

(** [/Statement Period[:\s]*(.+?)(?:\n|$)/] *)
Definition statement_period : regex :=
  seqs [text "Statement Period";
        star (Chr (fun c => ascii_eqb c ":" || is_space c));
        Group 1 (plus_lazy dot);
        Alt (chr nl) Eol].

(** [/^(\d{2}\/\d{2}\/\d{4})\s+(\d{2}\/\d{2}\/\d{4})\s+(.+?)\s+([\d,]+\.\d{2})(CR)?\s*$/] *)
Definition card_row : regex :=
  seqs [Bol; Group 1 ddmmyyyy; plus space; Group 2 ddmmyyyy; plus space;
        Group 3 (plus_lazy dot); plus space; Group 4 amount2;
        opt (Group 5 (text "CR")); star space; Eol].

(** The memo: the next line when it gives an exchange rate. *)
Definition memo_of (next : option str) : str :=
  match next with
  | Some l =>
      let next := trim l in
      if startsWith next "(1 AED =" || startsWith next "(1 USD =" then next else []
  | None => []
  end.

(** The body of the primary loop of [parseENBDCreditCard] at line [i];
    [next] is line [i + 1] when there is one. *)
Definition card_line (l : str) (next : option str) : option Transaction :=
  let line := trim l in
  match rx_exec card_row line with
  | None => None
  | Some txMatch =>
      let transDate := group_str 1 txMatch in
      let description := group_str 3 txMatch in
      let amountStr := group_str 4 txMatch in
      let crFlag := group 5 txMatch in
      if includes description "Transaction Date"
         || includes description "Posting Date"
         || includes description "Previous Statement" then None
      else
        let cleanAmount := parseFloat (replace_all (chr ",") [] amountStr) in
        if isNaN cleanAmount || num_eq cleanAmount zero then None
        else
          let amount :=
            match crFlag with
            | Some f => if str_eqb f "CR" then cleanAmount else neg cleanAmount
            | None => neg cleanAmount
            end in
          Some {| date := parseDDMMYYYY transDate;
                  payee := cleanENBDDescription description;
                  memo := memo_of next;
                  amount := amount;
                  originalDate := transDate |}
  end.

(** A loop over the lines of a page whose body looks at the next line. *)
Fixpoint each_line (body : str -> option str -> option Transaction) (lines : list str)
    : list Transaction :=
  match lines with
  | [] => []
  | l :: lines' =>
      match body l (head lines') with
      | Some tx => tx :: each_line body lines'
      | None => each_line body lines'
      end
  end.

Definition each_page (body : list str -> list Transaction) (pages : list str)
    : list Transaction :=
  concat (List.map (fun pageText => body (split nl pageText)) pages).

(** [/^(\d{2}\/\d{2}\/\d{4})/], [/([\d,]+\.\d{2})(CR)?\s*$/] and
    [/^(\d{2}\/\d{2}\/\d{4})\s+/] *)
Definition leading_date : regex := seqs [Bol; Group 1 ddmmyyyy].
Definition trailing_amount : regex :=
  seqs [Group 1 amount2; opt (Group 2 (text "CR")); star space; Eol].
Definition second_date : regex := seqs [Bol; Group 1 ddmmyyyy; plus space].

(** The body of the loop of [parseENBDCreditCardFallback]. *)
Definition fallback_line (l : str) (next : option str) : option Transaction :=
  let line := trim l in
  match rx_exec leading_date line with
  | None => None
  | Some dateMatch =>
      match rx_exec trailing_amount line with
      | None => None
      | Some amountMatch =>
          let dateStr := group_str 1 dateMatch in
          let amountStr := group_str 1 amountMatch in
          let isCredit :=
            match group 2 amountMatch with
            | Some f => str_eqb f "CR"
            | None => false
            end in
          let restAfterFirstDate :=
            trim (substring_from (length (rx_text dateMatch)) line) in
          let description :=
            match rx_exec second_date restAfterFirstDate with
            | Some secondDateMatch =>
                substring_from (length (rx_text secondDateMatch)) restAfterFirstDate
            | None => restAfterFirstDate
            end in
          let description := trim (replace_first trailing_amount [] description) in
          if negb (truthy description)
             || includes description "Transaction Date"
             || includes description "Posting Date" then None
          else
            let cleanAmount := parseFloat (replace_all (chr ",") [] amountStr) in
            if isNaN cleanAmount || num_eq cleanAmount zero then None
            else
              let amount := if isCredit then cleanAmount else neg cleanAmount in
              Some {| date := parseDDMMYYYY dateStr;
                      payee := cleanENBDDescription description;
                      memo := memo_of next;
                      amount := amount;
                      originalDate := dateStr |}
      end
  end.

Definition parseENBDCreditCardFallback (pages : list str) : list Transaction :=
  each_page (each_line fallback_line) pages.

Definition card_metadata (fullText : str) : gmap string str :=
  let metadata : gmap string str := ∅ in
  let metadata :=
    match rx_exec card_number fullText with
    | Some m => <["cardNumber" := trim (group_str 1 m)]> metadata
    | None => metadata
    end in
  match rx_exec statement_period fullText with
  | Some m => <["period" := trim (group_str 1 m)]> metadata
  | None => metadata
  end.

Definition parseENBDCreditCard (file : File) : promise ParseResult :=
  match extractTextFromPDF file with
  | Resolved pages =>
      let fullText := join [nl] pages in
      let metadata := card_metadata fullText in
      let transactions := each_page (each_line card_line) pages in
      let transactions :=
        if (length transactions =? 0)%nat then parseENBDCreditCardFallback pages
        else transactions in
      Resolved {| bankName := "Emirates NBD"; statementType := "Credit Card Statement";
                  transactions := transactions; metadata := metadata; errors := [] |}
  | Rejected message =>
      Resolved {| bankName := "Emirates NBD"; statementType := "Credit Card Statement";
                  transactions := []; metadata := ∅;
                  errors := [lit "PDF parsing error: " +.+ message] |}
  end.

(** [/Account No\.\s*([\d]+)/], [/IBAN\s*(AE[\d]+)/],
    [/STATEMENT OF ACCOUNT FOR THE PERIOD OF\s+(.+?)\s+to\s+(.+?)(?:\n|$)/i]
    and [/Currency\s+(AED|USD|EUR|GBP)/] *)
Definition account_no : regex :=
  seqs [text "Account No."; star space; Group 1 (plus digit)].
Definition iban : regex :=
  seqs [text "IBAN"; star space; Group 1 (Seq (text "AE") (plus digit))].
Definition period_of : regex :=
  seqs [text_i "STATEMENT OF ACCOUNT FOR THE PERIOD OF"; plus space;
        Group 1 (plus_lazy dot); plus space; text_i "to"; plus space;
        Group 2 (plus_lazy dot); Alt (chr nl) Eol].
Definition currency : regex :=
  seqs [text "Currency"; plus space;
        Group 1 (alts [text "AED"; text "USD"; text "EUR"; text "GBP"])].

Definition account_metadata (fullText : str) : gmap string str :=
  let metadata : gmap string str := ∅ in
  let metadata :=
    match rx_exec account_no fullText with
    | Some m => <["accountNumber" := trim (group_str 1 m)]> metadata
    | None => metadata
    end in
  let metadata :=
    match rx_exec iban fullText with
    | Some m => <["iban" := trim (group_str 1 m)]> metadata
    | None => metadata
    end in
  let metadata :=
    match rx_exec period_of fullText with
    | Some m =>
        <["period" := trim (group_str 1 m) +.+ " to " +.+ trim (group_str 2 m)]> metadata
    | None => metadata
    end in
  match rx_exec currency fullText with
  | Some m => <["currency" := trim (group_str 1 m)]> metadata
  | None => metadata
  end.

(** [(?:Jan|Feb|Mar|Apr|May|Jun|Jul|Aug|Sep|Oct|Nov|Dec)] under the [i]
    flag *)
Definition month_name : regex :=
  alts (List.map text_i
          (strs ["Jan"; "Feb"; "Mar"; "Apr"; "May"; "Jun";
                 "Jul"; "Aug"; "Sep"; "Oct"; "Nov"; "Dec"])).

(** [\d{1,2}\s+(?:Jan|...|Dec)\s+\d{4}] *)
Definition day_month_year : regex :=
  seqs [digit; opt digit; plus space; month_name; plus space; times 4 digit].

(** [/^\s*(\d{1,2}\s+(?:Jan|...|Dec)\s+\d{4})\s+/i] and the test of a
    continuation line, [/^\s*\d{1,2}\s+(?:Jan|...|Dec)\s+\d{4}/i] *)
Definition row_date : regex :=
  seqs [Bol; star space; Group 1 day_month_year; plus space].
Definition dated_line : regex := seqs [Bol; star space; day_month_year].

(** [/-?[\d,]+\.\d{2}/g] *)
Definition amountRegex : regex := Seq (opt (chr "-")) amount2.

(** [/^\d+\s*\/\s*\d+$/] and [/^This is an/] *)
Definition page_number : regex :=
  seqs [Bol; plus digit; star space; chr "/"; star space; plus digit; Eol].
Definition this_is_an : regex := Seq Bol (text "This is an").

(** [/([\d,]+\.\d{2})\s*(?:Cr|Dr)\s*$/i] *)
Definition balance_marker : regex :=
  seqs [Group 1 amount2; star space; Alt (text_i "Cr") (text_i "Dr");
        star space; Eol].

(** An element of [amounts]. *)
Record Amount : Type := mkAmount {
  value : number;
  index : nat;
  length_ : nat
}.

Definition amounts_of (rest : str) : list Amount :=
  List.map
    (fun m => {| value := parseFloat (replace_all (chr ",") [] (rx_text m));
                 index := rx_index m;
                 length_ := length (rx_text m) |})
    (rx_exec_all amountRegex rest).

(** The loop that gathers the continuation lines after line [i]; [following]
    holds the lines from [i + 1] on. *)
Fixpoint continuation (following : list str) (fullDescription : str) : str :=
  match following with
  | [] => fullDescription
  | nextLine :: following' =>
      if rx_test dated_line nextLine then fullDescription
      else
        let trimmed := trim nextLine in
        if negb (truthy trimmed)
           || includes trimmed "STATEMENT OF ACCOUNT"
           || includes trimmed "electronically generated"
           || includes trimmed "Need help"
           || includes trimmed "Emirates NBD"
           || rx_test page_number trimmed then fullDescription
        else if rx_test this_is_an trimmed then fullDescription
        else continuation following' (fullDescription +.+ " " +.+ trimmed)
  end.

(** The body of the loop of [parseENBDAccount] at line [i]; [following]
    holds the lines from [i + 1] on. *)
Definition account_line (line : str) (following : list str) : option Transaction :=
  match rx_exec row_date line with
  | None => None
  | Some dateMatch =>
      let dateStr := trim (group_str 1 dateMatch) in
      let rest := substring_from (length (rx_text dateMatch)) line in
      let amounts := amounts_of rest in
      match amounts with
      | [] => None
      | first :: others =>
          let firstAmountIndex := index first in
          let description := trim (substring_to firstAmountIndex rest) in
          if negb (truthy description)
             || str_eqb description "Description"
             || includes description "Date" then None
          else
            let fullDescription := continuation following description in
            let chosen :=
              if (2 <=? length amounts)%nat then Some (value first)
              else if rx_test balance_marker rest && (length amounts =? 1)%nat
                   then None
                   else Some (value first) in
            match chosen with
            | None => None
            | Some amount =>
                if isNaN amount || num_eq amount zero then None
                else
                  Some {| date := parseMonthDate dateStr;
                          payee := cleanENBDDescription fullDescription;
                          memo := [];
                          amount := amount;
                          originalDate := dateStr |}
            end
      end
  end.

Fixpoint account_lines (lines : list str) : list Transaction :=
  match lines with
  | [] => []
  | line :: lines' =>
      match account_line line lines' with
      | Some tx => tx :: account_lines lines'
      | None => account_lines lines'
      end
  end.

Definition parseENBDAccount (file : File) : promise ParseResult :=
  match extractTextFromPDF file with
  | Resolved pages =>
      let fullText := join [nl] pages in
      Resolved {| bankName := "Emirates NBD"; statementType := "Account Statement";
                  transactions := each_page account_lines pages;
                  metadata := account_metadata fullText;
                  errors := [] |}
  | Rejected message =>
      Resolved {| bankName := "Emirates NBD"; statementType := "Account Statement";
                  transactions := []; metadata := ∅;
                  errors := [lit "PDF parsing error: " +.+ message] |}
  end.

End Enbd.

(** ** The orchestrator (index.ts) *)

Module Orchestrator.

Definition unknown (message : str) : ParseResult :=
  {| bankName := "Unknown"; statementType := "Unknown";
     transactions := []; metadata := ∅; errors := [message] |}.

Definition parseCSVFile (file : File) : promise ParseResult :=
  content ← text_of file;
  match Adcb.detectADCBType content with
  | Some account => mret (Adcb.parseADCBAccount content)
  | Some creditcard => mret (Adcb.parseADCBCreditCard content)
  | None =>
      mret (unknown "Could not detect CSV statement type. Currently supports ADCB account and credit card statements.")
  end.

(** [pdf.getPage(1)] followed by [getTextContent()] *)
Definition first_page (doc : list (promise (list TextItem))) : promise (list TextItem) :=
  match doc with
  | page :: _ => page
  | [] => Rejected "Invalid page request."
  end.

Definition parsePDFFile (file : File) : promise ParseResult :=
  doc ← pdf file;
  items ← first_page doc;
  let firstPageText := join " " (List.map item_str items) in
  match Enbd.detectENBDType firstPageText with
  | Some creditcard => Enbd.parseENBDCreditCard file
  | Some account => Enbd.parseENBDAccount file
  | None =>
      mret (unknown "Could not detect PDF statement type. Currently supports Emirates NBD credit card and account statements.")
  end.

Definition parseFile (file : File) : promise ParseResult :=
  let fileName := toLowerCase (name file) in
  if endsWith fileName ".csv" then parseCSVFile file
  else if endsWith fileName ".pdf" then parsePDFFile file
  else
    mret (unknown (lit "Unsupported file type: " +.+ fileName
                   +.+ ". Please upload a CSV or PDF file.")).

End Orchestrator.

(** The later revision of index.ts, which also routes spreadsheets.  The
    spreadsheet parser [parseENBDCreditCardXLSX] of enbd.ts is not part of
    the sources at hand and is taken as a parameter. *)
Module OrchestratorXlsx.
Section Spreadsheet.
Variable parseENBDCreditCardXLSX : File -> promise ParseResult.

Definition parseXLSXFile (file : File) : promise ParseResult :=
  parseENBDCreditCardXLSX file.

Definition parseFile (file : File) : promise ParseResult :=
  let fileName := toLowerCase (name file) in
  if endsWith fileName ".csv" then Orchestrator.parseCSVFile file
  else if endsWith fileName ".pdf" then Orchestrator.parsePDFFile file
  else if endsWith fileName ".xlsx" || endsWith fileName ".xls" then parseXLSXFile file
  else
    mret (Orchestrator.unknown
            (lit "Unsupported file type: " +.+ fileName
             +.+ ". Please upload a CSV, PDF, or XLSX file.")).

End Spreadsheet.
End OrchestratorXlsx.

(** ** The exporter (ynab-export.ts) *)

Inductive YNABFormat : Type := inflow_outflow | amount_only.

(** The revision that quotes every field, writes dates as DD/MM/YYYY and
    puts [0] on the unused side. *)
Module YnabExport.
Section Printer.
Variable NumberToString : number -> str.

Definition q (value : str) : str :=
  [dquote] ++ replace_all (chr dquote) [dquote; dquote] value ++ [dquote].

Definition formatDate (isoDate : str) : str :=
  match split "-" isoDate with
  | [yyyy; mm; dd] => dd +.+ "/" +.+ mm +.+ "/" +.+ yyyy
  | _ => isoDate
  end.

(** [/\.?0+$/] *)
Definition trailing_zeros : regex := seqs [opt (chr "."); plus (chr "0"); Eol].

Definition formatAmount (n : number) : str :=
  let abs := Math_abs n in
  let fixed := toFixed2 NumberToString abs in
  match replace_first trailing_zeros [] fixed with
  | [] => lit "0"
  | s => s
  end.

Definition row (fields : list str) : str := join "," (List.map q fields).

Definition toYNABCSV (transactions : list Transaction) (format : YNABFormat) : str :=
  match format with
  | inflow_outflow =>
      join [nl]
        (row (strs ["Date"; "Payee"; "Memo"; "Outflow"; "Inflow"]) ::
         List.map
           (fun tx =>
              let date := formatDate (date tx) in
              let outflow :=
                if num_lt (amount tx) zero then formatAmount (amount tx) else lit "0" in
              let inflow :=
                if num_gt (amount tx) zero then formatAmount (amount tx) else lit "0" in
              row [date; payee tx; memo tx; outflow; inflow])
           transactions)
  | amount_only =>
      join [nl]
        (row (strs ["Date"; "Payee"; "Memo"; "Amount"]) ::
         List.map
           (fun tx =>
              let date := formatDate (date tx) in
              let sign := if num_lt (amount tx) zero then lit "-" else [] in
              let amount := sign +.+ formatAmount (amount tx) in
              row [date; payee tx; memo tx; amount])
           transactions)
  end.
End Printer.
End YnabExport.

(** The revision that quotes a field only when it has to, writes dates as
    MM/DD/YYYY and leaves the unused side blank. *)
Module YnabExportPermissive.
Section Printer.
Variable NumberToString : number -> str.

Definition escapeCSV (value : str) : str :=
  if includes value "," || includes value [dquote] || includes value [nl]
  then [dquote] ++ replace_all (chr dquote) [dquote; dquote] value ++ [dquote]
  else value.

Definition formatDate (isoDate : str) : str :=
  match split "-" isoDate with
  | [yyyy; mm; dd] => mm +.+ "/" +.+ dd +.+ "/" +.+ yyyy
  | _ => isoDate
  end.

Definition toYNABCSV (transactions : list Transaction) (format : YNABFormat) : str :=
  match format with
  | inflow_outflow =>
      join [nl]
        (lit "Date,Payee,Memo,Outflow,Inflow" ::
         List.map
           (fun tx =>
              let date := formatDate (date tx) in
              let payee := escapeCSV (payee tx) in
              let memo := escapeCSV (memo tx) in
              let outflow :=
                if num_lt (amount tx) zero
                then toFixed2 NumberToString (Math_abs (amount tx)) else [] in
              let inflow :=
                if num_gt (amount tx) zero
                then toFixed2 NumberToString (amount tx) else [] in
              join "," [date; payee; memo; outflow; inflow])
           transactions)
  | amount_only =>
      join [nl]
        (lit "Date,Payee,Memo,Amount" ::
         List.map
           (fun tx =>
              let date := formatDate (date tx) in
              let payee := escapeCSV (payee tx) in
              let memo := escapeCSV (memo tx) in
              let amount := toFixed2 NumberToString (amount tx) in
              join "," [date; payee; memo; amount])
           transactions)
  end.
End Printer.
End YnabExportPermissive.

(** ** The upload zone (FileUploadZone.tsx) *)

Module FileUploadZone.

(** The state of the component. *)
Record State : Type := mkState {
  isDragging : bool;
  error : option str
}.

(** [validateFiles]: the files it returns and the value it gives to
    [setError]. *)
Definition validateFiles (files : list File) : list File * option str :=
  let valid :=
    List.filter
      (fun file =>
         let name := toLowerCase (name file) in
         endsWith name ".csv" || endsWith name ".pdf"
         || endsWith name ".xlsx" || endsWith name ".xls")
      files in
  if (length valid =? 0)%nat
  then ([], Some (lit "Only CSV, PDF, and XLSX files are supported."))
  else (valid, None).

(** [handleDrop] and [handleFileInput]: the next state and the files handed
    to [onFilesSelected], if it is called. *)
Definition handleDrop (isProcessing : bool) (st : State) (files : list File)
    : State * option (list File) :=
  let st := {| isDragging := false; error := error st |} in
  if isProcessing then (st, None)
  else
    let '(files, err) := validateFiles files in
    ({| isDragging := false; error := err |},
     if (0 <? length files)%nat then Some files else None).

Definition handleFileInput (isProcessing : bool) (st : State) (files : option (list File))
    : State * option (list File) :=
  match files with
  | Some files =>
      if negb isProcessing then
        let '(files, err) := validateFiles files in
        ({| isDragging := isDragging st; error := err |},
         if (0 <? length files)%nat then Some files else None)
      else (st, None)
  | None => (st, None)
  end.

Definition handleDragOver (isProcessing : bool) (st : State) : State :=
  if negb isProcessing then {| isDragging := true; error := error st |} else st.

Definition handleDragLeave (st : State) : State :=
  {| isDragging := false; error := error st |}.

End FileUploadZone.

(** ** The export panel (ExportPanel.tsx) *)

Module ExportPanel.
Section Handler.
Variable toYNABCSV : list Transaction -> YNABFormat -> str.

(** [/\.(csv|pdf)$/i] *)
Definition statement_suffix : regex :=
  seqs [chr "."; Group 1 (Alt (text_i "csv") (text_i "pdf")); Eol].

(** [handleExport]: the content and the file name it hands to
    [downloadCSV]. *)
Definition handleExport (transactions : list Transaction) (format : YNABFormat)
    (fileName : str) : str * str :=
  let csv := toYNABCSV transactions format in
  let baseName := replace_first statement_suffix [] fileName in
  (csv, baseName +.+ "_ynab.csv").

End Handler.
End ExportPanel.

(** ** The transaction table (TransactionTable.tsx) *)

Module TransactionTable.

(** [x + y] on numbers. *)
Definition add (x y : number) : number := SFadd prec emax x y.

Definition totalInflow (transactions : list Transaction) : number :=
  fold_left (fun sum t => add sum (amount t))
    (List.filter (fun t => num_gt (amount t) zero) transactions) zero.

Definition totalOutflow (transactions : list Transaction) : number :=
  fold_left (fun sum t => add sum (Math_abs (amount t)))
    (List.filter (fun t => num_lt (amount t) zero) transactions) zero.

End TransactionTable.

(** ** Notions used in the statements *)

(** A field between double quotes. *)
Definition quoted (s : str) : str := [dquote] ++ s ++ [dquote].

(** The lines of a text joined by line feeds. *)
Definition text_lines (l : list str) : str := join [nl] l.

(** *** Texts *)

(** [mentions c s]: the unit [c] occurs in [s]. *)
Definition mentions (c : ascii) (s : str) : bool := existsb (ascii_eqb c) s.

Definition starts_clean (s : str) : Prop :=
  match s with c :: _ => is_space c = false | [] => True end.

(** The number of occurrences of a unit. *)
Definition occurrences (c : ascii) (s : str) : nat :=
  length (List.filter (ascii_eqb c) s).

(** *** Runs of a pattern *)

(** [runs r s s']: the pattern [r] can lead from the state [s] to the state
    [s'].  The matcher explores these runs in the order of priority. *)
Inductive runs : regex -> mstate -> mstate -> Prop :=
| runs_eps s : runs Eps s s
| runs_chr p c tl s :
    ahead s = c :: tl -> p c = true ->
    runs (Chr p) s {| seen := c :: seen s; ahead := tl; caps := caps s |}
| runs_seq r1 r2 s s1 s2 : runs r1 s s1 -> runs r2 s1 s2 -> runs (Seq r1 r2) s s2
| runs_alt_l r1 r2 s s' : runs r1 s s' -> runs (Alt r1 r2) s s'
| runs_alt_r r1 r2 s s' : runs r2 s s' -> runs (Alt r1 r2) s s'
| runs_star_stop g r s : runs (Star g r) s s
| runs_star_more g r s s1 s2 :
    runs r s s1 -> (length (ahead s1) < length (ahead s))%nat ->
    runs (Star g r) s1 s2 -> runs (Star g r) s s2
| runs_group i r s s1 : runs r s s1 -> runs (Group i r) s (set_cap i s s1)
| runs_bol s : seen s = [] -> runs Bol s s
| runs_eol s : ahead s = [] -> runs Eol s s
| runs_wordb s : xorb (word_at (seen s)) (word_at (ahead s)) = true -> runs WordB s s.

(** The state of a search at index [i] of the text [s]. *)
Definition at_index (s : str) (i : nat) : mstate :=
  {| seen := rev (firstn i s); ahead := skipn i s; caps := [] |}.

(** [passes s t s']: between the states [s] and [s'] of one run the text
    [t] was passed over, and no capture was closed. *)
Definition passes (s : mstate) (t : str) (s' : mstate) : Prop :=
  ahead s = t ++ ahead s' /\ seen s' = rev t ++ seen s /\ caps s' = caps s.

(** [accepts r t]: from any state with [t] ahead, the pattern [r] has a run
    that passes over exactly [t]. *)
Definition accepts (r : regex) (t : str) : Prop :=
  forall s rest, ahead s = t ++ rest -> exists s', runs r s s' /\ ahead s' = rest.

(** [accepts_end r t]: from any state with exactly [t] ahead, the pattern
    [r] has a run. *)
Definition accepts_end (r : regex) (t : str) : Prop :=
  forall s, ahead s = t -> exists s', runs r s s'.

(** *** Shapes of dates and balances *)

(** The shape that [parseMonthDate] looks for. *)
Record month_date_shape (day ws1 mon ws2 year : str) : Prop := MonthDateShape {
  mds_day_length : (length day = 1 \/ length day = 2)%nat;
  mds_day : Forall (fun c => is_digit c = true) day;
  mds_ws1 : ws1 <> [] /\ Forall (fun c => is_space c = true) ws1;
  mds_mon_length : length mon = 3%nat;
  mds_mon : Forall (fun c => is_word c = true) mon;
  mds_ws2 : ws2 <> [] /\ Forall (fun c => is_space c = true) ws2;
  mds_year_length : length year = 4%nat;
  mds_year : Forall (fun c => is_digit c = true) year
}.


(** *** Exchanges in a list *)

(** Two lists are related by [swaps sw] when one is obtained from the other
    by exchanging neighbours that [sw] allows to exchange. *)
Inductive swaps {A} (sw : A -> A -> Prop) : list A -> list A -> Prop :=
| swaps_nil : swaps sw [] []
| swaps_skip x l l' : swaps sw l l' -> swaps sw (x :: l) (x :: l')
| swaps_swap x y l : sw x y -> swaps sw (x :: y :: l) (y :: x :: l)
| swaps_trans l l' l'' : swaps sw l l' -> swaps sw l' l'' -> swaps sw l l''.

(** *** Lines of a page *)

(** The lines of the merging loop together with the fragments they hold:
    the loop itself keeps only [x] and [text] of a fragment. *)
Definition cluster : Type := (Z * list Enbd.RawItem)%type.

Fixpoint place_fragment (item : Enbd.RawItem) (cs : list cluster) : list cluster :=
  match cs with
  | [] => [(Enbd.raw_y item, [item])]
  | c :: cs' =>
      if (Z.abs (fst c - Enbd.raw_y item) <=? Enbd.Y_TOLERANCE)%Z
      then (fst c, snd c ++ [item]) :: cs'
      else c :: place_fragment item cs'
  end.

Definition clusters_from (cs : list cluster) (rawItems : list Enbd.RawItem) : list cluster :=
  fold_left (fun cs item => place_fragment item cs) rawItems cs.

Definition forget (c : cluster) : Enbd.MergedLine :=
  {| Enbd.line_y := fst c; Enbd.line_items := List.map Enbd.line_item (snd c) |}.

(** The fragments of a page in the order of the merging loop, and the lines
    the loop puts them on. *)
Definition by_y_descending (a b : Enbd.RawItem) : bool :=
  (Enbd.raw_y b - Enbd.raw_y a <=? 0)%Z.

Definition lines_of_fragments (rawItems : list Enbd.RawItem) : list cluster :=
  clusters_from [] (Array_sort by_y_descending rawItems).

Definition page_clusters (items : list TextItem) : list cluster :=
  lines_of_fragments (Enbd.raw_items items).

Definition on_one_line (items : list TextItem) (a b : Enbd.RawItem) : Prop :=
  exists c, c ∈ page_clusters items /\ a ∈ snd c /\ b ∈ snd c.

(** The fragment is at most [Y_TOLERANCE] below the first fragment of the
    line. *)
Definition in_band (c : cluster) (a : Enbd.RawItem) : Prop :=
  (fst c - Enbd.Y_TOLERANCE <= Enbd.raw_y a <= fst c)%Z.

(** The state of the loop: every line starts with the fragment that gives
    it its [y], holds fragments of its band only, and lies more than the
    tolerance below the lines before it. *)
Record loop_state (cs : list cluster) : Prop := LoopState {
  ls_top : Forall (fun c => exists top more, snd c = top :: more /\ fst c = Enbd.raw_y top) cs;
  ls_band : Forall (fun c => Forall (in_band c) (snd c)) cs;
  ls_apart : StronglySorted (fun r r' => (r' < r - Enbd.Y_TOLERANCE)%Z) (List.map fst cs)
}.

(** Two fragments at the same place: same [x], same rounded [y]. *)
Definition same_place (a b : Enbd.RawItem) : bool :=
  Qeq_bool (Enbd.raw_x a) (Enbd.raw_x b) && (Enbd.raw_y a =? Enbd.raw_y b)%Z.

Fixpoint no_overlap (l : list Enbd.RawItem) : bool :=
  match l with
  | [] => true
  | a :: l' => forallb (fun b => negb (same_place a b)) l' && no_overlap l'
  end.

(** Neighbours that the sort by [y] may exchange between two orderings of a
    page without overlap: same [y], different [x]. *)
Definition level (a b : Enbd.RawItem) : Prop :=
  Enbd.raw_y a = Enbd.raw_y b /\ ~ (Enbd.raw_x a == Enbd.raw_x b)%Q.

Definition by_x (a b : Enbd.LineItem) : bool :=
  Qle_bool (Enbd.li_x a - Enbd.li_x b) 0.

Definition apart (p q : Enbd.LineItem) : Prop := ~ (Enbd.li_x p == Enbd.li_x q)%Q.

(** Two states of the merging loop with the same lines, the items of a line
    agreeing up to exchanges of neighbours with different [x]. *)
Definition lines_agree (L1 L2 : list Enbd.MergedLine) : Prop :=
  Forall2 (fun l1 l2 => Enbd.line_y l1 = Enbd.line_y l2
                        /\ swaps apart (Enbd.line_items l1) (Enbd.line_items l2)) L1 L2.

(** *** Results *)

Definition nonzero (tx : Transaction) : Prop := num_eq (amount tx) zero = false.

(** Why [parseFile] can answer [Unknown]: the suffix is not routed, or the
    detector of the routed family finds no variant. *)
Definition routing_or_detection_failed (file : File) : Prop :=
  let fileName := toLowerCase (name file) in
  (endsWith fileName ".csv" = false /\ endsWith fileName ".pdf" = false)
  \/ (endsWith fileName ".csv" = true
      /\ exists content, text_of file = Resolved content
                         /\ Adcb.detectADCBType content = None)
  \/ (endsWith fileName ".csv" = false /\ endsWith fileName ".pdf" = true
      /\ exists doc items, pdf file = Resolved doc
                           /\ Orchestrator.first_page doc = Resolved items
                           /\ Enbd.detectENBDType (join " " (List.map item_str items)) = None).

(** *** Texts without some units *)

(** [unquote s]: the text [s] without its double quotes. *)
Definition unquote (s : str) : str :=
  List.filter (fun c => negb (ascii_eqb c dquote)) s.

(** [without c s]: the text [s] without the unit [c]. *)
Definition without (c : ascii) (s : str) : str :=
  List.filter (fun x => negb (ascii_eqb c x)) s.

(** [substitute p by s]: every unit of class [p] replaced by the text [by]. *)
Definition substitute (p : ascii -> bool) (by_ : str) (s : str) : str :=
  flat_map (fun c => if p c then by_ else [c]) s.

(** *** Canonical dates and header rows *)

(** [strict_date original iso]: [original] is a date DD/MM/YYYY, two, two
    and four digits, and [iso] is the same date written YYYY-MM-DD. *)
Inductive strict_date : str -> str -> Prop :=
| StrictDate (dd mm yyyy : str) :
    length dd = 2%nat -> length mm = 2%nat -> length yyyy = 4%nat ->
    Forall (fun c => is_digit c = true) (dd ++ mm ++ yyyy) ->
    strict_date (dd ++ lit "/" ++ mm ++ lit "/" ++ yyyy)
                (yyyy ++ lit "-" ++ mm ++ lit "-" ++ dd).

(** The tests that end the metadata pass of the two ADCB parsers. *)
Definition account_header_row (line : str) : bool :=
  startsWith line "Posting Date" || includes line "Posting Date,Value Date".

Definition creditcard_header_row (line : str) : bool :=
  includes line "Transaction Date" && includes line "Cr/Dr".

(** [named_month_date original iso]: [original] is a date D Mon YYYY with a month
    of the table of [parseMonthDate], in any letter case, and [iso] is the
    same date written YYYY-MM-DD. *)
Inductive named_month_date : str -> str -> Prop :=
| MonthDate (day ws1 mon ws2 year mm : str) :
    month_date_shape day ws1 mon ws2 year ->
    Enbd.months_get Enbd.months (toLowerCase mon) = Some mm ->
    named_month_date (day ++ ws1 ++ mon ++ ws2 ++ year)
               (year ++ lit "-" ++ mm ++ lit "-" ++ padStart 2 "0" day).

(** *** Routing of the entry point *)

(** How the later revision of [parseFile] answers a file that it routes,
    and a file that it does not. *)
Definition routed (xlsx : File -> promise ParseResult) (file : File) : Prop :=
  OrchestratorXlsx.parseFile xlsx file = Orchestrator.parseCSVFile file
  \/ OrchestratorXlsx.parseFile xlsx file = Orchestrator.parsePDFFile file
  \/ OrchestratorXlsx.parseFile xlsx file = xlsx file.

Definition unsupported (xlsx : File -> promise ParseResult) (file : File) : Prop :=
  OrchestratorXlsx.parseFile xlsx file
  = Resolved (Orchestrator.unknown
                (lit "Unsupported file type: " +.+ toLowerCase (name file)
                 +.+ ". Please upload a CSV, PDF, or XLSX file.")).

(** *** Fragments, amounts and signs *)

(** The fragments that the layout keeps: those whose text is not blank. *)
Definition visible (item : TextItem) : bool :=
  truthy (item_str item) && negb (str_eqb (trim (item_str item)) []).

(** The order of the fragments of a line: the comparison of
    [lineItems.sort], on fragments that keep their [y]. *)
Definition by_raw_x (a b : Enbd.RawItem) : bool :=
  Qle_bool (Enbd.raw_x a - Enbd.raw_x b) 0.

(** An amount of a statement: digits and commas, a point and two digits. *)
Inductive amount_shape : str -> Prop :=
| AmountShape (int : str) (d1 d2 : ascii) :
    int <> [] ->
    Forall (fun c => is_digit c || ascii_eqb c "," = true) int ->
    is_digit d1 = true -> is_digit d2 = true ->
    amount_shape (int ++ lit "." ++ [d1; d2]).

(** The sign bit of a number. *)
Definition negative (x : number) : bool :=
  match x with
  | S754_zero s | S754_infinity s | S754_finite s _ _ => s
  | S754_nan => false
  end.

(** Whether a text starts with a minus sign. *)
Definition minus_first (s : str) : bool :=
  match s with c :: _ => ascii_eqb c "-" | [] => false end.

(** A number that is neither NaN nor negative: zero, a positive finite
    number or Infinity. *)
Definition not_negative (x : number) : Prop := isNaN x = false /\ negative x = false.

(** *** Descriptions *)

(** [collapse s]: every run of white space of [s] replaced by one space;
    [in_run] tells that the unit before was white space. *)
Fixpoint collapse_from (in_run : bool) (s : str) : str :=
  match s with
  | [] => []
  | c :: s' =>
      if is_space c
      then (if in_run then collapse_from true s' else " "%char :: collapse_from true s')
      else c :: collapse_from false s'
  end.

Definition collapse (s : str) : str := collapse_from false s.

(** [single_gaps s]: every white-space unit of [s] is a space, and the unit
    after it, if there is one, is not white space. *)
Fixpoint single_gaps (s : str) : bool :=
  match s with
  | [] => true
  | c :: s' =>
      (if is_space c
       then ascii_eqb c " " && match s' with d :: _ => negb (is_space d) | [] => true end
       else true)
      && single_gaps s'
  end.

(** The units of a text that are not white space. *)
Definition visible_units (s : str) : str :=
  List.filter (fun c => negb (is_space c)) s.

(** [/^\s+|\s+$/], the second pattern of [cleanDescription]. *)
Definition blank_ends : regex := Alt (Seq Bol (plus space)) (Seq (plus space) Eol).

(** *** Lines *)

(** A text without line feed. *)
Definition one_line (s : str) : Prop := Forall (fun c => ascii_eqb nl c = false) s.

(** A transaction whose date, payee and memo are texts without line
    feed. *)
Definition on_one_line_each (tx : Transaction) : Prop :=
  one_line (date tx) /\ one_line (payee tx) /\ one_line (memo tx).

(** *** Sample inputs *)

Definition coffee_shop_statement : str :=
  text_lines
    [ lit "Account Number: 123";
      lit "Posting Date,Value Date,Ref,Description,Debit,Credit";
      lit "01/02/2024,01/02/2024,R1," +.+ quoted "Coffee Shop" +.+ ",15.00,0" ].

Definition negative_credit_statement : str :=
  text_lines
    [ lit "Account Number: 123";
      lit "Posting Date,Value Date,Ref,Description,Debit,Credit";
      lit "01/02/2024,01/02/2024,R1,Reversal,0,-5.00" ].

Definition corrupt_pdf : File :=
  {| name := "statement.pdf";
     text_of := Resolved [];
     pdf := Rejected "Invalid PDF structure." |}.

Definition text_report : File :=
  {| name := "report.txt"; text_of := Resolved (lit "hello"); pdf := Rejected "Invalid PDF structure." |}.

Definition three_fragments : list TextItem :=
  [ {| item_str := "a"; item_x := 0; item_y := 100 |};
    {| item_str := "b"; item_x := 0; item_y := 97 |};
    {| item_str := "c"; item_x := 0; item_y := 94 |} ].

Definition two_at_one_place : list TextItem :=
  [ {| item_str := "A"; item_x := 0; item_y := 100 |};
    {| item_str := "B"; item_x := 0; item_y := 100 |} ].

Definition table_row : list TextItem :=
  [ {| item_str := "24 Jan 2026"; item_x := 10; item_y := 700.2 |};
    {| item_str := "3341.06 Cr"; item_x := 400; item_y := 699.8 |};
    {| item_str := "IPP transfer"; item_x := 90; item_y := 700 |};
    {| item_str := "note"; item_x := 90; item_y := 690 |} ].

Definition card_payment_row : str :=
  "24 Jan 2026        CC NO.-4033********7337 RMA REF NO.-                 -38564.24                                     3341.06 Cr".


(** * Properties *)

(** ** The line tokenizer *)

Lemma mentions_app c s t : mentions c (s ++ t) = mentions c s || mentions c t.
Proof. apply existsb_app. Qed.

Lemma mentions_rev c s : mentions c (rev s) = mentions c s.
Proof.
  induction s as [|x s IH]; [done|].
  change (rev (x :: s)) with (List.rev s ++ [x]).
  rewrite mentions_app. simpl. rewrite orb_false_r.
  change (List.rev s) with (rev s). rewrite IH. apply orb_comm.
Qed.

Lemma trimStart_suffix s : exists p, s = p ++ trimStart s.
Proof.
  induction s as [|c s [p IH]]; [by exists []|]. simpl.
  destruct (is_space c); [exists (c :: p); simpl; by rewrite <- IH|by exists []].
Qed.

Lemma trimStart_clean s : starts_clean (trimStart s).
Proof.
  induction s as [|c s IH]; [done|]. simpl.
  by destruct (is_space c) eqn:E.
Qed.

Lemma trimStart_id s : starts_clean s -> trimStart s = s.
Proof. destruct s as [|c s]; [done|]. simpl. by intros ->. Qed.

Lemma trimStart_keeps c l r :
  is_space c = false -> exists l', trimStart (l ++ c :: r) = l' ++ c :: r.
Proof.
  intros Hc. induction l as [|x l [l' IH]]; simpl.
  - exists []. by rewrite Hc.
  - destruct (is_space x); [by exists l'|by exists (x :: l)].
Qed.

Lemma trimEnd_keeps_start s : starts_clean s -> starts_clean (trimEnd s).
Proof.
  destruct s as [|c s]; [done|]. simpl. intros Hc. unfold trimEnd.
  change (rev (c :: s)) with (List.rev s ++ [c]).
  destruct (trimStart_keeps c (List.rev s) [] Hc) as [l' ->].
  change (rev (l' ++ [c])) with (List.rev (l' ++ [c])).
  rewrite rev_app_distr. by simpl.
Qed.

Lemma trim_idempotent s : trim (trim s) = trim s.
Proof.
  unfold trim at 1.
  rewrite trimStart_id.
  - unfold trimEnd, trim, trimEnd.
    change (rev (rev ?x)) with (List.rev (List.rev x)).
    rewrite rev_involutive.
    rewrite (trimStart_id (trimStart _)); [done|apply trimStart_clean].
  - apply trimEnd_keeps_start, trimStart_clean.
Qed.

Lemma mentions_trimStart c s : mentions c s = false -> mentions c (trimStart s) = false.
Proof.
  destruct (trimStart_suffix s) as [p Hp]. rewrite Hp at 1.
  rewrite mentions_app. by intros [_ ?]%orb_false_elim.
Qed.

Lemma mentions_trim c s : mentions c s = false -> mentions c (trim s) = false.
Proof.
  intros H. unfold trim, trimEnd.
  rewrite mentions_rev. apply mentions_trimStart.
  rewrite mentions_rev. by apply mentions_trimStart.
Qed.

(** Inside a quoted span every unit, a comma too, goes to the current
    field. *)
Lemma quoted_span_kept span rest result current :
  mentions dquote span = false ->
  Adcb.parseCSVLine_loop (span ++ rest) result current true
  = Adcb.parseCSVLine_loop rest result (current ++ span) true.
Proof.
  revert current. induction span as [|c span IH]; intros current H.
  - by rewrite app_nil_r.
  - simpl in H. apply orb_false_elim in H as [Hc H].
    assert (Hq : ascii_eqb c dquote = false).
    { unfold ascii_eqb in *. by rewrite Ascii.eqb_sym. }
    cbn [app Adcb.parseCSVLine_loop]. rewrite Hq, andb_false_r, IH by done.
    by rewrite <- app_assoc.
Qed.

(** Two double quotes in a row add nothing to the field and leave the
    quoting state as it was. *)
Lemma doubled_quote_dropped rest result current inQuotes :
  Adcb.parseCSVLine_loop (dquote :: dquote :: rest) result current inQuotes
  = Adcb.parseCSVLine_loop rest result current inQuotes.
Proof. simpl. by rewrite negb_involutive. Qed.

(** The invariant of the loop: the closed fields and the current one hold
    no double quote, and the closed fields are trimmed. *)
Lemma loop_fields line result current inQuotes :
  Forall (fun f => trim f = f /\ mentions dquote f = false) result ->
  mentions dquote current = false ->
  Forall (fun f => trim f = f /\ mentions dquote f = false)
    (Adcb.parseCSVLine_loop line result current inQuotes).
Proof.
  revert result current inQuotes.
  induction line as [|c line IH]; intros result current inQuotes Hres Hcur; simpl.
  - apply Forall_app. split; [done|].
    constructor; [|constructor].
    split; [apply trim_idempotent|by apply mentions_trim].
  - destruct (ascii_eqb c dquote) eqn:Hq; [by apply IH|].
    destruct (ascii_eqb c "," && negb inQuotes).
    + apply IH; [|done]. apply Forall_app. split; [done|].
      constructor; [|constructor].
      split; [apply trim_idempotent|by apply mentions_trim].
    + apply IH; [done|]. rewrite mentions_app, Hcur.
      unfold mentions. cbn [existsb orb]. rewrite orb_false_r.
      unfold ascii_eqb in *. by rewrite Ascii.eqb_sym.
Qed.

(** The claim that a doubled double quote inside a quoted span gives one
    literal quote fails: the quoted span holding [a], two double quotes and
    [b] comes out as the field [ab], without any quote. *)
Lemma tokenizer_doubled_quote_counterexample :
  Adcb.parseCSVLine (quoted (lit "a" ++ [dquote; dquote] ++ lit "b")) = [lit "ab"]
  /\ mentions dquote "ab" = false.
Proof. split; vm_compute; reflexivity. Qed.

(** C6, amended.  For every line the tokenizer returns trimmed fields, none
    of which holds a double quote.  A quoted span goes whole into the
    current field, its commas included; a doubled double quote inside a
    quoted span adds no unit to the field and leaves the span open; after an
    unterminated quote the rest of the line is merged into the last field.
    The tokenizer is a total function: it never raises. *)
Theorem tokenizer_contract (line : str) :
  Forall (fun f => trim f = f /\ mentions dquote f = false) (Adcb.parseCSVLine line)
  /\ (forall (span rest : str) (result : list str) (current : str),
        mentions dquote span = false ->
        Adcb.parseCSVLine_loop (quoted span ++ rest) result current false
        = Adcb.parseCSVLine_loop rest result (current ++ span) false)
  /\ (forall (s1 s2 rest : str) (result : list str) (current : str),
        mentions dquote s1 = false ->
        mentions dquote s2 = false ->
        Adcb.parseCSVLine_loop (quoted (s1 ++ [dquote; dquote] ++ s2) ++ rest)
          result current false
        = Adcb.parseCSVLine_loop rest result (current ++ s1 ++ s2) false)
  /\ (forall (rest : str) (result : list str) (current : str),
        mentions dquote rest = false ->
        Adcb.parseCSVLine_loop (dquote :: rest) result current false
        = result ++ [trim (current ++ rest)]).
Proof.
  split; [by apply loop_fields|].
  split.
  { intros span rest result current H. unfold quoted.
    cbn [app Adcb.parseCSVLine_loop].
    change (ascii_eqb dquote dquote) with true. cbv iota.
    rewrite <- app_assoc, quoted_span_kept by done.
    cbn [app Adcb.parseCSVLine_loop].
    by change (ascii_eqb dquote dquote) with true. }
  split.
  { intros s1 s2 rest result current H1 H2. unfold quoted.
    cbn [app Adcb.parseCSVLine_loop].
    change (ascii_eqb dquote dquote) with true. cbv iota.
    rewrite <- !app_assoc, quoted_span_kept by done.
    cbn [app]. rewrite doubled_quote_dropped.
    rewrite quoted_span_kept by done.
    cbn [app Adcb.parseCSVLine_loop].
    change (ascii_eqb dquote dquote) with true. cbv iota.
    by rewrite <- app_assoc. }
  intros rest result current H.
  cbn [Adcb.parseCSVLine_loop].
  change (ascii_eqb dquote dquote) with true. cbv iota.
  rewrite <- (app_nil_r rest) at 1.
  by rewrite quoted_span_kept.
Qed.

(** The contract on a line with the quoted span [x,y] between the fields
    [a] and [b], on a quoted span with a doubled quote between [x] and [y],
    and on a span [x,y] whose quote is never closed. *)
Lemma tokenizer_contract_witness :
  Adcb.parseCSVLine (lit "a," ++ quoted "x,y" ++ lit ",b") = strs ["a"; "x,y"; "b"]
  /\ Adcb.parseCSVLine_loop (quoted "x,y" ++ lit ",b") [lit "a"] [] false
     = Adcb.parseCSVLine_loop ",b" [lit "a"] "x,y" false
  /\ Adcb.parseCSVLine_loop (quoted (lit "x" ++ [dquote; dquote] ++ lit "y") ++ []) [lit "a"] []
       false
     = [lit "a"; lit "xy"]
  /\ Adcb.parseCSVLine_loop (dquote :: lit "x,y") [lit "a"] [] false = [lit "a"; lit "x,y"].
Proof.
  destruct (tokenizer_contract "a") as (_ & Hspan & Hdouble & Hopen).
  split; [vm_compute; reflexivity|].
  split; [apply (Hspan "x,y" ",b" [lit "a"] []); vm_compute; reflexivity|].
  split.
  - rewrite (Hdouble "x" "y" [] [lit "a"] []); vm_compute; reflexivity.
  - rewrite (Hopen "x,y" [lit "a"] []); vm_compute; reflexivity.
Defined.

(** ** What a pattern matches *)

Section Adequacy.
Context {A : Type}.

Lemma or_else_some (o : option A) f x :
  or_else o f = Some x -> o = Some x \/ (o = None /\ f tt = Some x).
Proof. destruct o; simpl; auto. Qed.

Lemma star_loop_sound (r : regex) g :
  (forall s (k : mstate -> option A) x,
     rx_match r s k = Some x -> exists s', runs r s s' /\ k s' = Some x) ->
  forall fuel s (k : mstate -> option A) x,
    star_loop (rx_match r) g k fuel s = Some x ->
    exists s', runs (Star g r) s s' /\ k s' = Some x.
Proof.
  intros Hbody. induction fuel as [|fuel IH]; intros s k x H; cbn [star_loop] in H.
  - destruct g.
    + simpl in H. exists s. split; auto using runs_star_stop.
    + apply or_else_some in H as [H|[_ H]]; [|discriminate].
      exists s. split; auto using runs_star_stop.
  - assert (Hmore : forall y,
      rx_match r s (fun s1 => if (length (ahead s1) <? length (ahead s))%nat
                              then star_loop (rx_match r) g k fuel s1 else None) = Some y ->
      exists s', runs (Star g r) s s' /\ k s' = Some y).
    { intros y Hy. apply Hbody in Hy as (s1 & Hs1 & Hy).
      destruct (length (ahead s1) <? length (ahead s))%nat eqn:E; [|discriminate].
      apply Nat.ltb_lt in E. apply IH in Hy as (s' & Hs' & Hy).
      exists s'. split; [by eapply runs_star_more|done]. }
    destruct g; apply or_else_some in H as [H|[_ H]]; auto;
      exists s; split; auto using runs_star_stop.
Qed.

(** Whatever the matcher returns comes from a run that the continuation
    accepted. *)
Lemma rx_match_sound (r : regex) :
  forall s (k : mstate -> option A) x,
    rx_match r s k = Some x -> exists s', runs r s s' /\ k s' = Some x.
Proof.
  induction r as [|p|r1 IH1 r2 IH2|r1 IH1 r2 IH2|g r IH|i r IH| | |];
    intros s k x H; simpl in H.
  - exists s. split; [constructor|done].
  - destruct (ahead s) as [|c tl] eqn:E; [discriminate|].
    destruct (p c) eqn:Hp; [|discriminate].
    eexists. split; [by eapply runs_chr|done].
  - apply IH1 in H as (s1 & H1 & H). apply IH2 in H as (s2 & H2 & H).
    exists s2. split; [by econstructor|done].
  - apply or_else_some in H as [H|[_ H]].
    + apply IH1 in H as (s' & H1 & H). exists s'. split; [by apply runs_alt_l|done].
    + apply IH2 in H as (s' & H2 & H). exists s'. split; [by apply runs_alt_r|done].
  - by eapply star_loop_sound.
  - apply IH in H as (s1 & H1 & H). eexists. split; [by apply runs_group|done].
  - destruct (seen s) eqn:E; [|discriminate]. exists s. split; [by constructor|done].
  - destruct (ahead s) eqn:E; [|discriminate]. exists s. split; [by constructor|done].
  - destruct (xorb _ _) eqn:E; [|discriminate]. exists s. split; [by constructor|done].
Qed.

Lemma or_else_is_Some_l (o : option A) f : is_Some o -> is_Some (or_else o f).
Proof. by intros [x ->]. Qed.

Lemma or_else_is_Some_r (o : option A) f : is_Some (f tt) -> is_Some (or_else o f).
Proof. destruct o; simpl; eauto. Qed.

(** A run that the continuation accepts makes the matcher succeed; a
    repetition succeeds with any fuel that covers the units ahead. *)
Lemma rx_match_complete r s s' :
  runs r s s' ->
  forall k : mstate -> option A, is_Some (k s') ->
    is_Some (rx_match r s k)
    /\ (forall g r0, r = Star g r0 -> forall fuel, (length (ahead s) <= fuel)%nat ->
          is_Some (star_loop (rx_match r0) g k fuel s)).
Proof.
  induction 1 as [s|p c tl s E Hp|r1 r2 s s1 s2 H1 IH1 H2 IH2|r1 r2 s s' H IH
                  |r1 r2 s s' H IH|g r s|g r s s1 s2 H1 IH1 Hlt H2 IH2
                  |i r s s1 H IH|s E|s E|s E]; intros k Hk.
  - done.
  - split; [|done]. simpl. by rewrite E, Hp.
  - split; [|done]. simpl. apply IH1. by apply IH2.
  - split; [|done]. simpl. apply or_else_is_Some_l. by apply IH.
  - split; [|done]. simpl. apply or_else_is_Some_r. by apply IH.
  - assert (Hany : forall fuel, is_Some (star_loop (rx_match r) g k fuel s)).
    { intros fuel. destruct fuel; simpl; destruct g;
        auto using or_else_is_Some_l, or_else_is_Some_r. }
    split; [apply Hany|]. intros g' r0 [= <- <-] fuel _. apply Hany.
  - assert (Hany : forall fuel, (length (ahead s) <= fuel)%nat ->
                                is_Some (star_loop (rx_match r) g k fuel s)).
    { intros [|fuel] Hfuel; [lia|]. cbn [star_loop].
      assert (Hagain : is_Some (rx_match r s (fun s1 =>
                if (length (ahead s1) <? length (ahead s))%nat
                then star_loop (rx_match r) g k fuel s1 else None))).
      { apply IH1. apply Nat.ltb_lt in Hlt as Hlt'. rewrite Hlt'.
        apply (IH2 k Hk); [done|lia]. }
      destruct g; auto using or_else_is_Some_l, or_else_is_Some_r. }
    split; [by apply Hany|]. intros g' r0 [= <- <-] fuel Hfuel. by apply Hany.
  - split; [|done]. simpl. by apply IH.
  - split; [|done]. simpl. by rewrite E.
  - split; [|done]. simpl. by rewrite E.
  - split; [|done]. simpl. by rewrite E.
Qed.

End Adequacy.

Lemma step_over_at_index s i c tl :
  skipn i s = c :: tl -> step_over (at_index s i) = Some (at_index s (S i)).
Proof.
  intros E. unfold step_over, at_index. simpl. rewrite E. f_equal. f_equal.
  - assert (H : firstn (S i) s = firstn i s ++ [c]).
    { revert s E. induction i as [|i IH]; intros [|x s] E; simpl in *; try discriminate.
      - by injection E as -> _.
      - by rewrite (IH s E). }
    rewrite H. change (rev (firstn i s ++ [c])) with (List.rev (firstn i s ++ [c])).
    by rewrite rev_app_distr.
  - revert s E. induction i as [|i IH]; intros [|x s] E; simpl in *; try discriminate.
    + by injection E as _ ->.
    + by apply IH.
Qed.

(** The search returns the first index at which the pattern matches. *)
Lemma rx_search_from_spec r s fuel i b e :
  rx_search_from fuel r (at_index s i) = Some (b, e) ->
  exists j, (i <= j)%nat /\ b = at_index s j /\ rx_at r b = Some e
            /\ forall j', (i <= j' < j)%nat -> rx_at r (at_index s j') = None.
Proof.
  revert i. induction fuel as [|fuel IH]; intros i H; simpl in H.
  - destruct (rx_at r (at_index s i)) as [e'|] eqn:E; [|discriminate].
    injection H as <- <-. exists i. repeat split; [lia|done|]. intros; lia.
  - destruct (rx_at r (at_index s i)) as [e'|] eqn:E.
    + injection H as <- <-. exists i. repeat split; [lia|done|]. intros; lia.
    + destruct (skipn i s) as [|c tl] eqn:Es.
      * unfold step_over in H. simpl in H. by rewrite Es in H.
      * rewrite (step_over_at_index s i c tl Es) in H.
        apply IH in H as (j & Hj & -> & He & Hfirst).
        exists j. repeat split; [lia|done|].
        intros j' Hj'. destruct (decide (j' = i)) as [->|Hne]; [done|].
        apply Hfirst. lia.
Qed.

Lemma rx_search_spec r s b e :
  rx_search r (start_state s) = Some (b, e) ->
  exists j, b = at_index s j /\ rx_at r b = Some e
            /\ forall j', (j' < j)%nat -> rx_at r (at_index s j') = None.
Proof.
  intros H. apply (rx_search_from_spec r s _ 0) in H as (j & _ & -> & He & Hfirst).
  exists j. repeat split; [done|]. intros j' Hj'. apply Hfirst. lia.
Qed.

Lemma rx_search_from_complete r s fuel i j :
  (i <= j)%nat -> (j <= i + fuel)%nat -> (j <= length s)%nat ->
  is_Some (rx_at r (at_index s j)) ->
  is_Some (rx_search_from fuel r (at_index s i)).
Proof.
  revert i. induction fuel as [|fuel IH]; intros i Hij Hfuel Hlen [e He]; simpl.
  - replace i with j by lia. by rewrite He.
  - destruct (rx_at r (at_index s i)) as [e'|] eqn:E; [done|].
    destruct (decide (i = j)) as [->|Hne]; [congruence|].
    destruct (skipn i s) as [|c tl] eqn:Es.
    + apply (f_equal length) in Es. rewrite length_skipn in Es. simpl in Es. lia.
    + rewrite (step_over_at_index s i c tl Es). apply IH; [lia|lia|done|by exists e].
Qed.


Lemma rx_search_hit fuel r s e :
  rx_at r s = Some e -> rx_search_from fuel r s = Some (s, e).
Proof. intros H. destruct fuel; simpl; by rewrite H. Qed.

Lemma consumed_prefix (s0 s1 : mstate) (t : str) :
  seen s1 = rev t ++ seen s0 -> consumed s0 s1 = t.
Proof.
  intros H. unfold consumed. rewrite H, length_app, Nat.add_sub.
  rewrite take_app_length. apply rev_involutive.
Qed.

Lemma passes_nil s : passes s [] s.
Proof. by repeat split. Qed.

Lemma passes_app s t1 s1 t2 s2 :
  passes s t1 s1 -> passes s1 t2 s2 -> passes s (t1 ++ t2) s2.
Proof.
  intros (Ha1 & Hs1 & Hc1) (Ha2 & Hs2 & Hc2). repeat split.
  - by rewrite Ha1, Ha2, app_assoc.
  - rewrite Hs2, Hs1. change (rev (t1 ++ t2)) with (List.rev (t1 ++ t2)).
    by rewrite rev_app_distr, app_assoc.
  - congruence.
Qed.

Lemma runs_seq_inv r1 r2 s s2 :
  runs (Seq r1 r2) s s2 -> exists s1, runs r1 s s1 /\ runs r2 s1 s2.
Proof. inversion 1; eauto. Qed.

Lemma runs_alt_inv r1 r2 s s' :
  runs (Alt r1 r2) s s' -> runs r1 s s' \/ runs r2 s s'.
Proof. inversion 1; eauto. Qed.

Lemma runs_eps_inv s s' : runs Eps s s' -> s' = s.
Proof. by inversion 1. Qed.

Lemma runs_chr_inv p s s' :
  runs (Chr p) s s' -> exists c, p c = true /\ passes s [c] s'.
Proof.
  inversion 1 as [|? c tl ? E Hp| | | | | | | | |]; subst.
  exists c. by repeat split.
Qed.

(** A capture group records the text it passed over. *)
Lemma runs_group_inv i r s s2 :
  runs (Group i r) s s2 ->
  exists s1, runs r s s1 /\ seen s2 = seen s1 /\ ahead s2 = ahead s1
             /\ caps s2 = (i, consumed s s1) :: caps s1.
Proof.
  inversion 1 as [| | | | | | |? ? ? s1 Hr| | |]; subst.
  exists s1. by repeat split.
Qed.

Lemma passes_consumed s t s' : passes s t s' -> consumed s s' = t.
Proof. intros (_ & Hs & _). by apply consumed_prefix. Qed.

(** A repetition of a class passes over units of the class. *)
Lemma runs_star_chr g p s s' :
  runs (Star g (Chr p)) s s' ->
  exists ws, Forall (fun c => p c = true) ws /\ passes s ws s'.
Proof.
  intros H. remember (Star g (Chr p)) as r eqn:Hr.
  induction H as [| | | | |g' r' s|g' r' s s1 s2 H1 _ Hlt H2 IH| | | |]; try discriminate.
  - exists []. split; [constructor|apply passes_nil].
  - injection Hr as -> ->. destruct (IH eq_refl) as (ws & Hws & Hpass).
    apply runs_chr_inv in H1 as (c & Hc & Hpc).
    exists ([c] ++ ws). split; [by constructor|by eapply passes_app].
Qed.

Lemma runs_plus_chr p s s' :
  runs (plus (Chr p)) s s' ->
  exists ws, ws <> [] /\ Forall (fun c => p c = true) ws /\ passes s ws s'.
Proof.
  intros (s1 & (c & Hc & Hpc)%runs_chr_inv & (ws & Hws & Hpass)%runs_star_chr)%runs_seq_inv.
  exists ([c] ++ ws). split; [done|]. split; [by constructor|by eapply passes_app].
Qed.

Lemma runs_times_chr n p s s' :
  runs (times n (Chr p)) s s' ->
  exists t, length t = n /\ Forall (fun c => p c = true) t /\ passes s t s'.
Proof.
  revert s. induction n as [|[|n] IH]; intros s H.
  - apply runs_eps_inv in H as ->. exists []. split; [done|]. split; [constructor|apply passes_nil].
  - apply runs_chr_inv in H as (c & Hc & Hpc).
    exists [c]. split; [done|]. split; [by repeat constructor|done].
  - change (times (S (S n)) (Chr p)) with (Seq (Chr p) (times (S n) (Chr p))) in H.
    apply runs_seq_inv in H as (s1 & (c & Hc & Hpc)%runs_chr_inv & H).
    apply IH in H as (t & Hlen & Ht & Hpt).
    exists ([c] ++ t). split; [simpl; by rewrite Hlen|].
    split; [by constructor|by eapply passes_app].
Qed.

Lemma runs_opt_chr p s s' :
  runs (opt (Chr p)) s s' ->
  exists t, (length t <= 1)%nat /\ Forall (fun c => p c = true) t /\ passes s t s'.
Proof.
  intros [(c & Hc & Hpc)%runs_chr_inv| ->%runs_eps_inv]%runs_alt_inv.
  - exists [c]. split; [done|]. split; [by repeat constructor|done].
  - exists []. split; [simpl; lia|]. split; [constructor|apply passes_nil].
Qed.

Lemma accepts_chr (p : ascii -> bool) c : p c = true -> accepts (Chr p) [c].
Proof.
  intros Hp s rest Ha. eexists. split; [by eapply runs_chr|done].
Qed.

Lemma accepts_seq r1 r2 t1 t2 :
  accepts r1 t1 -> accepts r2 t2 -> accepts (Seq r1 r2) (t1 ++ t2).
Proof.
  intros H1 H2 s rest Ha. rewrite <- app_assoc in Ha.
  destruct (H1 s _ Ha) as (s1 & R1 & Ha1).
  destruct (H2 s1 _ Ha1) as (s2 & R2 & Ha2).
  exists s2. split; [by econstructor|done].
Qed.

Lemma accepts_alt_l r1 r2 t : accepts r1 t -> accepts (Alt r1 r2) t.
Proof.
  intros H s rest Ha. destruct (H s rest Ha) as (s' & R & Ha').
  exists s'. split; [by apply runs_alt_l|done].
Qed.

Lemma accepts_alt_r r1 r2 t : accepts r2 t -> accepts (Alt r1 r2) t.
Proof.
  intros H s rest Ha. destruct (H s rest Ha) as (s' & R & Ha').
  exists s'. split; [by apply runs_alt_r|done].
Qed.

Lemma accepts_group i r t : accepts r t -> accepts (Group i r) t.
Proof.
  intros H s rest Ha. destruct (H s rest Ha) as (s' & R & Ha').
  exists (set_cap i s s'). split; [by constructor|done].
Qed.

Lemma accepts_star_chr g (p : ascii -> bool) ws :
  Forall (fun c => p c = true) ws -> accepts (Star g (Chr p)) ws.
Proof.
  induction 1 as [|c ws Hc Hws IH]; intros s rest Ha.
  - exists s. split; [constructor|done].
  - destruct (accepts_chr p c Hc s (ws ++ rest) Ha) as (s1 & R1 & Ha1).
    destruct (IH s1 rest Ha1) as (s2 & R2 & Ha2).
    exists s2. split; [|done].
    eapply runs_star_more; [exact R1| |exact R2].
    rewrite Ha1, Ha. simpl. lia.
Qed.

Lemma accepts_plus_chr (p : ascii -> bool) ws :
  ws <> [] -> Forall (fun c => p c = true) ws -> accepts (plus (Chr p)) ws.
Proof.
  intros Hne Hws. destruct ws as [|c ws]; [done|].
  apply Forall_cons in Hws as [Hc Hws].
  apply (accepts_seq _ _ [c] ws); [by apply accepts_chr|by apply accepts_star_chr].
Qed.

Lemma accepts_end_eol : accepts_end Eol [].
Proof. intros s Ha. exists s. by constructor. Qed.

Lemma accepts_end_seq r1 r2 t1 t2 :
  accepts r1 t1 -> accepts_end r2 t2 -> accepts_end (Seq r1 r2) (t1 ++ t2).
Proof.
  intros H1 H2 s Ha.
  destruct (H1 s _ Ha) as (s1 & R1 & Ha1).
  destruct (H2 s1 Ha1) as (s2 & R2).
  exists s2. by econstructor.
Qed.


Lemma accepts_eps : accepts Eps [].
Proof. intros s rest Ha. exists s. split; [constructor|done]. Qed.

Lemma accepts_times_chr (p : ascii -> bool) t :
  Forall (fun c => p c = true) t -> accepts (times (length t) (Chr p)) t.
Proof.
  induction 1 as [|c t Hc Ht IH]; [apply accepts_eps|].
  destruct t as [|c' t']; [by apply accepts_chr|].
  change (times (length (c :: c' :: t')) (Chr p))
    with (Seq (Chr p) (times (length (c' :: t')) (Chr p))).
  apply (accepts_seq _ _ [c] (c' :: t')); [by apply accepts_chr|done].
Qed.

(** ** Date normalisation *)

Lemma ascii_eqb_sym a b : ascii_eqb a b = ascii_eqb b a.
Proof. apply Ascii.eqb_sym. Qed.

Lemma split_aux_piece sep cur a :
  mentions sep a = false -> split_aux sep cur a = [rev cur ++ a].
Proof.
  revert cur. induction a as [|c a IH]; intros cur H; simpl.
  - by rewrite app_nil_r.
  - simpl in H. apply orb_false_elim in H as [Hc H].
    rewrite ascii_eqb_sym, Hc, IH by done. simpl.
    by rewrite <- app_assoc.
Qed.

Lemma split_aux_app sep cur a b :
  mentions sep a = false ->
  split_aux sep cur (a ++ sep :: b) = (rev cur ++ a) :: split_aux sep [] b.
Proof.
  revert cur. induction a as [|c a IH]; intros cur H; simpl.
  - unfold ascii_eqb. by rewrite Ascii.eqb_refl, app_nil_r.
  - simpl in H. apply orb_false_elim in H as [Hc H].
    rewrite ascii_eqb_sym, Hc, IH by done. simpl.
    by rewrite <- app_assoc.
Qed.

Lemma split_aux_length sep cur s :
  length (split_aux sep cur s) = S (occurrences sep s).
Proof.
  revert cur. induction s as [|c s IH]; intros cur; [done|].
  unfold occurrences in *. simpl. rewrite (ascii_eqb_sym sep c).
  destruct (ascii_eqb c sep); simpl; by rewrite IH.
Qed.

(** A text with three parts between two slashes is rewritten, whatever the
    parts are. *)
Lemma parseDDMMYYYY_parts (dd mm yyyy : str) :
  mentions "/" dd = false -> mentions "/" mm = false -> mentions "/" yyyy = false ->
  Adcb.parseDDMMYYYY (dd ++ lit "/" ++ mm ++ lit "/" ++ yyyy)
  = yyyy ++ lit "-" ++ padStart 2 "0" mm ++ lit "-" ++ padStart 2 "0" dd.
Proof.
  intros Hd Hm Hy. unfold Adcb.parseDDMMYYYY, split.
  change (lit "/" ++ mm ++ lit "/" ++ yyyy) with ("/"%char :: mm ++ "/"%char :: yyyy).
  rewrite split_aux_app by done.
  rewrite split_aux_app by done.
  rewrite split_aux_piece by done.
  done.
Qed.

(** Without exactly two slashes the text is returned as it is. *)
Lemma parseDDMMYYYY_unchanged (s : str) :
  occurrences "/" s <> 2%nat -> Adcb.parseDDMMYYYY s = s.
Proof.
  intros H. unfold Adcb.parseDDMMYYYY.
  pose proof (split_aux_length "/" [] s) as Hlen. fold (split "/" s) in Hlen.
  destruct (split "/" s) as [|a [|b [|c [|d l]]]]; try done.
  simpl in Hlen. congruence.
Qed.

Lemma parseDDMMYYYY_same : Enbd.parseDDMMYYYY = Adcb.parseDDMMYYYY.
Proof. reflexivity. Qed.

Lemma digit_not_slash c : is_digit c = true -> ascii_eqb "/" c = false.
Proof.
  destruct c as [[] [] [] [] [] [] [] []]; try discriminate; reflexivity.
Qed.

(** A strict DD/MM/YYYY text becomes YYYY-MM-DD. *)
Lemma parseDDMMYYYY_strict d1 d2 m1 m2 y1 y2 y3 y4 :
  Forall (fun c => is_digit c = true) [d1; d2; m1; m2; y1; y2; y3; y4] ->
  Adcb.parseDDMMYYYY ([d1; d2] ++ lit "/" ++ [m1; m2] ++ lit "/" ++ [y1; y2; y3; y4])
  = [y1; y2; y3; y4] ++ lit "-" ++ [m1; m2] ++ lit "-" ++ [d1; d2].
Proof.
  intros H. repeat (apply Forall_cons in H as [?%digit_not_slash H]).
  rewrite parseDDMMYYYY_parts; [done| | |]; unfold mentions; cbn [existsb];
    repeat match goal with E : ascii_eqb _ _ = false |- _ => rewrite E; clear E end; done.
Qed.

Lemma str_eqb_eq a b : str_eqb a b = true -> a = b.
Proof.
  revert b. induction a as [|x a IH]; intros [|y b]; simpl; try done.
  intros [Hx H]%andb_prop. apply Ascii.eqb_eq in Hx. by rewrite Hx, (IH b H).
Qed.

Lemma months_get_In table key v :
  Enbd.months_get table key = Some v -> In (key, v) table.
Proof.
  induction table as [|[k w] table IH]; simpl; [done|].
  destruct (str_eqb key k) eqn:E.
  - intros [= ->]. left. by rewrite (str_eqb_eq _ _ E).
  - auto.
Qed.

Lemma lower_char_word c : is_lower (lower_char c) = true -> is_word c = true.
Proof. destruct c as [[] [] [] [] [] [] [] []]; vm_compute; done. Qed.

Lemma word_not_space c : is_word c = true -> is_space c = false.
Proof. destruct c as [[] [] [] [] [] [] [] []]; vm_compute; done. Qed.

Lemma digit_not_space c : is_digit c = true -> is_space c = false.
Proof. destruct c as [[] [] [] [] [] [] [] []]; vm_compute; done. Qed.

(** The words of the table of months are made of letters. *)
Lemma month_is_word (mon : str) (mm : str) :
  Enbd.months_get Enbd.months (toLowerCase mon) = Some mm ->
  Forall (fun c => is_word c = true) mon.
Proof.
  intros H%months_get_In.
  assert (Hlow : Forall (fun c => is_lower c = true) (toLowerCase mon)).
  { revert H. generalize (toLowerCase mon). intros key H.
    repeat (destruct H as [[= <- _]|H]; [by repeat constructor|]). done. }
  unfold toLowerCase in Hlow. apply Forall_forall. intros c Hc.
  rewrite Forall_forall in Hlow. apply lower_char_word, Hlow.
  by apply (list_elem_of_fmap_2 lower_char).
Qed.

Lemma runs_month_date b e :
  runs Enbd.month_date b e ->
  exists day ws1 mon ws2 year,
    month_date_shape day ws1 mon ws2 year
    /\ ahead b = day ++ ws1 ++ mon ++ ws2 ++ year ++ ahead e
    /\ get_cap 1 (caps e) = Some day
    /\ get_cap 2 (caps e) = Some mon
    /\ get_cap 3 (caps e) = Some year.
Proof.
  intros H. unfold Enbd.month_date in H. cbn [seqs] in H.
  apply runs_seq_inv in H as (s1 & G1 & H).
  apply runs_seq_inv in H as (s2 & W1 & H).
  apply runs_seq_inv in H as (s3 & G2 & H).
  apply runs_seq_inv in H as (s4 & W2 & G3).
  apply runs_group_inv in G1 as (s1' & Hday & Hs1 & Ha1 & Hc1).
  apply runs_seq_inv in Hday as (sd & (d1 & Hd1 & Pd1)%runs_chr_inv
                                    & (d2 & Hlen2 & Hd2 & Pd2)%runs_opt_chr).
  pose proof (passes_app _ _ _ _ _ Pd1 Pd2) as Pday.
  apply runs_plus_chr in W1 as (ws1 & Hne1 & Hws1 & (Pa1 & Ps1 & Pc1)).
  apply runs_group_inv in G2 as (s3' & Hmon & Hs3 & Ha3 & Hc3).
  apply runs_times_chr in Hmon as (mon & Hlmon & Hmon & Pmon).
  apply runs_plus_chr in W2 as (ws2 & Hne2 & Hws2 & (Pa2 & Ps2 & Pc2)).
  apply runs_group_inv in G3 as (e' & Hyear & Hse & Hae & Hce).
  apply runs_times_chr in Hyear as (year & Hlyear & Hyear & Pyear).
  rewrite (passes_consumed _ _ _ Pday) in Hc1.
  rewrite (passes_consumed _ _ _ Pmon) in Hc3.
  rewrite (passes_consumed _ _ _ Pyear) in Hce.
  destruct Pday as (Pa & _ & Pc), Pmon as (Ma & _ & Mc), Pyear as (Ya & _ & Yc).
  exists ([d1] ++ d2), ws1, mon, ws2, year.
  split; [|split; [|split; [|split]]].
  - split; try done.
    + simpl. destruct d2 as [|? [|? ?]]; simpl in *; auto; lia.
    + by constructor.
  - rewrite Pa, <- Ha1, Pa1, Ma, <- Ha3, Pa2, Ya, <- Hae.
    by rewrite <- !app_assoc.
  - by rewrite Hce, Yc, Pc2, Hc3, Mc, Pc1, Hc1.
  - by rewrite Hce, Yc, Pc2, Hc3.
  - by rewrite Hce.
Qed.

(** A run of a class that is followed by a unit outside the class is
    determined by the text. *)
Lemma run_unique (p : ascii -> bool) (a a' b b' : str) :
  Forall (fun c => p c = true) a -> Forall (fun c => p c = true) a' ->
  (exists c t, b = c :: t /\ p c = false) ->
  (exists c t, b' = c :: t /\ p c = false) ->
  a ++ b = a' ++ b' -> a = a' /\ b = b'.
Proof.
  intros Ha. revert a'. induction Ha as [|x a Hx Ha IH]; intros a' Ha' Hb Hb' E.
  - destruct Ha' as [|x' a' Hx' Ha']; [done|].
    destruct Hb as (c & t & -> & Hc). simpl in E. injection E as -> _. congruence.
  - destruct Ha' as [|x' a' Hx' Ha'].
    + destruct Hb' as (c & t & -> & Hc). simpl in E. injection E as -> _. congruence.
    + simpl in E. injection E as -> E.
      destruct (IH a' Ha' Hb Hb' E) as [-> ->]. done.
Qed.

Lemma length_unique (a a' b b' : str) :
  length a = length a' -> a ++ b = a' ++ b' -> a = a' /\ b = b'.
Proof. intros Hlen E. by apply app_inj_1. Qed.

Lemma month_date_shape_unique day ws1 mon ws2 year post day' ws1' mon' ws2' year' post' :
  month_date_shape day ws1 mon ws2 year ->
  month_date_shape day' ws1' mon' ws2' year' ->
  day ++ ws1 ++ mon ++ ws2 ++ year ++ post
  = day' ++ ws1' ++ mon' ++ ws2' ++ year' ++ post' ->
  day = day' /\ mon = mon' /\ year = year'.
Proof.
  intros [Hdl Hd [Hn1 Hw1] Hml Hm [Hn2 Hw2] Hyl Hy] [Hdl' Hd' [Hn1' Hw1'] Hml' Hm' [Hn2' Hw2'] Hyl' Hy'] E.
  assert (Hfirst : forall (p q : ascii -> bool) (a t : str),
            (forall c, q c = true -> p c = false) ->
            a <> [] -> Forall (fun c => q c = true) a ->
            exists c u, a ++ t = c :: u /\ p c = false).
  { intros p q [|c a] t Hpq Hne Ha; [done|].
    apply Forall_cons in Ha as [Hc _]. exists c, (a ++ t). split; [done|auto]. }
  assert (Hds : forall c, is_space c = true -> is_digit c = false).
  { intros c Hc. destruct (is_digit c) eqn:Ed; [|done].
    apply digit_not_space in Ed. congruence. }
  assert (Hws : forall c, is_word c = true -> is_space c = false)
    by apply word_not_space.
  assert (Hdg : forall c, is_digit c = true -> is_space c = false)
    by apply digit_not_space.
  assert (Hmne : forall m : str, length m = 3%nat -> m <> []) by (by intros [|? ?]).
  assert (Hyne : forall y : str, length y = 4%nat -> y <> []) by (by intros [|? ?]).
  destruct (run_unique is_digit day day' _ _ Hd Hd'
              (Hfirst is_digit is_space ws1 _ Hds Hn1 Hw1)
              (Hfirst is_digit is_space ws1' _ Hds Hn1' Hw1') E) as [-> E1].
  destruct (run_unique is_space ws1 ws1' _ _ Hw1 Hw1'
              (Hfirst is_space is_word mon _ Hws (Hmne _ Hml) Hm)
              (Hfirst is_space is_word mon' _ Hws (Hmne _ Hml') Hm') E1) as [-> E2].
  destruct (length_unique mon mon' _ _ ltac:(congruence) E2) as [-> E3].
  destruct (run_unique is_space ws2 ws2' _ _ Hw2 Hw2'
              (Hfirst is_space is_digit year _ Hdg (Hyne _ Hyl) Hy)
              (Hfirst is_space is_digit year' _ Hdg (Hyne _ Hyl') Hy') E3) as [-> E4].
  by destruct (length_unique year year' _ _ ltac:(congruence) E4) as [-> _].
Qed.

Lemma accepts_month_date day ws1 mon ws2 year :
  month_date_shape day ws1 mon ws2 year ->
  accepts Enbd.month_date (day ++ ws1 ++ mon ++ ws2 ++ year).
Proof.
  intros [Hdl Hd [Hn1 Hw1] Hml Hm [Hn2 Hw2] Hyl Hy].
  unfold Enbd.month_date. cbn [seqs].
  apply accepts_seq; [|apply accepts_seq; [|apply accepts_seq; [|apply accepts_seq]]].
  - apply accepts_group.
    destruct day as [|d1 [|d2 [|? ?]]]; simpl in Hdl; try lia.
    + apply Forall_cons in Hd as [Hd1 _].
      apply (accepts_seq _ _ [d1] []); [by apply accepts_chr|].
      apply accepts_alt_r, accepts_eps.
    + apply Forall_cons in Hd as [Hd1 Hd]. apply Forall_cons in Hd as [Hd2 _].
      apply (accepts_seq _ _ [d1] [d2]); [by apply accepts_chr|].
      by apply accepts_alt_l, accepts_chr.
  - by apply accepts_plus_chr.
  - apply accepts_group. rewrite <- Hml. by apply accepts_times_chr.
  - by apply accepts_plus_chr.
  - apply accepts_group. rewrite <- Hyl. by apply accepts_times_chr.
Qed.

(** A text that starts with D Mon YYYY, with any white space between the
    parts, becomes YYYY-MM-DD. *)
Lemma parseMonthDate_spaced (day ws1 mon ws2 year post mm : str) :
  month_date_shape day ws1 mon ws2 year ->
  Enbd.months_get Enbd.months (toLowerCase mon) = Some mm ->
  Enbd.parseMonthDate (day ++ ws1 ++ mon ++ ws2 ++ year ++ post)
  = year ++ lit "-" ++ mm ++ lit "-" ++ padStart 2 "0" day.
Proof.
  intros Hshape Hmm.
  set (s := day ++ ws1 ++ mon ++ ws2 ++ year ++ post).
  destruct (accepts_month_date _ _ _ _ _ Hshape (start_state s) post) as (e0 & R0 & _).
  { unfold s. simpl. by rewrite <- !app_assoc. }
  destruct (rx_match_complete _ _ _ R0 Some (ltac:(eauto) : is_Some (Some e0)))
    as [[e He] _].
  unfold Enbd.parseMonthDate, rx_exec, rx_search.
  rewrite (rx_search_hit _ _ _ e He).
  apply rx_match_sound in He as (e' & R & [= ->]).
  apply runs_month_date in R as (day' & ws1' & mon' & ws2' & year' & Hshape' & Ha & C1 & C2 & C3).
  simpl in Ha. unfold s in Ha.
  destruct (month_date_shape_unique _ _ _ _ _ _ _ _ _ _ _ _ Hshape Hshape' Ha)
    as (<- & <- & <-).
  unfold group_str, group, result_of. cbn [rx_caps].
  by rewrite C1, C2, C3, Hmm.
Qed.

(** A text of the shape D Mon YYYY becomes YYYY-MM-DD. *)
Lemma parseMonthDate_shape (day mon year mm : str) :
  (length day = 1 \/ length day = 2)%nat ->
  Forall (fun c => is_digit c = true) day ->
  length mon = 3%nat ->
  Enbd.months_get Enbd.months (toLowerCase mon) = Some mm ->
  length year = 4%nat ->
  Forall (fun c => is_digit c = true) year ->
  Enbd.parseMonthDate (day ++ lit " " ++ mon ++ lit " " ++ year)
  = year ++ lit "-" ++ mm ++ lit "-" ++ padStart 2 "0" day.
Proof.
  intros Hday Hd Hmon Hmm Hyear Hy.
  replace (day ++ lit " " ++ mon ++ lit " " ++ year)
    with (day ++ lit " " ++ mon ++ lit " " ++ year ++ []) by (by rewrite app_nil_r).
  apply parseMonthDate_spaced; [|done].
  split; try done.
  - split; [done|by repeat constructor].
  - by eapply month_is_word.
  - split; [done|by repeat constructor].
Qed.

(** When [parseMonthDate] changes a text, the text holds an occurrence of
    the shape with a month of the table, and the result is the date of that
    occurrence. *)
Lemma parseMonthDate_changed (s : str) :
  Enbd.parseMonthDate s <> s ->
  exists pre day ws1 mon ws2 year post mm,
    s = pre ++ day ++ ws1 ++ mon ++ ws2 ++ year ++ post
    /\ month_date_shape day ws1 mon ws2 year
    /\ Enbd.months_get Enbd.months (toLowerCase mon) = Some mm
    /\ Enbd.parseMonthDate s = year ++ lit "-" ++ mm ++ lit "-" ++ padStart 2 "0" day.
Proof.
  unfold Enbd.parseMonthDate, rx_exec.
  destruct (rx_search Enbd.month_date (start_state s)) as [[b e]|] eqn:Hsearch; [|done].
  apply rx_search_spec in Hsearch as (j & -> & He & _).
  apply rx_match_sound in He as (e' & Hruns & [= ->]).
  apply runs_month_date in Hruns as (day & ws1 & mon & ws2 & year & Hshape & Ha & C1 & C2 & C3).
  unfold group_str, group, result_of. cbn [rx_caps]. rewrite C1, C2, C3.
  destruct (Enbd.months_get Enbd.months (toLowerCase mon)) as [mm|] eqn:Hmm; [|done].
  intros _. exists (firstn j s), day, ws1, mon, ws2, year, (ahead e), mm.
  split; [|done].
  simpl in Ha. by rewrite <- Ha, take_drop.
Qed.

(** The claim that a text that has not the expected shape is returned as it
    is fails for both normalisers: [1/2/2024] is not zero-padded and is
    rewritten, and a text that holds a date among other words is replaced
    by the date. *)
Lemma date_shape_counterexample :
  (rx_test Adcb.date_only "1/2/2024" = false
   /\ Adcb.parseDDMMYYYY "1/2/2024" = "2024-02-01"
   /\ Adcb.parseDDMMYYYY "1/2/2024" <> "1/2/2024")
  /\ (rx_test (seqs [Bol; Enbd.month_date; Eol]) "due 5 Jan 2024 at noon" = false
      /\ Enbd.parseMonthDate "due 5 Jan 2024 at noon" = "2024-01-05"
      /\ Enbd.parseMonthDate "due 5 Jan 2024 at noon" <> "due 5 Jan 2024 at noon").
Proof. repeat split; vm_compute; (reflexivity || discriminate). Qed.

(** C7, amended.  [parseDDMMYYYY] maps a strict DD/MM/YYYY text to
    YYYY-MM-DD; it rewrites every text with three parts between two slashes,
    padding day and month, and returns every text that has not exactly two
    slashes as it is.  [parseMonthDate] maps a text that starts with
    D Mon YYYY, with a month of the table in any case and white space
    between the parts, to YYYY-MM-DD; a text that it changes holds an
    occurrence of that shape, so a text without one is returned as it is.
    Both are total functions: they never raise. *)
Theorem date_normalizers :
  (forall d1 d2 m1 m2 y1 y2 y3 y4,
     Forall (fun c => is_digit c = true) [d1; d2; m1; m2; y1; y2; y3; y4] ->
     Adcb.parseDDMMYYYY ([d1; d2] ++ lit "/" ++ [m1; m2] ++ lit "/" ++ [y1; y2; y3; y4])
     = [y1; y2; y3; y4] ++ lit "-" ++ [m1; m2] ++ lit "-" ++ [d1; d2])
  /\ (forall dd mm yyyy : str,
        mentions "/" dd = false -> mentions "/" mm = false -> mentions "/" yyyy = false ->
        Adcb.parseDDMMYYYY (dd ++ lit "/" ++ mm ++ lit "/" ++ yyyy)
        = yyyy ++ lit "-" ++ padStart 2 "0" mm ++ lit "-" ++ padStart 2 "0" dd)
  /\ (forall s : str, occurrences "/" s <> 2%nat -> Adcb.parseDDMMYYYY s = s)
  /\ Enbd.parseDDMMYYYY = Adcb.parseDDMMYYYY
  /\ (forall day ws1 mon ws2 year post mm : str,
        month_date_shape day ws1 mon ws2 year ->
        Enbd.months_get Enbd.months (toLowerCase mon) = Some mm ->
        Enbd.parseMonthDate (day ++ ws1 ++ mon ++ ws2 ++ year ++ post)
        = year ++ lit "-" ++ mm ++ lit "-" ++ padStart 2 "0" day)
  /\ (forall s : str,
        Enbd.parseMonthDate s <> s ->
        exists pre day ws1 mon ws2 year post mm,
          s = pre ++ day ++ ws1 ++ mon ++ ws2 ++ year ++ post
          /\ month_date_shape day ws1 mon ws2 year
          /\ Enbd.months_get Enbd.months (toLowerCase mon) = Some mm
          /\ Enbd.parseMonthDate s
             = year ++ lit "-" ++ mm ++ lit "-" ++ padStart 2 "0" day).
Proof.
  split; [exact parseDDMMYYYY_strict|].
  split; [exact parseDDMMYYYY_parts|].
  split; [exact parseDDMMYYYY_unchanged|].
  split; [exact parseDDMMYYYY_same|].
  split; [exact parseMonthDate_spaced|].
  exact parseMonthDate_changed.
Qed.

(** The normalisers on [01/02/2024], [2024-02-01] and [24 jAN 2026]. *)
Lemma date_normalizers_witness :
  Adcb.parseDDMMYYYY "01/02/2024" = "2024-02-01"
  /\ Adcb.parseDDMMYYYY "2024-02-01" = "2024-02-01"
  /\ Enbd.parseMonthDate "24 jAN 2026" = "2026-01-24".
Proof.
  destruct date_normalizers as (Hstrict & _ & Hkeep & _ & Hspaced & _).
  split.
  { apply (Hstrict "0" "1" "0" "2" "2" "0" "2" "4")%char.
    repeat constructor. }
  split.
  { apply (Hkeep "2024-02-01"). vm_compute. discriminate. }
  apply (Hspaced "24" " " "jAN" " " "2026" "" "01"); [|vm_compute; reflexivity].
  split; try (by repeat constructor); reflexivity.
Defined.

(** ** Stable sorting *)

Section SortFacts.
Context {A : Type} (le : A -> A -> bool).
Hypothesis le_total : forall a b, le a b = true \/ le b a = true.
Hypothesis le_trans : forall a b c, le a b = true -> le b c = true -> le a c = true.

Lemma sort_insert_perm a l : Permutation (sort_insert le a l) (a :: l).
Proof.
  induction l as [|b l IH]; simpl; [done|].
  destruct (le a b); [done|].
  rewrite IH. apply perm_swap.
Qed.

Lemma Array_sort_perm l : Permutation (Array_sort le l) l.
Proof.
  induction l as [|a l IH]; simpl; [done|].
  by rewrite sort_insert_perm, IH.
Qed.

Lemma sort_insert_sorted a l :
  StronglySorted (fun x y => le x y = true) l ->
  StronglySorted (fun x y => le x y = true) (sort_insert le a l).
Proof.
  induction 1 as [|b l Hl IH Hb]; simpl; [repeat constructor|].
  destruct (le a b) eqn:E.
  - constructor; [by constructor|].
    constructor; [done|].
    eapply Forall_impl; [exact Hb|]. intros c Hc. by eapply le_trans.
  - constructor; [done|].
    rewrite sort_insert_perm. constructor; [|done].
    by destruct (le_total a b) as [H|H]; [rewrite H in E|].
Qed.

Lemma Array_sort_sorted l :
  StronglySorted (fun x y => le x y = true) (Array_sort le l).
Proof.
  induction l as [|a l IH]; simpl; [constructor|].
  by apply sort_insert_sorted.
Qed.

Lemma swaps_refl sw (l : list A) : swaps sw l l.
Proof. induction l; by constructor. Qed.

Lemma swaps_app sw (l l' t : list A) : swaps sw l l' -> swaps sw (l ++ t) (l' ++ t).
Proof.
  induction 1; simpl.
  - apply swaps_refl.
  - by constructor.
  - by constructor.
  - by econstructor.
Qed.

Lemma swaps_app_l sw (t l l' : list A) : swaps sw l l' -> swaps sw (t ++ l) (t ++ l').
Proof. intros H. induction t; simpl; [done|by constructor]. Qed.

Lemma swaps_none (l l' : list A) : swaps (fun _ _ => False) l l' -> l = l'.
Proof. induction 1; try done; congruence. Qed.

Lemma swaps_impl (sw sw' : A -> A -> Prop) l l' :
  (forall x y, sw x y -> sw' x y) -> swaps sw l l' -> swaps sw' l l'.
Proof. intros H. induction 1; try (by constructor; auto). by econstructor. Qed.

(** Inserting into two lists that differ by exchanges of elements with the
    same rank gives lists that differ by the same exchanges. *)
Lemma sort_insert_swaps (sw : A -> A -> Prop) a l l' :
  (forall x y, sw x y -> le a x = le a y) ->
  swaps sw l l' -> swaps sw (sort_insert le a l) (sort_insert le a l').
Proof.
  intros Hsw. induction 1 as [|x l l' H IH|x y l Hxy|l l' l'' H1 IH1 H2 IH2]; simpl.
  - apply swaps_refl.
  - destruct (le a x); by repeat constructor.
  - rewrite <- (Hsw x y Hxy). destruct (le a x); by repeat constructor.
  - by econstructor.
Qed.

(** Two insertions commute, up to the exchange of the two elements when they
    have the same rank. *)
Lemma sort_insert_insert (sw : A -> A -> Prop) a b l :
  (le a b = true -> le b a = true -> sw a b) ->
  swaps sw (sort_insert le a (sort_insert le b l)) (sort_insert le b (sort_insert le a l)).
Proof.
  intros Htie. induction l as [|c l IH]; simpl.
  - destruct (le a b) eqn:Hab, (le b a) eqn:Hba; simpl;
      try apply swaps_refl; [by constructor; auto|].
    destruct (le_total a b); congruence.
  - destruct (le b c) eqn:Hbc; simpl.
    + destruct (le a b) eqn:Hab.
      * rewrite (le_trans a b c Hab Hbc). simpl. rewrite Hbc.
        destruct (le b a) eqn:Hba; [constructor; auto|apply swaps_refl].
      * assert (Hba : le b a = true) by (destruct (le_total a b); congruence).
        destruct (le a c) eqn:Hac; simpl; rewrite ?Hba, ?Hbc; apply swaps_refl.
    + destruct (le a c) eqn:Hac; simpl.
      * destruct (le b a) eqn:Hba.
        { by rewrite (le_trans b a c Hba Hac) in Hbc. }
        rewrite Hbc. apply swaps_refl.
      * rewrite Hbc. by constructor.
Qed.

Lemma ordpairs_perm (R : A -> A -> Prop) l l' :
  (forall x y, R x y -> R y x) ->
  Permutation l l' -> ForallOrdPairs R l -> ForallOrdPairs R l'.
Proof.
  intros Hsym. induction 1 as [|x l l' Hp IH|x y l|l l' l'' H1 IH1 H2 IH2]; intros HR.
  - done.
  - inversion HR as [|? ? Hx Hl]; subst. constructor; [by rewrite <- Hp|auto].
  - inversion HR as [|? ? Hy Hl]; subst.
    inversion Hl as [|? ? Hx Hl']; subst.
    inversion Hy as [|? ? Hyx Hy']; subst.
    constructor; [constructor; auto|by constructor].
  - auto.
Qed.

(** Sorting two orderings of one collection gives the same list up to
    exchanges of elements with the same rank. *)
Lemma Array_sort_swaps (sw : A -> A -> Prop) l l' :
  (forall x y, sw x y -> forall a, le a x = le a y) ->
  (forall x y, sw x y -> sw y x) ->
  Permutation l l' ->
  ForallOrdPairs (fun a b => le a b = true -> le b a = true -> sw a b) l ->
  swaps sw (Array_sort le l) (Array_sort le l').
Proof.
  intros Hsw Hsym. induction 1 as [|x l l' Hp IH|x y l|l l' l'' H1 IH1 H2 IH2]; intros HR.
  - constructor.
  - inversion HR; subst. simpl. apply sort_insert_swaps; auto.
  - inversion HR as [|? ? Hy Hl]; subst. inversion Hy; subst. simpl.
    apply sort_insert_insert. auto.
  - econstructor; [by apply IH1|]. apply IH2.
    eapply ordpairs_perm; [|exact H1|exact HR].
    intros a b H Hba Hab. auto.
Qed.

(** Exchanging elements of different ranks does not change the sorted
    list. *)
Lemma Array_sort_swaps_eq l l' :
  swaps (fun a b => ~ (le a b = true /\ le b a = true)) l l' ->
  Array_sort le l = Array_sort le l'.
Proof.
  induction 1 as [|x l l' H IH|x y l Hxy|l l' l'' H1 IH1 H2 IH2]; simpl.
  - done.
  - by rewrite IH.
  - apply swaps_none, sort_insert_insert. intros Hyx Hxy'. by apply Hxy.
  - congruence.
Qed.

End SortFacts.

(** ** The layout reconstructor *)

Lemma place_forget item cs :
  Enbd.place item (List.map forget cs) = List.map forget (place_fragment item cs).
Proof.
  induction cs as [|c cs IH]; simpl; [done|].
  unfold Enbd.within_tolerance. simpl.
  destruct (Z.abs (fst c - Enbd.raw_y item) <=? Enbd.Y_TOLERANCE)%Z; simpl.
  - unfold forget. simpl. by rewrite List.map_app.
  - by rewrite IH.
Qed.

(** The merging loop is the loop on clusters, fragments forgotten. *)
Lemma merge_lines_clusters rawItems :
  Enbd.merge_lines rawItems = List.map forget (clusters_from [] rawItems).
Proof.
  unfold Enbd.merge_lines, clusters_from.
  change (@nil Enbd.MergedLine) with (List.map forget []).
  generalize (@nil cluster) as cs.
  induction rawItems as [|item rawItems IH]; intros cs; simpl; [done|].
  by rewrite place_forget, IH.
Qed.

Lemma place_fragment_state item cs :
  loop_state cs ->
  Forall (fun c => (Enbd.raw_y item <= fst c)%Z) cs ->
  loop_state (place_fragment item cs).
Proof.
  intros [Htop Hband Hapart] Hle.
  induction cs as [|c cs IH]; simpl.
  - split; simpl.
    + repeat constructor. by exists item, [].
    + repeat constructor; unfold in_band, Enbd.Y_TOLERANCE; simpl; lia.
    + repeat constructor.
  - inversion Htop as [|? ? (top & more & Hsnd & Hfst) Htop']; subst.
    inversion Hband as [|? ? Hc Hband']; subst.
    inversion Hle as [|? ? Hitem Hle']; subst.
    simpl in Hapart. inversion Hapart as [|? ? Hap' Hlt]; subst.
    destruct (Z.abs (fst c - Enbd.raw_y item) <=? Enbd.Y_TOLERANCE)%Z eqn:E.
    + apply Z.leb_le in E. split; simpl.
      * constructor; [|done]. simpl. rewrite Hsnd. by exists top, (more ++ [item]).
      * constructor; [|done]. simpl. apply Forall_app. split; [done|].
        repeat constructor; unfold in_band, Enbd.Y_TOLERANCE in *; simpl; lia.
      * by constructor.
    + apply Z.leb_gt in E.
      destruct (IH Htop' Hband' Hap' Hle') as [Htop2 Hband2 Hapart2].
      split; simpl.
      * constructor; [by exists top, more|done].
      * by constructor.
      * constructor; [done|].
        clear -Hlt E Hitem Hle'.
        induction cs as [|d cs IH]; simpl.
        { repeat constructor. unfold Enbd.Y_TOLERANCE in *. lia. }
        inversion Hlt; subst. inversion Hle'; subst.
        destruct (Z.abs (fst d - Enbd.raw_y item) <=? Enbd.Y_TOLERANCE)%Z;
          simpl; constructor; auto.
Qed.

Lemma clusters_from_state rawItems cs :
  loop_state cs ->
  StronglySorted (fun a b => (Enbd.raw_y b <= Enbd.raw_y a)%Z) rawItems ->
  Forall (fun c => Forall (fun a => (Enbd.raw_y a <= fst c)%Z) rawItems) cs ->
  loop_state (clusters_from cs rawItems).
Proof.
  revert cs. induction rawItems as [|item rawItems IH]; intros cs Hcs Hsorted Hle;
    simpl; [done|].
  inversion Hsorted as [|? ? Hs' Hitem]; subst.
  apply IH; [|done|].
  - apply place_fragment_state; [done|].
    eapply Forall_impl; [exact Hle|]. intros c Hc. by inversion Hc.
  - assert (Hle2 : Forall (fun c : cluster =>
                        Forall (fun a => (Enbd.raw_y a <= fst c)%Z) rawItems) cs).
    { eapply Forall_impl; [exact Hle|]. intros c Hc. by inversion Hc. }
    clear -Hle2 Hitem. induction Hle2 as [|c cs Hc Hcs IHcs]; simpl.
    + by repeat constructor.
    + destruct (Z.abs (fst c - Enbd.raw_y item) <=? Enbd.Y_TOLERANCE)%Z;
        constructor; auto.
Qed.

Lemma by_y_total a b : by_y_descending a b = true \/ by_y_descending b a = true.
Proof. unfold by_y_descending. rewrite !Z.leb_le. lia. Qed.

Lemma by_y_trans a b c :
  by_y_descending a b = true -> by_y_descending b c = true -> by_y_descending a c = true.
Proof. unfold by_y_descending. rewrite !Z.leb_le. lia. Qed.

Lemma lines_of_fragments_state rawItems : loop_state (lines_of_fragments rawItems).
Proof.
  apply clusters_from_state.
  - split; constructor.
  - pose proof (Array_sort_sorted by_y_descending by_y_total by_y_trans rawItems) as H.
    induction H as [|a l Hl IH Ha]; constructor; [done|].
    eapply Forall_impl; [exact Ha|]. intros b. unfold by_y_descending.
    rewrite Z.leb_le. lia.
  - constructor.
Qed.

(** Every fragment ends up on a line, and stays on the line it was put on. *)
Lemma place_fragment_keeps item cs c a :
  c ∈ cs -> a ∈ snd c -> exists c', c' ∈ place_fragment item cs /\ a ∈ snd c'.
Proof.
  intros Hc Ha. induction cs as [|d cs IH]; [by apply elem_of_nil in Hc|].
  simpl. apply elem_of_cons in Hc as [->|Hc].
  - destruct (Z.abs (fst d - Enbd.raw_y item) <=? Enbd.Y_TOLERANCE)%Z.
    + exists (fst d, snd d ++ [item]). split; [left|]. simpl.
      apply elem_of_app. by left.
    + exists d. split; [left|done].
  - destruct (IH Hc) as (c' & Hc' & Ha').
    destruct (Z.abs (fst d - Enbd.raw_y item) <=? Enbd.Y_TOLERANCE)%Z.
    + exists c. split; [by right|done].
    + exists c'. split; [by right|done].
Qed.

Lemma place_fragment_puts item cs :
  exists c, c ∈ place_fragment item cs /\ item ∈ snd c.
Proof.
  induction cs as [|d cs (c & Hc & Hitem)]; simpl.
  - exists (Enbd.raw_y item, [item]). split; [left|]. simpl. left.
  - destruct (Z.abs (fst d - Enbd.raw_y item) <=? Enbd.Y_TOLERANCE)%Z.
    + exists (fst d, snd d ++ [item]). split; [left|]. simpl.
      apply elem_of_app. right. left.
    + exists c. split; [by right|done].
Qed.

Lemma clusters_from_covers rawItems cs a :
  a ∈ rawItems \/ (exists c, c ∈ cs /\ a ∈ snd c) ->
  exists c, c ∈ clusters_from cs rawItems /\ a ∈ snd c.
Proof.
  revert cs. induction rawItems as [|item rawItems IH]; intros cs [Ha|Ha]; simpl.
  - by apply elem_of_nil in Ha.
  - done.
  - apply IH. apply elem_of_cons in Ha as [->|Ha]; [right|by left].
    apply place_fragment_puts.
  - apply IH. right. destruct Ha as (c & Hc & Ha).
    by eapply place_fragment_keeps.
Qed.

(** The bands of two different lines do not meet. *)
Lemma bands_apart cs c c' a :
  loop_state cs -> c ∈ cs -> c' ∈ cs -> in_band c a -> in_band c' a -> c = c'.
Proof.
  intros [_ _ Hapart] Hc Hc' Ha Ha'. unfold in_band in *.
  induction cs as [|d cs IH]; [by apply elem_of_nil in Hc|].
  simpl in Hapart. inversion Hapart as [|? ? Hap Hlt]; subst.
  rewrite Forall_forall in Hlt.
  assert (Hfar : forall e, e ∈ cs -> (fst e < fst d - Enbd.Y_TOLERANCE)%Z).
  { intros e He. apply Hlt. by apply (list_elem_of_fmap_2 fst). }
  apply elem_of_cons in Hc as [->|Hc]; apply elem_of_cons in Hc' as [->|Hc'].
  - done.
  - specialize (Hfar _ Hc'). lia.
  - specialize (Hfar _ Hc). lia.
  - by apply IH.
Qed.

(** The text of a page is read off the clusters. *)
Lemma page_text_clusters items :
  Enbd.page_text items
  = join [nl]
      (List.map Enbd.line_text
         (Array_sort (fun a b => (Enbd.line_y b - Enbd.line_y a <=? 0)%Z)
            (List.map forget (page_clusters items)))).
Proof.
  unfold Enbd.page_text, page_clusters, lines_of_fragments.
  by rewrite merge_lines_clusters.
Qed.

(** The claim that two fragments share a line as soon as their rounded
    vertical coordinates differ by at most 4 fails: with fragments at 100,
    97 and 94 the second joins the line of the first, and the third, 6 below
    the first, opens a new line although it is 3 below the second. *)
Lemma same_line_counterexample :
  let a := {| Enbd.raw_x := 0; Enbd.raw_y := 97; Enbd.raw_text := "b" |} in
  let b := {| Enbd.raw_x := 0; Enbd.raw_y := 94; Enbd.raw_text := "c" |} in
  a ∈ Enbd.raw_items three_fragments
  /\ b ∈ Enbd.raw_items three_fragments
  /\ (Z.abs (Enbd.raw_y a - Enbd.raw_y b) <= Enbd.Y_TOLERANCE)%Z
  /\ ~ on_one_line three_fragments a b.
Proof.
  intros a b.
  split; [apply list_elem_of_In; vm_compute; auto|].
  split; [apply list_elem_of_In; vm_compute; auto|].
  split; [vm_compute; discriminate|].
  intros (c & Hc & Ha & Hb).
  assert (E : page_clusters three_fragments
              = [ (100%Z, [ {| Enbd.raw_x := 0; Enbd.raw_y := 100; Enbd.raw_text := "a" |}; a ]);
                  (94%Z, [b]) ]) by (vm_compute; reflexivity).
  rewrite E in Hc.
  apply elem_of_cons in Hc as [->|Hc].
  - simpl in Hb. apply elem_of_cons in Hb as [Hb|Hb]; [discriminate|].
    apply elem_of_cons in Hb as [Hb|Hb]; [discriminate|by apply elem_of_nil in Hb].
  - apply elem_of_cons in Hc as [->|Hc]; [|by apply elem_of_nil in Hc].
    simpl in Ha. apply elem_of_cons in Ha as [Ha|Ha]; [discriminate|by apply elem_of_nil in Ha].
Qed.

(** C4, amended.  Two fragments on one logical line have rounded vertical
    coordinates at most 4 apart.  A line takes its [y] from its first
    fragment, and two fragments of the page are on one line exactly when
    both lie at most 4 below the first fragment of one line.  A page with
    fragments at 100 and 103 has one line, a page with fragments at 100 and
    106 has two, whatever the order of the input. *)
Theorem same_line_band (items : list TextItem) (a b : Enbd.RawItem) :
  (on_one_line items a b ->
   (Z.abs (Enbd.raw_y a - Enbd.raw_y b) <= Enbd.Y_TOLERANCE)%Z)
  /\ (a ∈ Enbd.raw_items items -> b ∈ Enbd.raw_items items ->
      (on_one_line items a b <->
       exists c, c ∈ page_clusters items /\ in_band c a /\ in_band c b))
  /\ Forall (fun c => exists top more, snd c = top :: more /\ fst c = Enbd.raw_y top)
       (page_clusters items)
  /\ (Enbd.raw_y a = 100%Z -> Enbd.raw_y b = 103%Z ->
      lines_of_fragments [a; b] = [(103%Z, [b; a])]
      /\ lines_of_fragments [b; a] = [(103%Z, [b; a])])
  /\ (Enbd.raw_y a = 100%Z -> Enbd.raw_y b = 106%Z ->
      lines_of_fragments [a; b] = [(106%Z, [b]); (100%Z, [a])]
      /\ lines_of_fragments [b; a] = [(106%Z, [b]); (100%Z, [a])]).
Proof.
  pose proof (lines_of_fragments_state (Enbd.raw_items items)) as Hstate.
  fold (page_clusters items) in Hstate.
  assert (Hband : forall c x, c ∈ page_clusters items -> x ∈ snd c -> in_band c x).
  { intros c x Hc Hx. destruct Hstate as [_ Hb _].
    rewrite Forall_forall in Hb. specialize (Hb c Hc).
    rewrite Forall_forall in Hb. by apply Hb. }
  split.
  { intros (c & Hc & Ha & Hb).
    pose proof (Hband c a Hc Ha) as Ha'. pose proof (Hband c b Hc Hb) as Hb'.
    unfold in_band, Enbd.Y_TOLERANCE in *. lia. }
  split.
  { intros Ha Hb. split.
    - intros (c & Hc & Hca & Hcb). exists c. auto.
    - intros (c & Hc & Hca & Hcb).
      assert (Hin : forall x, x ∈ Enbd.raw_items items -> in_band c x -> x ∈ snd c).
      { intros x Hx Hcx.
        destruct (clusters_from_covers (Array_sort by_y_descending (Enbd.raw_items items))
                    [] x) as (c' & Hc' & Hx').
        { left. by rewrite Array_sort_perm. }
        fold (lines_of_fragments (Enbd.raw_items items)) in Hc'.
        fold (page_clusters items) in Hc'.
        by rewrite (bands_apart _ c c' x Hstate Hc Hc' Hcx (Hband c' x Hc' Hx')). }
      exists c. auto. }
  split; [by destruct Hstate|].
  unfold lines_of_fragments, clusters_from, by_y_descending, Enbd.Y_TOLERANCE.
  split; intros Ha Hb; simpl; rewrite ?Ha, ?Hb; simpl; rewrite ?Ha, ?Hb; simpl;
    by rewrite ?Ha, ?Hb.
Qed.

(** The theorem at work on the fragments at 100, 97 and 94, and on two
    fragments at 100 and 103. *)
Lemma same_line_band_witness :
  let f100 := {| Enbd.raw_x := 0; Enbd.raw_y := 100; Enbd.raw_text := "a" |} in
  let f97 := {| Enbd.raw_x := 0; Enbd.raw_y := 97; Enbd.raw_text := "b" |} in
  let f103 := {| Enbd.raw_x := 5; Enbd.raw_y := 103; Enbd.raw_text := "d" |} in
  on_one_line three_fragments f100 f97
  /\ (Z.abs (Enbd.raw_y f100 - Enbd.raw_y f97) <= Enbd.Y_TOLERANCE)%Z
  /\ lines_of_fragments [f100; f103] = [(103%Z, [f103; f100])].
Proof.
  intros f100 f97 f103.
  destruct (same_line_band three_fragments f100 f97) as (Hnear & Hiff & _ & _ & _).
  assert (Hline : on_one_line three_fragments f100 f97).
  { apply Hiff.
    - apply list_elem_of_In. vm_compute. auto.
    - apply list_elem_of_In. vm_compute. auto.
    - exists (100%Z, [f100; f97]). split; [|split].
      + apply list_elem_of_In. vm_compute. auto.
      + vm_compute. split; discriminate.
      + vm_compute. split; discriminate. }
  split; [exact Hline|]. split; [exact (Hnear Hline)|].
  destruct (same_line_band [] f100 f103) as (_ & _ & _ & Hpair & _).
  by destruct (Hpair eq_refl eq_refl).
Defined.

(** ** Order of the input fragments *)

Lemma by_x_total a b : by_x a b = true \/ by_x b a = true.
Proof. unfold by_x. rewrite !Qle_bool_iff. lra. Qed.

Lemma by_x_trans a b c : by_x a b = true -> by_x b c = true -> by_x a c = true.
Proof. unfold by_x. rewrite !Qle_bool_iff. lra. Qed.

Lemma apart_by_x p q : apart p q -> ~ (by_x p q = true /\ by_x q p = true).
Proof. unfold apart, by_x. rewrite !Qle_bool_iff. intros H [H1 H2]. apply H. lra. Qed.

Lemma line_text_agree l1 l2 :
  swaps apart (Enbd.line_items l1) (Enbd.line_items l2) ->
  Enbd.line_text l1 = Enbd.line_text l2.
Proof.
  intros H. unfold Enbd.line_text.
  fold by_x.
  rewrite (Array_sort_swaps_eq by_x by_x_total by_x_trans _ _
             (swaps_impl _ _ _ _ apart_by_x H)).
  done.
Qed.

Lemma lines_agree_refl L : lines_agree L L.
Proof. induction L; constructor; [split; [done|apply swaps_refl]|done]. Qed.

Lemma lines_agree_trans L1 L2 L3 :
  lines_agree L1 L2 -> lines_agree L2 L3 -> lines_agree L1 L3.
Proof.
  intros H. revert L3. induction H as [|l1 l2 L1 L2 [Hy Hs] H IH]; intros L3 H3.
  - done.
  - inversion H3 as [|? l3 ? L3' [Hy' Hs'] H3']; subst.
    constructor; [split; [congruence|by econstructor]|by apply IH].
Qed.

Lemma place_agree item L1 L2 :
  lines_agree L1 L2 -> lines_agree (Enbd.place item L1) (Enbd.place item L2).
Proof.
  induction 1 as [|l1 l2 L1 L2 [Hy Hs] H IH]; simpl.
  - apply lines_agree_refl.
  - unfold Enbd.within_tolerance. rewrite Hy.
    destruct (Z.abs (Enbd.line_y l2 - Enbd.raw_y item) <=? Enbd.Y_TOLERANCE)%Z.
    + constructor; [|done]. simpl. split; [done|by apply swaps_app].
    + by constructor.
Qed.

Lemma within_tolerance_y l l' a b :
  Enbd.line_y l = Enbd.line_y l' -> Enbd.raw_y a = Enbd.raw_y b ->
  Enbd.within_tolerance l a = Enbd.within_tolerance l' b.
Proof. unfold Enbd.within_tolerance. by intros -> ->. Qed.

Lemma place_place_agree a b L1 L2 :
  level a b -> lines_agree L1 L2 ->
  lines_agree (Enbd.place b (Enbd.place a L1)) (Enbd.place a (Enbd.place b L2)).
Proof.
  intros [Hy Hx]. induction 1 as [|l1 l2 L1 L2 [Hl Hs] H IH]; cbn [Enbd.place].
  - rewrite (within_tolerance_y _ (Enbd.mkMergedLine (Enbd.raw_y b) []) b b), 
      (within_tolerance_y (Enbd.mkMergedLine (Enbd.raw_y b) _)
         (Enbd.mkMergedLine (Enbd.raw_y b) []) a b) by done.
    replace (Enbd.within_tolerance (Enbd.mkMergedLine (Enbd.raw_y b) []) b) with true.
    + constructor; [|constructor]. simpl. split; [done|]. by apply swaps_swap.
    + unfold Enbd.within_tolerance, Enbd.Y_TOLERANCE. simpl. by rewrite Z.sub_diag.
  - rewrite (within_tolerance_y l1 l2 a b Hl Hy).
    destruct (Enbd.within_tolerance l2 b) eqn:E; cbn [Enbd.place].
    + rewrite (within_tolerance_y _ l2 b b), (within_tolerance_y _ l2 a b), E by done.
      constructor; [|done]. simpl. split; [done|].
      rewrite <- !app_assoc. simpl.
      eapply swaps_trans; [apply swaps_app, Hs|].
      apply swaps_app_l. by constructor.
    + rewrite (within_tolerance_y l1 l2 b b), (within_tolerance_y l2 l2 a b), E by done.
      by constructor.
Qed.

Lemma merge_agree S1 S2 :
  swaps level S1 S2 ->
  forall L1 L2, lines_agree L1 L2 ->
  lines_agree (fold_left (fun ls item => Enbd.place item ls) S1 L1)
              (fold_left (fun ls item => Enbd.place item ls) S2 L2).
Proof.
  induction 1 as [|x l l' H IH|x y l Hxy|l l' l'' H1 IH1 H2 IH2]; intros L1 L2 HL; simpl.
  - done.
  - by apply IH, place_agree.
  - generalize (place_place_agree x y L1 L2 Hxy HL).
    generalize (Enbd.place y (Enbd.place x L1)) (Enbd.place x (Enbd.place y L2)).
    clear. induction l as [|z l IH]; intros M1 M2 HM; simpl; [done|].
    by apply IH, place_agree.
  - eapply lines_agree_trans; [by apply IH1|apply IH2, lines_agree_refl].
Qed.

Lemma sort_lines_agree L1 L2 :
  lines_agree L1 L2 ->
  lines_agree (Array_sort (fun a b => (Enbd.line_y b - Enbd.line_y a <=? 0)%Z) L1)
              (Array_sort (fun a b => (Enbd.line_y b - Enbd.line_y a <=? 0)%Z) L2).
Proof.
  induction 1 as [|l1 l2 L1 L2 [Hy Hs] H IH]; simpl; [constructor|].
  revert IH.
  generalize (Array_sort (fun a b => (Enbd.line_y b - Enbd.line_y a <=? 0)%Z) L1)
             (Array_sort (fun a b => (Enbd.line_y b - Enbd.line_y a <=? 0)%Z) L2).
  clear -Hy Hs. induction 1 as [|m1 m2 M1 M2 [Hm Hms] HM IH]; simpl.
  - by repeat constructor.
  - rewrite Hy, Hm.
    destruct (Enbd.line_y m2 - Enbd.line_y l2 <=? 0)%Z; by repeat constructor.
Qed.

Lemma lines_agree_text L1 L2 :
  lines_agree L1 L2 -> List.map Enbd.line_text L1 = List.map Enbd.line_text L2.
Proof.
  induction 1 as [|l1 l2 L1 L2 [Hy Hs] H IH]; simpl; [done|].
  by rewrite IH, (line_text_agree l1 l2 Hs).
Qed.

Lemma raw_items_perm items1 items2 :
  Permutation items1 items2 ->
  Permutation (Enbd.raw_items items1) (Enbd.raw_items items2).
Proof.
  intros H. unfold Enbd.raw_items. apply Permutation_map.
  induction H as [|x l l' H IH|x y l|l l' l'' H1 IH1 H2 IH2]; simpl.
  - done.
  - destruct (_ && _); [by constructor|done].
  - destruct (truthy (item_str x) && _), (truthy (item_str y) && _);
      try done; apply perm_swap.
  - by etransitivity.
Qed.

Lemma no_overlap_pairs l :
  no_overlap l = true ->
  ForallOrdPairs
    (fun a b => by_y_descending a b = true -> by_y_descending b a = true -> level a b) l.
Proof.
  induction l as [|a l IH]; simpl; [constructor|].
  intros [Ha Hl]%andb_prop. constructor; [|auto].
  rewrite forallb_forall in Ha. apply Forall_forall. intros b Hb.
  apply list_elem_of_In, Ha in Hb. unfold same_place, by_y_descending, level in *.
  rewrite !Z.leb_le. intros H1 H2.
  assert (Hy : Enbd.raw_y a = Enbd.raw_y b) by lia.
  split; [done|]. intros Hx.
  apply Qeq_bool_iff in Hx. rewrite Hx in Hb.
  apply Z.eqb_eq in Hy. by rewrite Hy in Hb.
Qed.

(** Sorting two orderings of a page without overlap gives the fragments in
    the same order up to exchanges on one level. *)
Lemma sorted_fragments_agree raw1 raw2 :
  Permutation raw1 raw2 -> no_overlap raw1 = true ->
  swaps level (Array_sort by_y_descending raw1) (Array_sort by_y_descending raw2).
Proof.
  intros Hperm Hno.
  apply (Array_sort_swaps by_y_descending by_y_total by_y_trans); [| |done|].
  - intros x y [Hy _] a. unfold by_y_descending. by rewrite Hy.
  - intros x y [Hy Hx]. split; [done|]. intros H. apply Hx. by symmetry.
  - by apply no_overlap_pairs.
Qed.

(** The claim that the text does not depend on the order of the fragments
    fails: two fragments at the same place come out in the order of the
    input. *)
Lemma input_order_counterexample :
  Permutation two_at_one_place (rev two_at_one_place)
  /\ Enbd.page_text two_at_one_place = "A B"
  /\ Enbd.page_text (rev two_at_one_place) = "B A"
  /\ Enbd.page_text two_at_one_place <> Enbd.page_text (rev two_at_one_place).
Proof.
  split; [apply perm_swap|].
  split; [vm_compute; reflexivity|].
  split; [vm_compute; reflexivity|].
  vm_compute. discriminate.
Qed.

(** C5, amended.  For every two orderings of the fragments of a page on
    which no two fragments have the same [x] and the same rounded [y], the
    text of the page is the same. *)
Theorem page_text_order_independent (items1 items2 : list TextItem) :
  Permutation items1 items2 ->
  no_overlap (Enbd.raw_items items1) = true ->
  Enbd.page_text items1 = Enbd.page_text items2.
Proof.
  intros Hperm Hno. unfold Enbd.page_text. f_equal.
  apply lines_agree_text, sort_lines_agree.
  unfold Enbd.merge_lines.
  apply merge_agree; [|constructor].
  fold by_y_descending.
  by apply sorted_fragments_agree; [apply raw_items_perm|].
Qed.

(** The theorem at work on a row of three fragments and a line below it,
    read in two different orders. *)
Lemma page_text_order_independent_witness :
  Permutation table_row (rev table_row)
  /\ no_overlap (Enbd.raw_items table_row) = true
  /\ Enbd.page_text table_row = Enbd.page_text (rev table_row)
  /\ Enbd.page_text table_row
     = text_lines [lit "24 Jan 2026 IPP transfer 3341.06 Cr"; lit "note"].
Proof.
  assert (Hperm : Permutation table_row (rev table_row)) by apply Permutation_rev.
  split; [exact Hperm|].
  split; [vm_compute; reflexivity|].
  split; [|vm_compute; reflexivity].
  apply (page_text_order_independent table_row (rev table_row) Hperm).
  vm_compute. reflexivity.
Defined.

(** ** ADCB account statements *)

(** The sign rule of the debit and credit columns: an emitted row carries
    its credit when that is positive and its negated debit otherwise. *)
Lemma account_row_sign_rule (line : str) (tx : Transaction) :
  Adcb.account_row line = Some tx ->
  exists postingDate valueDate refNo description debitStr creditStr more,
    Adcb.parseCSVLine line
      = postingDate :: valueDate :: refNo :: description :: debitStr :: creditStr :: more
    /\ amount tx =
         (if num_gt (Adcb.parseAmount creditStr) zero
          then Adcb.parseAmount creditStr
          else neg (Adcb.parseAmount debitStr)).
Proof.
  unfold Adcb.account_row.
  destruct (Adcb.parseCSVLine line) as [|f1 [|f2 [|f3 [|f4 [|f5 [|f6 more]]]]]];
    try discriminate.
  destruct (negb (truthy f1) || negb (rx_test Adcb.date_only f1)); [discriminate|].
  destruct (num_eq (Adcb.parseAmount f5) zero && num_eq (Adcb.parseAmount f6) zero);
    [discriminate|].
  intros [= <-]. simpl.
  by exists f1, f2, f3, f4, f5, f6, more.
Qed.

(** C8.  The three-line statement is detected as an ADCB account statement
    and parses to exactly one transaction, dated 2024-02-01, with payee
    [Coffee Shop] and amount -15; every emitted row follows the sign rule of
    the debit and credit columns. *)
Theorem coffee_shop_scenario :
  Adcb.detectADCBType coffee_shop_statement = Some account
  /\ transactions (Adcb.parseADCBAccount coffee_shop_statement)
     = [ {| date := "2024-02-01"; payee := "Coffee Shop"; memo := "";
            amount := of_Z (-15); originalDate := "01/02/2024" |} ]
  /\ errors (Adcb.parseADCBAccount coffee_shop_statement) = []
  /\ (forall line tx,
        Adcb.account_row line = Some tx ->
        exists postingDate valueDate refNo description debitStr creditStr more,
          Adcb.parseCSVLine line
            = postingDate :: valueDate :: refNo :: description :: debitStr :: creditStr :: more
          /\ amount tx =
               (if num_gt (Adcb.parseAmount creditStr) zero
                then Adcb.parseAmount creditStr
                else neg (Adcb.parseAmount debitStr))).
Proof.
  split; [vm_compute; reflexivity|].
  split; [vm_compute; reflexivity|].
  split; [vm_compute; reflexivity|].
  exact account_row_sign_rule.
Qed.

(** The rule at work on the row of the scenario. *)
Lemma coffee_shop_scenario_witness :
  Adcb.account_row (lit "01/02/2024,01/02/2024,R1," +.+ quoted "Coffee Shop" +.+ ",15.00,0")
    <> None
  /\ exists tx debitStr creditStr,
       amount tx =
         (if num_gt (Adcb.parseAmount creditStr) zero
          then Adcb.parseAmount creditStr
          else neg (Adcb.parseAmount debitStr))
       /\ amount tx = of_Z (-15).
Proof.
  split; [vm_compute; discriminate|].
  destruct coffee_shop_scenario as (_ & _ & _ & rule).
  destruct (rule (lit "01/02/2024,01/02/2024,R1," +.+ quoted "Coffee Shop" +.+ ",15.00,0")
              {| date := "2024-02-01"; payee := "Coffee Shop"; memo := "";
                 amount := of_Z (-15); originalDate := "01/02/2024" |})
    as (f1 & f2 & f3 & f4 & f5 & f6 & more & Hfields & Hamount).
  { vm_compute. reflexivity. }
  eexists _, f5, f6. split; [exact Hamount|]. reflexivity.
Defined.

(** ** Amounts of emitted transactions *)

Lemma num_eq_neg_zero (x : number) : num_eq (neg x) zero = num_eq x zero.
Proof. by destruct x as [[]|[]| |[] m e]. Qed.

(** A loop that keeps the rows accepted by its body keeps what the body
    guarantees. *)
Lemma each_line_Forall (P : Transaction -> Prop) body lines :
  (forall l next tx, body l next = Some tx -> P tx) ->
  Forall P (Enbd.each_line body lines).
Proof.
  intros Hbody. induction lines as [|l lines IH]; simpl; [constructor|].
  destruct (body l (head lines)) eqn:E; [constructor; eauto|done].
Qed.

Lemma each_page_Forall (P : Transaction -> Prop) body pages :
  (forall lines, Forall P (body lines)) ->
  Forall P (Enbd.each_page body pages).
Proof.
  intros Hbody. unfold Enbd.each_page.
  induction pages as [|p pages IH]; simpl; [constructor|].
  apply Forall_app. split; [apply Hbody|exact IH].
Qed.

Lemma account_lines_Forall (P : Transaction -> Prop) lines :
  (forall l following tx, Enbd.account_line l following = Some tx -> P tx) ->
  Forall P (Enbd.account_lines lines).
Proof.
  intros Hbody. induction lines as [|l lines IH]; simpl; [constructor|].
  destruct (Enbd.account_line l lines) eqn:E; [constructor; eauto|done].
Qed.

Lemma omap_Forall {A} (P : Transaction -> Prop) (f : A -> option Transaction) l :
  (forall a tx, f a = Some tx -> P tx) -> Forall P (omap f l).
Proof.
  intros Hf. induction l as [|a l IH]; simpl; [constructor|].
  destruct (f a) eqn:E; [constructor; eauto|done].
Qed.

Lemma creditcard_row_nonzero line tx :
  Adcb.creditcard_row line = Some tx -> nonzero tx.
Proof.
  unfold Adcb.creditcard_row, nonzero.
  destruct (Adcb.parseCSVLine line) as [|f1 [|f2 [|f3 [|f4 more]]]]; try discriminate.
  destruct (_ || _); [discriminate|].
  destruct (_ || _); [discriminate|].
  destruct (num_eq (Adcb.parseAmount f4) zero) eqn:Hz; [discriminate|].
  intros [= <-]. cbn [amount].
  destruct (str_eqb f3 _); [done|by rewrite num_eq_neg_zero].
Qed.

Lemma card_line_nonzero l next tx :
  Enbd.card_line l next = Some tx -> nonzero tx.
Proof.
  unfold Enbd.card_line, nonzero.
  destruct (rx_exec Enbd.card_row (trim l)) as [m|]; [|discriminate].
  destruct (_ || _); [discriminate|].
  destruct (isNaN _ || num_eq _ zero) eqn:Hz; [discriminate|].
  apply orb_false_elim in Hz as [_ Hz].
  intros [= <-]. cbn [amount].
  destruct (group 5 m) as [f|]; [destruct (str_eqb f _)|];
    by rewrite ?num_eq_neg_zero.
Qed.

Lemma fallback_line_nonzero l next tx :
  Enbd.fallback_line l next = Some tx -> nonzero tx.
Proof.
  unfold Enbd.fallback_line, nonzero.
  destruct (rx_exec Enbd.leading_date (trim l)) as [dm|]; [|discriminate].
  destruct (rx_exec Enbd.trailing_amount (trim l)) as [am|]; [|discriminate].
  destruct (_ || _); [discriminate|].
  destruct (isNaN _ || num_eq _ zero) eqn:Hz; [discriminate|].
  apply orb_false_elim in Hz as [_ Hz].
  intros [= <-]. cbn [amount].
  destruct (match group 2 am with Some f => _ | None => false end);
    by rewrite ?num_eq_neg_zero.
Qed.

Lemma account_line_nonzero l following tx :
  Enbd.account_line l following = Some tx -> nonzero tx.
Proof.
  unfold Enbd.account_line, nonzero.
  destruct (rx_exec Enbd.row_date l) as [dm|]; [|discriminate].
  destruct (Enbd.amounts_of _) as [|first others]; [discriminate|].
  destruct (_ || _); [discriminate|].
  destruct (if (2 <=? _)%nat then _ else _) as [a|]; [|discriminate].
  destruct (isNaN a || num_eq a zero) eqn:Hz; [discriminate|].
  apply orb_false_elim in Hz as [_ Hz].
  by intros [= <-].
Qed.

(** The extractors that test the amount they emit never emit a zero. *)
Lemma tested_amounts_nonzero :
  (forall content, Forall nonzero (transactions (Adcb.parseADCBCreditCard content)))
  /\ (forall file r, Enbd.parseENBDCreditCard file = Resolved r ->
        Forall nonzero (transactions r))
  /\ (forall file r, Enbd.parseENBDAccount file = Resolved r ->
        Forall nonzero (transactions r)).
Proof.
  split; [|split].
  - intros content. unfold Adcb.parseADCBCreditCard.
    destruct (Adcb.creditcard_header _ _ _) as [md [h|]]; simpl; [|constructor].
    apply omap_Forall, creditcard_row_nonzero.
  - intros file r. unfold Enbd.parseENBDCreditCard.
    destruct (Enbd.extractTextFromPDF file) as [pages|msg]; intros [= <-]; simpl;
      [|constructor].
    destruct (_ =? 0)%nat.
    + apply each_page_Forall. intros lines.
      apply each_line_Forall, fallback_line_nonzero.
    + apply each_page_Forall. intros lines.
      apply each_line_Forall, card_line_nonzero.
  - intros file r. unfold Enbd.parseENBDAccount.
    destruct (Enbd.extractTextFromPDF file) as [pages|msg]; intros [= <-]; simpl;
      [|constructor].
    apply each_page_Forall. intros lines.
    apply account_lines_Forall, account_line_nonzero.
Qed.

(** C1.  [parseADCBAccount] tests the debit and the credit, not the amount
    it emits: a row with debit 0 and a credit that is not positive (here
    -5.00) passes the test and is emitted with amount [-debit], which is
    zero. *)
Theorem account_row_emits_zero :
  Adcb.detectADCBType negative_credit_statement = Some account
  /\ transactions (Adcb.parseADCBAccount negative_credit_statement)
     = [ {| date := "2024-02-01"; payee := "Reversal"; memo := "";
            amount := neg zero; originalDate := "01/02/2024" |} ]
  /\ num_eq (neg zero) zero = true.
Proof. repeat split; vm_compute; reflexivity. Qed.

(** ** Emirates NBD account rows *)





(** ** The parse entry point *)

(** The detection pass of [parsePDFFile] opens the document outside any
    [try]: a fault of the service there rejects the call. *)
Lemma parsePDFFile_rejects (file : File) (message : str) :
  pdf file = Rejected message ->
  Orchestrator.parsePDFFile file = Rejected message.
Proof. intros H. unfold Orchestrator.parsePDFFile. by rewrite H. Qed.

Lemma parseCSVFile_rejects (file : File) (message : str) :
  text_of file = Rejected message ->
  Orchestrator.parseCSVFile file = Rejected message.
Proof. intros H. unfold Orchestrator.parseCSVFile. by rewrite H. Qed.

(** The bank parsers catch the same fault and always resolve. *)
Lemma bank_parsers_resolve (file : File) :
  (exists r, Enbd.parseENBDCreditCard file = Resolved r)
  /\ (exists r, Enbd.parseENBDAccount file = Resolved r).
Proof.
  unfold Enbd.parseENBDCreditCard, Enbd.parseENBDAccount.
  destruct (Enbd.extractTextFromPDF file); eauto.
Qed.

(** C2.  On a PDF file that the service cannot open, [parseFile] is
    rejected with the fault of the service instead of resolving to a result
    with an error string, while [parseENBDCreditCard] and
    [parseENBDAccount], called on the same file, catch the fault and
    resolve. *)
Theorem parseFile_rejects_corrupt_pdf :
  Orchestrator.parseFile corrupt_pdf = Rejected "Invalid PDF structure."
  /\ Enbd.parseENBDCreditCard corrupt_pdf
     = Resolved {| bankName := "Emirates NBD"; statementType := "Credit Card Statement";
                   transactions := []; metadata := ∅;
                   errors := [lit "PDF parsing error: Invalid PDF structure."] |}
  /\ Enbd.parseENBDAccount corrupt_pdf
     = Resolved {| bankName := "Emirates NBD"; statementType := "Account Statement";
                   transactions := []; metadata := ∅;
                   errors := [lit "PDF parsing error: Invalid PDF structure."] |}.
Proof. repeat split; vm_compute; reflexivity. Qed.

(** The later revision of the entry point inherits the defect, whatever
    the spreadsheet parser does. *)
Lemma parseFile_xlsx_rejects_corrupt_pdf (xlsx : File -> promise ParseResult) :
  OrchestratorXlsx.parseFile xlsx corrupt_pdf = Rejected "Invalid PDF structure.".
Proof. vm_compute. reflexivity. Qed.

(** In the later revision a result classified [Unknown] comes from the
    orchestrator or from the spreadsheet parser. *)
Lemma unknown_xlsx (xlsx : File -> promise ParseResult) (file : File) (r : ParseResult) :
  OrchestratorXlsx.parseFile xlsx file = Resolved r ->
  bankName r = "Unknown" ->
  Orchestrator.parseFile file = Resolved r
  \/ xlsx file = Resolved r
  \/ r = Orchestrator.unknown
           (lit "Unsupported file type: " +.+ toLowerCase (name file)
            +.+ ". Please upload a CSV, PDF, or XLSX file.").
Proof.
  unfold OrchestratorXlsx.parseFile, Orchestrator.parseFile,
    OrchestratorXlsx.parseXLSXFile. cbv zeta.
  destruct (endsWith (toLowerCase (name file)) ".csv"); [by left|].
  destruct (endsWith (toLowerCase (name file)) ".pdf"); [by left|].
  destruct (_ || _); [by right; left|].
  intros [= <-] _. by right; right.
Qed.

(** ** Classification of the results *)

Lemma extract_rejected_card (file : File) (message : str) :
  Enbd.extractTextFromPDF file = Rejected message ->
  Enbd.parseENBDCreditCard file
  = Resolved {| bankName := "Emirates NBD"; statementType := "Credit Card Statement";
                transactions := []; metadata := ∅;
                errors := [lit "PDF parsing error: " +.+ message] |}.
Proof. intros H. unfold Enbd.parseENBDCreditCard. by rewrite H. Qed.

Lemma extract_rejected_account (file : File) (message : str) :
  Enbd.extractTextFromPDF file = Rejected message ->
  Enbd.parseENBDAccount file
  = Resolved {| bankName := "Emirates NBD"; statementType := "Account Statement";
                transactions := []; metadata := ∅;
                errors := [lit "PDF parsing error: " +.+ message] |}.
Proof. intros H. unfold Enbd.parseENBDAccount. by rewrite H. Qed.

Lemma card_classification (file : File) (r : ParseResult) :
  Enbd.parseENBDCreditCard file = Resolved r ->
  bankName r = "Emirates NBD" /\ statementType r = "Credit Card Statement".
Proof.
  unfold Enbd.parseENBDCreditCard.
  destruct (Enbd.extractTextFromPDF file); by intros [= <-].
Qed.

Lemma enbd_account_classification (file : File) (r : ParseResult) :
  Enbd.parseENBDAccount file = Resolved r ->
  bankName r = "Emirates NBD" /\ statementType r = "Account Statement".
Proof.
  unfold Enbd.parseENBDAccount.
  destruct (Enbd.extractTextFromPDF file); by intros [= <-].
Qed.

Lemma adcb_account_classification (content : str) :
  bankName (Adcb.parseADCBAccount content) = "ADCB"
  /\ statementType (Adcb.parseADCBAccount content) = "Account Statement".
Proof.
  unfold Adcb.parseADCBAccount.
  by destruct (Adcb.account_header _ _ _) as [md [h|]].
Qed.

Lemma adcb_creditcard_classification (content : str) :
  bankName (Adcb.parseADCBCreditCard content) = "ADCB"
  /\ statementType (Adcb.parseADCBCreditCard content) = "Credit Card Statement".
Proof.
  unfold Adcb.parseADCBCreditCard.
  by destruct (Adcb.creditcard_header _ _ _) as [md [h|]].
Qed.

Lemma unknown_only_from_orchestrator (file : File) (r : ParseResult) :
  Orchestrator.parseFile file = Resolved r ->
  bankName r = "Unknown" ->
  routing_or_detection_failed file
  /\ statementType r = "Unknown" /\ transactions r = [] /\ errors r <> [].
Proof.
  unfold Orchestrator.parseFile, routing_or_detection_failed. cbv zeta.
  destruct (endsWith (toLowerCase (name file)) ".csv") eqn:Hcsv.
  - unfold Orchestrator.parseCSVFile.
    destruct (text_of file) as [content|msg] eqn:Htext; [|discriminate]. simpl.
    destruct (Adcb.detectADCBType content) as [[]|] eqn:Hdet.
    + intros [= <-] Hb. by rewrite (proj1 (adcb_account_classification content)) in Hb.
    + intros [= <-] Hb. by rewrite (proj1 (adcb_creditcard_classification content)) in Hb.
    + intros [= <-] _. split; [|done]. right; left. eauto.
  - destruct (endsWith (toLowerCase (name file)) ".pdf") eqn:Hpdf.
    + unfold Orchestrator.parsePDFFile.
      destruct (pdf file) as [doc|msg] eqn:Hdoc; [|discriminate]. simpl.
      destruct (Orchestrator.first_page doc) as [items|msg] eqn:Hpage; [|discriminate].
      simpl.
      destruct (Enbd.detectENBDType _) as [[]|] eqn:Hdet.
      * intros Hr Hb. apply enbd_account_classification in Hr as [Hr _].
        by rewrite Hr in Hb.
      * intros Hr Hb. apply card_classification in Hr as [Hr _].
        by rewrite Hr in Hb.
      * intros [= <-] _. split; [|done]. right; right. eauto 10.
    + intros [= <-] _. split; [|done]. by left.
Qed.

(** C10.  A result of a bank parser always carries the classification of
    that parser: for every input of the four parsers, after a caught fault
    of the service and after a missing header row alike, the two latter with
    one error and no transaction.  A result of [parseFile] classified
    [Unknown] comes from the orchestrator: the suffix was not routed or the
    detector found no variant. *)
Theorem classification_is_fixed :
  (forall content,
     bankName (Adcb.parseADCBAccount content) = "ADCB"
     /\ statementType (Adcb.parseADCBAccount content) = "Account Statement")
  /\ (forall content,
        bankName (Adcb.parseADCBCreditCard content) = "ADCB"
        /\ statementType (Adcb.parseADCBCreditCard content) = "Credit Card Statement")
  /\ (forall file, exists r,
        Enbd.parseENBDCreditCard file = Resolved r
        /\ bankName r = "Emirates NBD" /\ statementType r = "Credit Card Statement")
  /\ (forall file, exists r,
        Enbd.parseENBDAccount file = Resolved r
        /\ bankName r = "Emirates NBD" /\ statementType r = "Account Statement")
  /\ (forall file message,
        Enbd.extractTextFromPDF file = Rejected message ->
        (exists r, Enbd.parseENBDCreditCard file = Resolved r
                   /\ bankName r = "Emirates NBD"
                   /\ statementType r = "Credit Card Statement"
                   /\ transactions r = [] /\ errors r = [lit "PDF parsing error: " +.+ message])
        /\ (exists r, Enbd.parseENBDAccount file = Resolved r
                      /\ bankName r = "Emirates NBD"
                      /\ statementType r = "Account Statement"
                      /\ transactions r = []
                      /\ errors r = [lit "PDF parsing error: " +.+ message]))
  /\ (forall content,
        snd (Adcb.account_header (Adcb.content_lines content) 0 ∅) = None ->
        bankName (Adcb.parseADCBAccount content) = "ADCB"
        /\ statementType (Adcb.parseADCBAccount content) = "Account Statement"
        /\ transactions (Adcb.parseADCBAccount content) = []
        /\ errors (Adcb.parseADCBAccount content)
           = [lit "Could not find header row in ADCB account statement"])
  /\ (forall content,
        snd (Adcb.creditcard_header (Adcb.content_lines content) 0 ∅) = None ->
        bankName (Adcb.parseADCBCreditCard content) = "ADCB"
        /\ statementType (Adcb.parseADCBCreditCard content) = "Credit Card Statement"
        /\ transactions (Adcb.parseADCBCreditCard content) = []
        /\ errors (Adcb.parseADCBCreditCard content)
           = [lit "Could not find header row in ADCB credit card statement"])
  /\ (forall file r,
        Orchestrator.parseFile file = Resolved r ->
        bankName r = "Unknown" ->
        routing_or_detection_failed file
        /\ statementType r = "Unknown" /\ transactions r = [] /\ errors r <> []).
Proof.
  split; [exact adcb_account_classification|].
  split; [exact adcb_creditcard_classification|].
  split.
  { intros file. destruct (bank_parsers_resolve file) as [[r Hr] _].
    exists r. split; [done|]. by apply card_classification in Hr. }
  split.
  { intros file. destruct (bank_parsers_resolve file) as [_ [r Hr]].
    exists r. split; [done|]. by apply enbd_account_classification in Hr. }
  split.
  { intros file message H. split; eexists; split;
      [by apply extract_rejected_card|done|by apply extract_rejected_account|done]. }
  split.
  { intros content. unfold Adcb.parseADCBAccount.
    destruct (Adcb.account_header _ _ _) as [md [h|]]; [discriminate|done]. }
  split.
  { intros content. unfold Adcb.parseADCBCreditCard.
    destruct (Adcb.creditcard_header _ _ _) as [md [h|]]; [discriminate|done]. }
  exact unknown_only_from_orchestrator.
Qed.

(** The classification theorem at work: a statement without header row, a
    document that cannot be opened, and a file with an unrouted suffix. *)
Lemma classification_is_fixed_witness :
  (transactions (Adcb.parseADCBAccount "Account Number: 123") = []
   /\ bankName (Adcb.parseADCBAccount "Account Number: 123") = "ADCB")
  /\ (exists r, Enbd.parseENBDCreditCard corrupt_pdf = Resolved r
                /\ bankName r = "Emirates NBD" /\ transactions r = [])
  /\ routing_or_detection_failed text_report.
Proof.
  destruct classification_is_fixed as (_ & _ & _ & _ & Hfault & Hheader & _ & Hunknown).
  split.
  { destruct (Hheader "Account Number: 123") as (Hb & _ & Ht & _);
      [vm_compute; reflexivity|by split]. }
  split.
  { destruct (Hfault corrupt_pdf "Invalid PDF structure.") as [(r & Hr & Hb & _ & Ht & _) _];
      [vm_compute; reflexivity|by exists r]. }
  destruct (Hunknown text_report
              (Orchestrator.unknown
                 "Unsupported file type: report.txt. Please upload a CSV or PDF file."))
    as [H _]; [vm_compute; reflexivity|vm_compute; reflexivity|exact H].
Defined.

(** ** The exporter *)

(** The claim fails for the exporter of [ynab-export.ts]: it prints the
    transaction with the date as MM/DD/YYYY, the payee alone between
    double quotes, the outflow column blank and the amount as [42.50], so
    the line of the claim is not a line of its export. *)
Lemma export_revision_counterexample :
  let tx := {| date := "2024-02-01"; payee := "Acme, Inc"; memo := "";
               amount := of_decimal false 425 (-1); originalDate := "01/02/2024" |} in
  let csv := YnabExportPermissive.toYNABCSV (fun _ => lit "1e+21") [tx] inflow_outflow in
  split nl csv
  = [ lit "Date,Payee,Memo,Outflow,Inflow";
      lit "02/01/2024," +.+ quoted "Acme, Inc" +.+ ",,,42.50" ]
  /\ ~ In (join "," (List.map quoted (strs ["01/02/2024"; "Acme, Inc"; ""; "0"; "42.5"])))
          (split nl csv).
Proof.
  split; [vm_compute; reflexivity|].
  vm_compute. intros [H|[H|[]]]; discriminate.
Qed.

(** C3, amended.  Exporting the single inflow transaction of amount 42.5,
    dated 2024-02-01, with payee [Acme, Inc] and an empty memo in the
    inflow/outflow convention with the exporter that quotes every field
    (the one beside the parsers, in [enbd.ts]) gives the header line
    followed by exactly the line ["01/02/2024","Acme, Inc","","0","42.5"]:
    every field is quoted, the date reads DD/MM/YYYY, the unused outflow
    column is the text [0] and the trailing zero of [42.50] is stripped.
    The exporter of [ynab-export.ts] gives the line
    [02/01/2024,"Acme, Inc",,,42.50] instead. *)
Theorem export_inflow_scenario :
  forall (NumberToString : number -> str) (originalDate : str),
    let tx := {| date := "2024-02-01"; payee := "Acme, Inc"; memo := "";
                 amount := of_decimal false 425 (-1); originalDate := originalDate |} in
    YnabExport.toYNABCSV NumberToString [tx] inflow_outflow
    = text_lines
        [ join "," (List.map quoted (strs ["Date"; "Payee"; "Memo"; "Outflow"; "Inflow"]));
          join "," (List.map quoted (strs ["01/02/2024"; "Acme, Inc"; ""; "0"; "42.5"])) ]
    /\ YnabExportPermissive.toYNABCSV NumberToString [tx] inflow_outflow
       = text_lines
           [ lit "Date,Payee,Memo,Outflow,Inflow";
             lit "02/01/2024," +.+ quoted "Acme, Inc" +.+ ",,,42.50" ].
Proof.
  intros NumberToString originalDate tx.
  split; vm_compute; reflexivity.
Qed.

(** The other revision of the exporter prints the same transaction with
    the date as MM/DD/YYYY, the payee alone quoted, the outflow blank and
    the amount with two decimals. *)
Lemma export_inflow_permissive (NumberToString : number -> str) (originalDate : str) :
  YnabExportPermissive.toYNABCSV NumberToString
    [ {| date := "2024-02-01"; payee := "Acme, Inc"; memo := "";
         amount := of_decimal false 425 (-1); originalDate := originalDate |} ]
    inflow_outflow
  = text_lines
      [ lit "Date,Payee,Memo,Outflow,Inflow";
        lit "02/01/2024," +.+ quoted "Acme, Inc" +.+ ",,,42.50" ].
Proof. vm_compute. reflexivity. Qed.

(** ** Replacing single units *)

Lemma search_from_index fuel r st b e :
  rx_search_from fuel r st = Some (b, e) -> (index_of st <= index_of b)%nat.
Proof.
  revert st. induction fuel as [|fuel IH]; intros st; simpl.
  - destruct (rx_at r st); [|done]. intros [= <- _]. lia.
  - destruct (rx_at r st); [intros [= <- _]; lia|].
    unfold step_over. destruct (ahead st) as [|c tl]; [done|].
    intros H. apply IH in H. unfold index_of in *. simpl in H. lia.
Qed.

Lemma search_chr_skip p st c tl :
  ahead st = c :: tl -> p c = false ->
  rx_search (Chr p) st
  = rx_search (Chr p) {| seen := c :: seen st; ahead := tl; caps := [] |}.
Proof.
  intros Ha Hp. unfold rx_search. rewrite Ha. simpl.
  unfold rx_at at 1. simpl. rewrite Ha, Hp.
  unfold step_over. by rewrite Ha.
Qed.

Lemma search_chr_hit p st c tl :
  ahead st = c :: tl -> p c = true ->
  rx_search (Chr p) st
  = Some (st, {| seen := c :: seen st; ahead := tl; caps := caps st |}).
Proof.
  intros Ha Hp. unfold rx_search. apply rx_search_hit.
  unfold rx_at. simpl. by rewrite Ha, Hp.
Qed.

Lemma search_chr_end p st : ahead st = [] -> rx_search (Chr p) st = None.
Proof.
  intros Ha. unfold rx_search. rewrite Ha. simpl. unfold rx_at. simpl. by rewrite Ha.
Qed.

Lemma splice_next from by_ (s : str) c ms :
  skipn from s = c :: skipn (S from) s ->
  match ms with [] => True | (b, _) :: _ => (S from <= index_of b)%nat end ->
  splice from by_ s ms = c :: splice (S from) by_ s ms.
Proof.
  intros Hs. destruct ms as [|[b e] ms]; simpl; [done|].
  intros Hb. rewrite Hs.
  replace (index_of b - from)%nat with (S (index_of b - S from)) by lia.
  done.
Qed.

Lemma all_from_index fuel r st :
  match rx_all_from fuel r st with
  | [] => True
  | (b, _) :: _ => (index_of st <= index_of b)%nat
  end.
Proof.
  destruct fuel as [|fuel]; simpl; [done|].
  destruct (rx_search r st) as [[b e]|] eqn:E; [|done].
  by apply search_from_index in E.
Qed.

Lemma skipn_seen (s : str) sn a c :
  rev sn ++ c :: a = s -> skipn (length sn) s = c :: skipn (S (length sn)) s.
Proof.
  intros <-.
  rewrite (skipn_app (length sn)), skipn_all2 by (rewrite length_rev; lia).
  rewrite (skipn_app (S (length sn))), (skipn_all2 (n := S _)) by (rewrite length_rev; lia).
  rewrite !length_rev. by replace (length sn - length sn)%nat with 0%nat by lia;
    replace (S (length sn) - length sn)%nat with 1%nat by lia.
Qed.

Lemma splice_chr p by_ (s : str) a : forall st fuel,
  ahead st = a -> (length a < fuel)%nat -> rev (seen st) ++ a = s ->
  splice (index_of st) by_ s (rx_all_from fuel (Chr p) st) = substitute p by_ a.
Proof.
  induction a as [|c a IH]; intros st fuel Ha Hf Hs.
  - destruct fuel as [|fuel]; [simpl in Hf; lia|]. simpl.
    rewrite search_chr_end by done. simpl. subst s. unfold index_of.
    rewrite app_nil_r, skipn_all2; [done|by rewrite length_rev].
  - destruct fuel as [|fuel]; [simpl in Hf; lia|].
    unfold substitute. cbn [flat_map]. fold (substitute p by_ a).
    destruct (p c) eqn:Hp.
    + cbn [rx_all_from]. rewrite (search_chr_hit p st c a Ha Hp). rewrite Ha. simpl ahead.
      replace (length a <? length (c :: a))%nat with true
        by (symmetry; apply Nat.ltb_lt; simpl; lia).
      cbn [splice]. rewrite Nat.sub_diag. simpl firstn. simpl app. f_equal.
      set (st' := {| seen := c :: seen st; ahead := a; caps := [] |}).
      change (index_of _) with (index_of st').
      apply (IH st' fuel); [done|simpl in Hf; lia|].
      simpl. rewrite <- Hs. change (rev (c :: seen st)) with (List.rev (seen st) ++ [c]).
      by rewrite <- app_assoc.
    + set (st' := {| seen := c :: seen st; ahead := a; caps := [] |}).
      assert (E : rx_all_from (S fuel) (Chr p) st = rx_all_from (S fuel) (Chr p) st').
      { cbn [rx_all_from]. by rewrite (search_chr_skip p st c a Ha Hp). }
      rewrite E. rewrite (splice_next _ _ _ c).
      * f_equal. change (S (index_of st)) with (index_of st').
        apply (IH st' (S fuel)); [done|simpl in Hf; lia|].
        simpl. rewrite <- Hs. change (rev (c :: seen st)) with (List.rev (seen st) ++ [c]).
        by rewrite <- app_assoc.
      * apply (skipn_seen s (seen st) a c). done.
      * pose proof (all_from_index (S fuel) (Chr p) st') as H.
        destruct (rx_all_from (S fuel) (Chr p) st') as [|[b e] ms]; [done|].
        unfold index_of in *. simpl in H. lia.
Qed.

Lemma replace_all_chr p by_ s : replace_all (Chr p) by_ s = substitute p by_ s.
Proof.
  unfold replace_all, rx_all.
  apply (splice_chr p by_ s s (start_state s) (S (length s))); [done|lia|done].
Qed.

Lemma substitute_nil c s : substitute (ascii_eqb c) [] s = without c s.
Proof.
  induction s as [|x s IH]; [done|]. unfold substitute, without in *. simpl.
  destruct (ascii_eqb c x); simpl; by rewrite IH.
Qed.

Lemma without_without c s : without c (without c s) = without c s.
Proof.
  induction s as [|x s IH]; [done|]. unfold without in *. simpl.
  destruct (ascii_eqb c x) eqn:E; simpl; [done|]. by rewrite E, IH.
Qed.

(** ** Amount fields *)

(** [parseAmount] drops every comma before it reads the number: an empty
    field is zero, any other field is what [parseFloat] makes of the field
    without its commas (so the test for the field [0] changes nothing), and
    a field that keeps a unit besides its commas is read like that field
    written without commas. *)
Theorem parseAmount_strips_commas :
  Adcb.parseAmount [] = zero
  /\ (forall s : str, s <> [] -> Adcb.parseAmount s = parseFloat (without "," s))
  /\ (forall s : str, without "," s <> [] ->
        Adcb.parseAmount s = Adcb.parseAmount (without "," s)).
Proof.
  assert (H : forall s : str, s <> [] -> Adcb.parseAmount s = parseFloat (without "," s)).
  { intros s Hs. unfold Adcb.parseAmount.
    destruct s as [|c s]; [done|]. cbn [truthy negb orb].
    destruct (str_eqb (c :: s) _) eqn:E.
    - apply str_eqb_eq in E. rewrite E. vm_compute. reflexivity.
    - unfold chr. by rewrite replace_all_chr, substitute_nil. }
  split; [done|]. split; [exact H|].
  intros s Hs. rewrite (H (without "," s) Hs), without_without.
  apply H. intros ->. by apply Hs.
Qed.

Lemma parseAmount_strips_commas_witness :
  Adcb.parseAmount "1,234.50" = parseFloat "1234.50"
  /\ Adcb.parseAmount "1,234.50" = Adcb.parseAmount "1234.50".
Proof.
  destruct parseAmount_strips_commas as (_ & H1 & H2).
  split.
  - apply (H1 "1,234.50"). discriminate.
  - apply (H2 "1,234.50"). vm_compute. discriminate.
Defined.

(** ** Reading back what the exporter writes *)

Lemma loop_doubled v rest result current :
  Adcb.parseCSVLine_loop (substitute (ascii_eqb dquote) [dquote; dquote] v ++ rest)
    result current true
  = Adcb.parseCSVLine_loop rest result (current ++ unquote v) true.
Proof.
  revert current. induction v as [|c v IH]; intros current.
  - simpl. by rewrite app_nil_r.
  - unfold substitute, unquote in *. cbn [flat_map List.filter].
    rewrite (ascii_eqb_sym c dquote).
    destruct (ascii_eqb dquote c) eqn:E.
    + cbn [negb]. rewrite <- !app_assoc. cbn [app].
      rewrite doubled_quote_dropped. apply IH.
    + cbn [negb app Adcb.parseCSVLine_loop].
      rewrite (ascii_eqb_sym c dquote), E. cbn [negb andb].
      rewrite andb_false_r. rewrite IH. by rewrite <- app_assoc.
Qed.

Lemma loop_q v rest result current :
  Adcb.parseCSVLine_loop (YnabExport.q v ++ rest) result current false
  = Adcb.parseCSVLine_loop rest result (current ++ unquote v) false.
Proof.
  unfold YnabExport.q, chr. rewrite replace_all_chr.
  cbn [app Adcb.parseCSVLine_loop].
  assert (Hq : ascii_eqb dquote dquote = true) by done.
  rewrite Hq. cbn [negb]. rewrite <- app_assoc, loop_doubled.
  cbn [app Adcb.parseCSVLine_loop]. by rewrite Hq.
Qed.

Lemma loop_comma rest result current :
  Adcb.parseCSVLine_loop (lit "," ++ rest) result current false
  = Adcb.parseCSVLine_loop rest (result ++ [trim current]) [] false.
Proof. done. Qed.

Lemma loop_row (read : str -> str) (write : str -> str) :
  (forall v rest result current,
     Adcb.parseCSVLine_loop (write v ++ rest) result current false
     = Adcb.parseCSVLine_loop rest result (current ++ read v) false) ->
  forall fields v result,
    Adcb.parseCSVLine_loop (join "," (List.map write (v :: fields))) result [] false
    = result ++ List.map (fun f => trim (read f)) (v :: fields).
Proof.
  intros Hw fields. induction fields as [|w fields IH]; intros v result.
  - cbn [List.map join]. rewrite <- (app_nil_r (write v)), Hw. reflexivity.
  - change (join "," (List.map write (v :: w :: fields)))
      with (write v ++ lit "," ++ join "," (List.map write (w :: fields))).
    rewrite Hw, loop_comma, IH. cbn [app List.map]. by rewrite <- app_assoc.
Qed.

Lemma unquote_id (s : str) : mentions dquote s = false -> unquote s = s.
Proof.
  induction s as [|c s IH]; [done|]. unfold unquote, mentions in *.
  cbn [existsb List.filter]. rewrite (ascii_eqb_sym c dquote).
  destruct (ascii_eqb dquote c); cbn [orb negb]; [done|]. intros H. by rewrite IH.
Qed.

Lemma read_row (v : str) (fields : list str) :
  Adcb.parseCSVLine (YnabExport.row (v :: fields))
  = List.map (fun f => trim (unquote f)) (v :: fields).
Proof.
  unfold Adcb.parseCSVLine, YnabExport.row.
  by rewrite (loop_row unquote YnabExport.q loop_q).
Qed.

(** The tokenizer of the statements reads a row of the exporter back:
    every field written by [q] comes back as one field, without its double
    quotes and trimmed, whatever commas it holds; fields that are trimmed
    and hold no double quote come back as they were. *)
Theorem tokenizer_reads_exported_row (v : str) (fields : list str) :
  Adcb.parseCSVLine (YnabExport.row (v :: fields))
  = List.map (fun f => trim (unquote f)) (v :: fields)
  /\ (Forall (fun f => trim f = f /\ mentions dquote f = false) (v :: fields) ->
      Adcb.parseCSVLine (YnabExport.row (v :: fields)) = v :: fields).
Proof.
  pose proof (read_row v fields) as H.
  split; [exact H|]. intros Hf. rewrite H. clear H.
  induction Hf as [|f l [Ht Hq] _ IH]; [done|].
  cbn [List.map]. f_equal; [|exact IH]. by rewrite (unquote_id f Hq).
Qed.

Lemma tokenizer_reads_exported_row_witness :
  Adcb.parseCSVLine (YnabExport.row (strs ["01/02/2024"; "Acme, Inc"; ""; "0"; "42.5"]))
  = strs ["01/02/2024"; "Acme, Inc"; ""; "0"; "42.5"].
Proof.
  apply (tokenizer_reads_exported_row "01/02/2024" (strs ["Acme, Inc"; ""; "0"; "42.5"])).
  repeat constructor.
Defined.

Lemma includes_unit (s : str) c : includes s [c] = mentions c s.
Proof.
  induction s as [|x s IH]; [done|]. unfold mentions in *. cbn [includes startsWith existsb].
  replace (startsWith s []) with true by (by destruct s).
  by rewrite IH, andb_true_r.
Qed.

Lemma loop_plain v rest result current :
  mentions "," v = false -> mentions dquote v = false ->
  Adcb.parseCSVLine_loop (v ++ rest) result current false
  = Adcb.parseCSVLine_loop rest result (current ++ v) false.
Proof.
  revert current. induction v as [|c v IH]; intros current Hc Hq.
  - by rewrite app_nil_r.
  - unfold mentions in Hc, Hq. cbn [existsb] in Hc, Hq.
    apply orb_false_elim in Hc as [Hc Hc'], Hq as [Hq Hq'].
    cbn [app Adcb.parseCSVLine_loop].
    rewrite (ascii_eqb_sym c dquote), Hq, (ascii_eqb_sym c ","), Hc. cbn [andb].
    rewrite IH by done. by rewrite <- app_assoc.
Qed.

Lemma loop_escapeCSV v rest result current :
  Adcb.parseCSVLine_loop (YnabExportPermissive.escapeCSV v ++ rest) result current false
  = Adcb.parseCSVLine_loop rest result (current ++ unquote v) false.
Proof.
  unfold YnabExportPermissive.escapeCSV.
  change (lit ",") with [","%char]. rewrite !includes_unit.
  destruct (mentions "," v) eqn:Hc; [apply loop_q|].
  destruct (mentions dquote v) eqn:Hq; [apply loop_q|].
  destruct (mentions nl v); [apply loop_q|].
  cbn [orb]. rewrite loop_plain by done. by rewrite unquote_id.
Qed.

(** The same holds for the revision that quotes a field only when it holds
    a comma, a double quote or a line feed: the tokenizer reads a row of
    escaped fields back field by field, without the double quotes and
    trimmed, and a field that is trimmed and holds no double quote comes
    back as it was. *)
Theorem tokenizer_reads_escaped_row (v : str) (fields : list str) :
  Adcb.parseCSVLine (join "," (List.map YnabExportPermissive.escapeCSV (v :: fields)))
  = List.map (fun f => trim (unquote f)) (v :: fields)
  /\ (Forall (fun f => trim f = f /\ mentions dquote f = false) (v :: fields) ->
      Adcb.parseCSVLine (join "," (List.map YnabExportPermissive.escapeCSV (v :: fields)))
      = v :: fields).
Proof.
  assert (H : Adcb.parseCSVLine
                (join "," (List.map YnabExportPermissive.escapeCSV (v :: fields)))
              = List.map (fun f => trim (unquote f)) (v :: fields)).
  { unfold Adcb.parseCSVLine.
    by rewrite (loop_row unquote YnabExportPermissive.escapeCSV loop_escapeCSV). }
  split; [exact H|]. intros Hf. rewrite H. clear H.
  induction Hf as [|f l [Ht Hq] _ IH]; [done|].
  cbn [List.map]. f_equal; [|exact IH]. by rewrite (unquote_id f Hq).
Qed.

Lemma tokenizer_reads_escaped_row_witness :
  Adcb.parseCSVLine
    (join "," (List.map YnabExportPermissive.escapeCSV (strs ["Acme, Inc"; ""; "42.50"])))
  = strs ["Acme, Inc"; ""; "42.50"].
Proof.
  apply (tokenizer_reads_escaped_row "Acme, Inc" (strs [""; "42.50"])).
  repeat constructor.
Defined.

(** ** The tokenizer on lines without quotes *)

Lemma loop_split line :
  mentions dquote line = false ->
  forall result cur,
    Adcb.parseCSVLine_loop line result (rev cur) false
    = result ++ List.map trim (split_aux "," cur line).
Proof.
  induction line as [|c line IH]; intros Hq result cur; [done|].
  unfold mentions in Hq. cbn [existsb] in Hq. apply orb_false_elim in Hq as [Hq Hq'].
  cbn [Adcb.parseCSVLine_loop split_aux].
  rewrite (ascii_eqb_sym c dquote), Hq. cbn [negb andb].
  rewrite andb_true_r. destruct (ascii_eqb c ",").
  - etransitivity; [exact (IH Hq' (result ++ [trim (rev cur)]) [])|].
    cbn [List.map]. by rewrite <- app_assoc.
  - change (rev cur ++ [c]) with (rev (c :: cur)). by rewrite IH.
Qed.

(** On a line without double quotes the tokenizer is [split(',')] followed
    by [trim] on every piece; it yields one field more than the line has
    commas. *)
Theorem tokenizer_splits_unquoted (line : str) :
  mentions dquote line = false ->
  Adcb.parseCSVLine line = List.map trim (split "," line)
  /\ length (Adcb.parseCSVLine line) = S (occurrences "," line).
Proof.
  intros Hq.
  assert (H : Adcb.parseCSVLine line = List.map trim (split "," line)).
  { unfold Adcb.parseCSVLine, split. exact (loop_split line Hq [] []). }
  split; [exact H|]. rewrite H, length_map. apply split_aux_length.
Qed.

Lemma tokenizer_splits_unquoted_witness :
  Adcb.parseCSVLine "01/02/2024, R1 ,,15.00" = List.map trim (split "," "01/02/2024, R1 ,,15.00")
  /\ length (Adcb.parseCSVLine "01/02/2024, R1 ,,15.00") = 4%nat.
Proof. apply (tokenizer_splits_unquoted "01/02/2024, R1 ,,15.00"). reflexivity. Defined.

(** ** Dates through the exporter *)

Lemma padStart_long (s : str) c : (2 <= length s)%nat -> padStart 2 c s = s.
Proof.
  intros H. unfold padStart. by replace (2 - length s)%nat with 0%nat by lia.
Qed.

Lemma formatDate_parts (yyyy mm dd : str) :
  mentions "-" yyyy = false -> mentions "-" mm = false -> mentions "-" dd = false ->
  YnabExport.formatDate (yyyy ++ lit "-" ++ mm ++ lit "-" ++ dd)
  = dd ++ lit "/" ++ mm ++ lit "/" ++ yyyy
  /\ YnabExportPermissive.formatDate (yyyy ++ lit "-" ++ mm ++ lit "-" ++ dd)
     = mm ++ lit "/" ++ dd ++ lit "/" ++ yyyy.
Proof.
  intros Hy Hm Hd. unfold YnabExport.formatDate, YnabExportPermissive.formatDate, split.
  change (lit "-" ++ mm ++ lit "-" ++ dd) with ("-"%char :: mm ++ "-"%char :: dd).
  rewrite split_aux_app by done.
  rewrite split_aux_app by done.
  rewrite split_aux_piece by done.
  done.
Qed.

(** [formatDate] takes a text with three parts between two hyphens apart,
    whatever the parts are, and writes them day first (month first in the
    other revision); a text that has not exactly two hyphens is returned as
    it is. *)
Theorem formatDate_parts_or_unchanged :
  (forall yyyy mm dd : str,
     mentions "-" yyyy = false -> mentions "-" mm = false -> mentions "-" dd = false ->
     YnabExport.formatDate (yyyy ++ lit "-" ++ mm ++ lit "-" ++ dd)
     = dd ++ lit "/" ++ mm ++ lit "/" ++ yyyy
     /\ YnabExportPermissive.formatDate (yyyy ++ lit "-" ++ mm ++ lit "-" ++ dd)
        = mm ++ lit "/" ++ dd ++ lit "/" ++ yyyy)
  /\ (forall s : str,
        occurrences "-" s <> 2%nat ->
        YnabExport.formatDate s = s /\ YnabExportPermissive.formatDate s = s).
Proof.
  split; [exact formatDate_parts|].
  intros s H. unfold YnabExport.formatDate, YnabExportPermissive.formatDate.
  pose proof (split_aux_length "-" [] s) as Hlen. fold (split "-" s) in Hlen.
  destruct (split "-" s) as [|a [|b [|c [|d l]]]]; try done.
  simpl in Hlen. congruence.
Qed.

Lemma formatDate_parts_or_unchanged_witness :
  YnabExport.formatDate "2024-2-1" = "1/2/2024"
  /\ YnabExportPermissive.formatDate "2024-2-1" = "2/1/2024"
  /\ YnabExport.formatDate "01/02/2024" = "01/02/2024".
Proof.
  destruct formatDate_parts_or_unchanged as [Hparts Hkeep].
  destruct (Hparts "2024" "2" "1") as [H1 H2]; try reflexivity.
  split; [exact H1|]. split; [exact H2|].
  apply (Hkeep "01/02/2024"). vm_compute. discriminate.
Defined.

(** The exporter undoes the date normaliser of the statements: a date
    D/M/Y whose day and month have two units or more, normalised by
    [parseDDMMYYYY] and printed by [formatDate], is the date of the
    statement again (with day and month exchanged in the revision that
    prints the month first), and normalising a printed date gives the
    date back. *)
Theorem export_date_round_trip (dd mm yyyy : str) :
  Forall (fun part => mentions "/" part = false /\ mentions "-" part = false) [dd; mm; yyyy] ->
  (2 <= length dd)%nat -> (2 <= length mm)%nat ->
  YnabExport.formatDate (Adcb.parseDDMMYYYY (dd ++ lit "/" ++ mm ++ lit "/" ++ yyyy))
  = dd ++ lit "/" ++ mm ++ lit "/" ++ yyyy
  /\ YnabExportPermissive.formatDate
       (Adcb.parseDDMMYYYY (dd ++ lit "/" ++ mm ++ lit "/" ++ yyyy))
     = mm ++ lit "/" ++ dd ++ lit "/" ++ yyyy
  /\ Adcb.parseDDMMYYYY (YnabExport.formatDate (yyyy ++ lit "-" ++ mm ++ lit "-" ++ dd))
     = yyyy ++ lit "-" ++ mm ++ lit "-" ++ dd.
Proof.
  intros H Hd Hm.
  apply Forall_cons in H as [[Hd1 Hd2] H].
  apply Forall_cons in H as [[Hm1 Hm2] H].
  apply Forall_cons in H as [[Hy1 Hy2] _].
  rewrite parseDDMMYYYY_parts by done.
  rewrite !padStart_long by done.
  destruct (formatDate_parts yyyy mm dd) as [-> ->]; try done.
  split; [done|]. split; [done|].
  rewrite parseDDMMYYYY_parts by done.
  by rewrite !padStart_long.
Qed.

Lemma export_date_round_trip_witness :
  YnabExport.formatDate (Adcb.parseDDMMYYYY "01/02/2024") = "01/02/2024"
  /\ YnabExportPermissive.formatDate (Adcb.parseDDMMYYYY "01/02/2024") = "02/01/2024"
  /\ Adcb.parseDDMMYYYY (YnabExport.formatDate "2024-02-01") = "2024-02-01".
Proof.
  apply (export_date_round_trip "01" "02" "2024"); [repeat constructor|simpl; lia..].
Defined.

(** ** Dates of the ADCB transactions *)

Lemma runs_ddmmyyyy b e :
  runs ddmmyyyy b e ->
  exists dd mm yyyy,
    length dd = 2%nat /\ length mm = 2%nat /\ length yyyy = 4%nat
    /\ Forall (fun c => is_digit c = true) (dd ++ mm ++ yyyy)
    /\ passes b (dd ++ lit "/" ++ mm ++ lit "/" ++ yyyy) e.
Proof.
  intros H. unfold ddmmyyyy in H. cbn [seqs] in H.
  apply runs_seq_inv in H as (s1 & (dd & Ldd & Hdd & Pdd)%runs_times_chr & H).
  apply runs_seq_inv in H as (s2 & (c1 & Hc1 & Pc1)%runs_chr_inv & H).
  apply runs_seq_inv in H as (s3 & (mm & Lmm & Hmm & Pmm)%runs_times_chr & H).
  apply runs_seq_inv in H as (s4 & (c2 & Hc2 & Pc2)%runs_chr_inv
                                 & (yyyy & Lyyyy & Hyyyy & Pyyyy)%runs_times_chr).
  apply Ascii.eqb_eq in Hc1 as <-, Hc2 as <-.
  exists dd, mm, yyyy.
  split; [done|]. split; [done|]. split; [done|]. split.
  - rewrite !Forall_app. done.
  - apply (passes_app _ _ _ _ _ Pdd).
    apply (passes_app _ _ _ _ _ Pc1).
    apply (passes_app _ _ _ _ _ Pmm).
    apply (passes_app _ _ _ _ _ Pc2 Pyyyy).
Qed.

Lemma digits_not_unit c (s : str) :
  is_digit c = false -> Forall (fun x => is_digit x = true) s -> mentions c s = false.
Proof.
  intros Hc. induction 1 as [|x s Hx _ IH]; [done|].
  unfold mentions in *. cbn [existsb]. rewrite IH, orb_false_r.
  destruct (ascii_eqb c x) eqn:E; [|done].
  apply Ascii.eqb_eq in E as <-. congruence.
Qed.

Lemma strict_date_parse (original iso : str) :
  strict_date original iso ->
  Adcb.parseDDMMYYYY original = iso /\ YnabExport.formatDate iso = original.
Proof.
  intros [dd mm yyyy Ldd Lmm Lyyyy H].
  apply Forall_app in H as [Hdd H]. apply Forall_app in H as [Hmm Hyyyy].
  split.
  - rewrite parseDDMMYYYY_parts by (by apply digits_not_unit).
    rewrite !padStart_long by lia. done.
  - by destruct (formatDate_parts yyyy mm dd) as [-> _]; try by apply digits_not_unit.
Qed.

Lemma test_date_only (s : str) :
  rx_test Adcb.date_only s = true -> strict_date s (Adcb.parseDDMMYYYY s).
Proof.
  unfold rx_test, rx_exec.
  destruct (rx_search Adcb.date_only (start_state s)) as [[b e]|] eqn:Hsearch; [|done].
  intros _.
  apply rx_search_spec in Hsearch as (j & -> & He & _).
  apply rx_match_sound in He as (e' & Hruns & [= ->]).
  unfold Adcb.date_only in Hruns. cbn [seqs] in Hruns.
  apply runs_seq_inv in Hruns as (s1 & Hbol & H).
  apply runs_seq_inv in H as (s2 & Hdate & Heol).
  inversion Hbol as [| | | | | | | |s0 Hseen|  |]; subst.
  inversion Heol as [| | | | | | | | |s0 Hahead|]; subst.
  apply runs_ddmmyyyy in Hdate as (dd & mm & yyyy & Ldd & Lmm & Lyyyy & Hd & Pa & _).
  simpl in Hseen, Pa. rewrite Hahead, app_nil_r in Pa.
  assert (Hs : s = dd ++ lit "/" ++ mm ++ lit "/" ++ yyyy).
  { rewrite <- (take_drop j s), Pa.
    apply (f_equal (@List.rev ascii)) in Hseen. rewrite rev_involutive in Hseen.
    by rewrite Hseen. }
  pose proof (StrictDate dd mm yyyy Ldd Lmm Lyyyy Hd) as Hstrict.
  rewrite Hs. by rewrite (proj1 (strict_date_parse _ _ Hstrict)).
Qed.

Lemma account_row_date line tx :
  Adcb.account_row line = Some tx ->
  strict_date (originalDate tx) (date tx) /\ memo tx = [].
Proof.
  unfold Adcb.account_row.
  destruct (Adcb.parseCSVLine line) as [|f1 [|f2 [|f3 [|f4 [|f5 [|f6 more]]]]]]; try done.
  destruct (truthy f1); [|done]. cbn [negb orb].
  destruct (rx_test Adcb.date_only f1) eqn:Hdate; [|done]. cbn [negb].
  destruct (_ && _); [done|].
  intros [= <-]. cbn [originalDate date memo]. split; [|done].
  by apply test_date_only.
Qed.

Lemma creditcard_row_date line tx :
  Adcb.creditcard_row line = Some tx ->
  strict_date (originalDate tx) (date tx) /\ memo tx = [].
Proof.
  unfold Adcb.creditcard_row.
  destruct (Adcb.parseCSVLine line) as [|f1 [|f2 [|f3 [|f4 more]]]]; try done.
  destruct (_ || _); [done|].
  destruct (truthy f1); [|done]. cbn [negb orb].
  destruct (rx_test Adcb.date_only f1) eqn:Hdate; [|done]. cbn [negb].
  destruct (num_eq _ _); [done|].
  intros [= <-]. cbn [originalDate date memo]. split; [|done].
  by apply test_date_only.
Qed.

Lemma adcb_transactions_of_rows content :
  (exists rows, transactions (Adcb.parseADCBAccount content) = omap Adcb.account_row rows)
  /\ (exists rows,
        transactions (Adcb.parseADCBCreditCard content) = omap Adcb.creditcard_row rows).
Proof.
  split.
  - unfold Adcb.parseADCBAccount.
    destruct (Adcb.account_header _ _ _) as [md [i|]]; [by eexists|by exists []].
  - unfold Adcb.parseADCBCreditCard.
    destruct (Adcb.creditcard_header _ _ _) as [md [i|]]; [by eexists|by exists []].
Qed.

(** Every transaction of the two ADCB parsers keeps the date of its row,
    which is a strict DD/MM/YYYY date, carries the same date as YYYY-MM-DD,
    and has an empty memo; the exporter prints the date of the row again. *)
Theorem adcb_dates_are_canonical (content : str) (tx : Transaction) :
  tx ∈ transactions (Adcb.parseADCBAccount content)
  \/ tx ∈ transactions (Adcb.parseADCBCreditCard content) ->
  strict_date (originalDate tx) (date tx)
  /\ memo tx = []
  /\ YnabExport.formatDate (date tx) = originalDate tx.
Proof.
  intros H.
  assert (Hrow : strict_date (originalDate tx) (date tx) /\ memo tx = []).
  { destruct (adcb_transactions_of_rows content) as [[rows Ha] [rows' Hc]].
    destruct H as [H|H].
    - rewrite Ha in H. apply list_elem_of_omap in H as (line & _ & Hrow).
      by apply (account_row_date line).
    - rewrite Hc in H. apply list_elem_of_omap in H as (line & _ & Hrow).
      by apply (creditcard_row_date line). }
  destruct Hrow as [Hd Hm]. split; [done|]. split; [done|].
  by apply strict_date_parse.
Qed.

Lemma adcb_dates_are_canonical_witness :
  strict_date "01/02/2024" "2024-02-01"
  /\ YnabExport.formatDate "2024-02-01" = "01/02/2024".
Proof.
  pose (tx := {| date := "2024-02-01"; payee := "Coffee Shop"; memo := "";
                 amount := of_Z (-15); originalDate := "01/02/2024" |}).
  destruct (adcb_dates_are_canonical coffee_shop_statement tx) as (H1 & _ & H2).
  - left. vm_compute. left.
  - split; [exact H1|exact H2].
Defined.

(** ** The header row of an ADCB statement *)

Lemma account_header_found pre h post :
  Forall (fun l => account_header_row l = false) pre ->
  account_header_row h = true ->
  forall i md, snd (Adcb.account_header (pre ++ h :: post) i md) = Some (i + length pre)%nat.
Proof.
  intros Hpre Hh. induction Hpre as [|l pre Hl _ IH]; intros i md.
  - cbn [app Adcb.account_header]. fold (account_header_row h). rewrite Hh.
    cbn [snd length]. f_equal. lia.
  - cbn [app Adcb.account_header]. fold (account_header_row l). rewrite Hl.
    rewrite IH. cbn [length]. f_equal. lia.
Qed.

Lemma account_header_none lines :
  Forall (fun l => account_header_row l = false) lines ->
  forall i md, snd (Adcb.account_header lines i md) = None.
Proof.
  induction 1 as [|l lines Hl _ IH]; intros i md; [done|].
  cbn [Adcb.account_header]. fold (account_header_row l). rewrite Hl. apply IH.
Qed.

Lemma creditcard_header_found pre h post :
  Forall (fun l => creditcard_header_row l = false) pre ->
  creditcard_header_row h = true ->
  forall i md,
    snd (Adcb.creditcard_header (pre ++ h :: post) i md) = Some (i + length pre)%nat.
Proof.
  intros Hpre Hh. induction Hpre as [|l pre Hl _ IH]; intros i md.
  - cbn [app Adcb.creditcard_header]. fold (creditcard_header_row h). rewrite Hh.
    cbn [snd length]. f_equal. lia.
  - cbn [app Adcb.creditcard_header]. fold (creditcard_header_row l). rewrite Hl.
    rewrite IH. cbn [length]. f_equal. lia.
Qed.

Lemma creditcard_header_none lines :
  Forall (fun l => creditcard_header_row l = false) lines ->
  forall i md, snd (Adcb.creditcard_header lines i md) = None.
Proof.
  induction 1 as [|l lines Hl _ IH]; intros i md; [done|].
  cbn [Adcb.creditcard_header]. fold (creditcard_header_row l). rewrite Hl. apply IH.
Qed.

Lemma skipn_past {A} (pre : list A) h post :
  skipn (length pre + 1) (pre ++ h :: post) = post.
Proof.
  replace (length pre + 1)%nat with (length (pre ++ [h]))
    by (rewrite length_app; simpl; lia).
  replace (pre ++ h :: post) with ((pre ++ [h]) ++ post) by (by rewrite <- app_assoc).
  by rewrite skipn_app, skipn_all, Nat.sub_diag.
Qed.

(** The transactions of an ADCB statement are the rows after the first
    header row, and only those: the lines up to the header are never read
    as rows.  Without a header row there is no transaction and the one
    error says so. *)
Theorem adcb_rows_follow_header (content : str) :
  (forall pre h post,
     Adcb.content_lines content = pre ++ h :: post ->
     Forall (fun l => account_header_row l = false) pre ->
     account_header_row h = true ->
     transactions (Adcb.parseADCBAccount content) = omap Adcb.account_row post
     /\ errors (Adcb.parseADCBAccount content) = [])
  /\ (Forall (fun l => account_header_row l = false) (Adcb.content_lines content) ->
      transactions (Adcb.parseADCBAccount content) = []
      /\ errors (Adcb.parseADCBAccount content)
         = [lit "Could not find header row in ADCB account statement"])
  /\ (forall pre h post,
        Adcb.content_lines content = pre ++ h :: post ->
        Forall (fun l => creditcard_header_row l = false) pre ->
        creditcard_header_row h = true ->
        transactions (Adcb.parseADCBCreditCard content) = omap Adcb.creditcard_row post
        /\ errors (Adcb.parseADCBCreditCard content) = [])
  /\ (Forall (fun l => creditcard_header_row l = false) (Adcb.content_lines content) ->
      transactions (Adcb.parseADCBCreditCard content) = []
      /\ errors (Adcb.parseADCBCreditCard content)
         = [lit "Could not find header row in ADCB credit card statement"]).
Proof.
  split; [|split; [|split]].
  - intros pre h post Hlines Hpre Hh. unfold Adcb.parseADCBAccount.
    pose proof (account_header_found pre h post Hpre Hh 0 ∅) as H.
    rewrite <- Hlines in H.
    destruct (Adcb.account_header _ _ _) as [md o]. simpl in H. subst o.
    cbn [transactions errors]. rewrite Hlines. by rewrite skipn_past.
  - intros Hall. unfold Adcb.parseADCBAccount.
    pose proof (account_header_none _ Hall 0 ∅) as H.
    destruct (Adcb.account_header _ _ _) as [md o]. simpl in H. by subst o.
  - intros pre h post Hlines Hpre Hh. unfold Adcb.parseADCBCreditCard.
    pose proof (creditcard_header_found pre h post Hpre Hh 0 ∅) as H.
    rewrite <- Hlines in H.
    destruct (Adcb.creditcard_header _ _ _) as [md o]. simpl in H. subst o.
    cbn [transactions errors]. rewrite Hlines. by rewrite skipn_past.
  - intros Hall. unfold Adcb.parseADCBCreditCard.
    pose proof (creditcard_header_none _ Hall 0 ∅) as H.
    destruct (Adcb.creditcard_header _ _ _) as [md o]. simpl in H. by subst o.
Qed.

Lemma adcb_rows_follow_header_witness :
  transactions (Adcb.parseADCBAccount coffee_shop_statement)
  = omap Adcb.account_row
      [lit "01/02/2024,01/02/2024,R1," +.+ quoted "Coffee Shop" +.+ ",15.00,0"]
  /\ errors (Adcb.parseADCBAccount "Account Number: 123")
     = [lit "Could not find header row in ADCB account statement"]
  /\ errors (Adcb.parseADCBCreditCard "Transaction Date,Description,Cr/Dr,Amount in AED") = []
  /\ errors (Adcb.parseADCBCreditCard "Account Number: 123")
     = [lit "Could not find header row in ADCB credit card statement"].
Proof.
  split; [|split; [|split]].
  - destruct (adcb_rows_follow_header coffee_shop_statement) as (H & _).
    apply (H [lit "Account Number: 123"]
             (lit "Posting Date,Value Date,Ref,Description,Debit,Credit")
             [lit "01/02/2024,01/02/2024,R1," +.+ quoted "Coffee Shop" +.+ ",15.00,0"]);
      [reflexivity|by repeat constructor|reflexivity].
  - destruct (adcb_rows_follow_header "Account Number: 123") as (_ & H & _).
    apply H. by repeat constructor.
  - destruct (adcb_rows_follow_header "Transaction Date,Description,Cr/Dr,Amount in AED")
      as (_ & _ & H & _).
    apply (H [] (lit "Transaction Date,Description,Cr/Dr,Amount in AED") []);
      [reflexivity|by constructor|reflexivity].
  - destruct (adcb_rows_follow_header "Account Number: 123") as (_ & _ & _ & H).
    apply H. by repeat constructor.
Defined.

(** ** Blank statements *)

Lemma trimStart_blank (s : str) :
  Forall (fun c => is_space c = true) s -> trimStart s = [].
Proof. induction 1 as [|c s Hc _ IH]; [done|]. simpl. by rewrite Hc. Qed.

Lemma trim_blank (s : str) : Forall (fun c => is_space c = true) s -> trim s = [].
Proof. intros H. unfold trim. by rewrite trimStart_blank. Qed.

Lemma split_aux_Forall (P : ascii -> Prop) sep (s : str) :
  Forall P s -> forall cur, Forall P cur -> Forall (Forall P) (split_aux sep cur s).
Proof.
  induction 1 as [|c s Hc _ IH]; intros cur Hcur; cbn [split_aux].
  - constructor; [|done]. by apply Forall_rev.
  - destruct (ascii_eqb c sep).
    + constructor; [by apply Forall_rev|]. by apply IH.
    + apply IH. by constructor.
Qed.

Lemma blank_content_lines (content : str) :
  Forall (fun c => is_space c = true) content -> Adcb.content_lines content = [].
Proof.
  intros H. unfold Adcb.content_lines, split.
  pose proof (split_aux_Forall _ nl content H [] (List.Forall_nil _)) as Hpieces.
  induction Hpieces as [|piece pieces Hp _ IH]; [done|].
  cbn [List.map List.filter]. by rewrite trim_blank.
Qed.

(** A statement file that holds white space only, or nothing, is answered
    with the Unknown result and the message of the CSV route: no variant is
    detected, and the call neither rejects nor reports an ADCB result. *)
Theorem blank_statement_is_unknown (file : File) (content : str) :
  endsWith (toLowerCase (name file)) ".csv" = true ->
  text_of file = Resolved content ->
  Forall (fun c => is_space c = true) content ->
  Adcb.detectADCBType content = None
  /\ Orchestrator.parseFile file
     = Resolved (Orchestrator.unknown
         "Could not detect CSV statement type. Currently supports ADCB account and credit card statements.").
Proof.
  intros Hname Htext Hblank.
  assert (Hd : Adcb.detectADCBType content = None).
  { unfold Adcb.detectADCBType. by rewrite blank_content_lines. }
  split; [done|].
  unfold Orchestrator.parseFile. rewrite Hname.
  unfold Orchestrator.parseCSVFile. rewrite Htext. cbn [mbind promise_bind]. by rewrite Hd.
Qed.

Lemma blank_statement_is_unknown_witness :
  Orchestrator.parseFile
    {| name := "Statement.CSV"; text_of := Resolved (lit "  " ++ [nl] ++ lit " ");
       pdf := Rejected "Invalid PDF structure." |}
  = Resolved (Orchestrator.unknown
      "Could not detect CSV statement type. Currently supports ADCB account and credit card statements.").
Proof.
  apply (blank_statement_is_unknown
           {| name := "Statement.CSV"; text_of := Resolved (lit "  " ++ [nl] ++ lit " ");
              pdf := Rejected "Invalid PDF structure." |}
           (lit "  " ++ [nl] ++ lit " ")); [reflexivity|reflexivity|by repeat constructor].
Defined.

(** ** When the entry point rejects *)

(** [parseFile] rejects exactly when reading the text of a CSV file
    rejects, or when the detection pass on a PDF file cannot open the
    document or obtain the text of its first page; the message is that of
    the fault.  A fault on a later page, or one that the bank parser meets
    again, never rejects the call. *)
Theorem parseFile_rejection_causes (file : File) (message : str) :
  Orchestrator.parseFile file = Rejected message
  <-> (endsWith (toLowerCase (name file)) ".csv" = true
       /\ text_of file = Rejected message)
      \/ (endsWith (toLowerCase (name file)) ".csv" = false
          /\ endsWith (toLowerCase (name file)) ".pdf" = true
          /\ (pdf file = Rejected message
              \/ exists doc, pdf file = Resolved doc
                             /\ Orchestrator.first_page doc = Rejected message)).
Proof.
  unfold Orchestrator.parseFile.
  destruct (endsWith (toLowerCase (name file)) ".csv") eqn:Hcsv.
  - unfold Orchestrator.parseCSVFile.
    destruct (text_of file) as [content|m]; cbn [mbind promise_bind].
    + split.
      * destruct (Adcb.detectADCBType content) as [[]|]; discriminate.
      * intros [[_ [=]]|[[=] _]].
    + split; [intros [= ->]; by left|]. by intros [[_ [= ->]]|[[=] _]].
  - destruct (endsWith (toLowerCase (name file)) ".pdf") eqn:Hpdf.
    + unfold Orchestrator.parsePDFFile.
      destruct (pdf file) as [doc|m]; cbn [mbind promise_bind].
      * destruct (Orchestrator.first_page doc) as [items|m] eqn:Hpage;
          cbn [mbind promise_bind].
        -- split.
           ++ destruct (bank_parsers_resolve file) as [[r1 H1] [r2 H2]].
              destruct (Enbd.detectENBDType _) as [[]|]; rewrite ?H1, ?H2; discriminate.
           ++ intros [[[=] _]|(_ & _ & [[=]|(doc' & [= <-] & H)])]. congruence.
        -- split.
           ++ intros [= ->]. right. split; [done|]. split; [done|]. right. by exists doc.
           ++ intros [[[=] _]|(_ & _ & [[=]|(doc' & [= <-] & H)])]. congruence.
      * split.
        -- intros [= ->]. right. split; [done|]. split; [done|]. by left.
        -- intros [[[=] _]|(_ & _ & [[= ->]|(doc' & [=] & _)])]. done.
    + split; [discriminate|]. intros [[[=] _]|(_ & [=] & _)].
Qed.

(** ** A fault on a page *)

Lemma extract_page_fault (file : File) pre message post :
  pdf file = Resolved (pre ++ Rejected message :: post) ->
  Forall (fun page => exists items, page = Resolved items) pre ->
  Enbd.extractTextFromPDF file = Rejected message.
Proof.
  intros Hpdf Hpre. unfold Enbd.extractTextFromPDF. rewrite Hpdf.
  cbn [mbind promise_bind]. clear Hpdf.
  induction Hpre as [|page pre [items ->] _ IH]; [done|].
  cbn [app mapM mbind promise_bind] in *. by rewrite IH.
Qed.

Lemma extract_pages (file : File) (pages : list (list TextItem)) :
  pdf file = Resolved (List.map Resolved pages) ->
  Enbd.extractTextFromPDF file = Resolved (List.map Enbd.page_text pages).
Proof.
  intros Hpdf. unfold Enbd.extractTextFromPDF. rewrite Hpdf.
  cbn [mbind promise_bind]. clear Hpdf.
  induction pages as [|items pages IH]; [done|].
  cbn [List.map mapM mbind promise_bind mret promise_ret] in *. by rewrite IH.
Qed.

(** The extraction reads the pages in order.  When all of them can be
    read it gives one text for each page; the first page that cannot be
    read rejects it with the fault of that page, and the two bank parsers
    then report that fault alone: the transactions of the pages before it
    are not returned. *)
Theorem page_fault_discards_statement (file : File) :
  (forall pages : list (list TextItem),
     pdf file = Resolved (List.map Resolved pages) ->
     Enbd.extractTextFromPDF file = Resolved (List.map Enbd.page_text pages))
  /\ (forall pre message post,
        pdf file = Resolved (pre ++ Rejected message :: post) ->
        Forall (fun page => exists items, page = Resolved items) pre ->
        Enbd.extractTextFromPDF file = Rejected message
        /\ Enbd.parseENBDAccount file
           = Resolved {| bankName := "Emirates NBD"; statementType := "Account Statement";
                         transactions := []; metadata := ∅;
                         errors := [lit "PDF parsing error: " +.+ message] |}
        /\ Enbd.parseENBDCreditCard file
           = Resolved {| bankName := "Emirates NBD";
                         statementType := "Credit Card Statement";
                         transactions := []; metadata := ∅;
                         errors := [lit "PDF parsing error: " +.+ message] |}).
Proof.
  split; [exact (extract_pages file)|].
  intros pre message post Hpdf Hpre.
  pose proof (extract_page_fault file pre message post Hpdf Hpre) as H.
  split; [done|].
  unfold Enbd.parseENBDAccount, Enbd.parseENBDCreditCard. by rewrite H.
Qed.

Lemma page_fault_discards_statement_witness :
  let file := {| name := "statement.pdf"; text_of := Resolved [];
                 pdf := Resolved [Resolved table_row; Rejected "Page 2 is damaged."] |} in
  Enbd.extractTextFromPDF file = Rejected "Page 2 is damaged."
  /\ Enbd.extractTextFromPDF
       {| name := "statement.pdf"; text_of := Resolved [];
          pdf := Resolved [Resolved table_row] |}
     = Resolved [Enbd.page_text table_row].
Proof.
  intros file. split.
  - destruct (page_fault_discards_statement file) as [_ H].
    apply (H [Resolved table_row] "Page 2 is damaged." []); [reflexivity|].
    repeat constructor. by eexists.
  - destruct (page_fault_discards_statement
                {| name := "statement.pdf"; text_of := Resolved [];
                   pdf := Resolved [Resolved table_row] |}) as [H _].
    apply (H [table_row]). reflexivity.
Defined.

(** ** The upload zone and the routing of the entry point *)

Lemma validateFiles_valid files :
  let valid :=
    List.filter
      (fun file =>
         let name := toLowerCase (name file) in
         endsWith name ".csv" || endsWith name ".pdf"
         || endsWith name ".xlsx" || endsWith name ".xls")
      files in
  FileUploadZone.validateFiles files
  = (valid, if (length valid =? 0)%nat
            then Some (lit "Only CSV, PDF, and XLSX files are supported.") else None).
Proof.
  intros valid. unfold FileUploadZone.validateFiles. fold valid.
  destruct valid; reflexivity.
Qed.

(** The upload zone and the entry point agree on the files they take: a
    file that [validateFiles] keeps is routed by [parseFile] to the CSV,
    the PDF or the spreadsheet parser, and a file that it drops is one that
    [parseFile] answers with Unsupported file type.  The error of the zone
    is set exactly when no file is kept, and [handleDrop] hands over the
    kept files, never an empty list, and nothing while a run is in
    progress. *)
Theorem upload_zone_agrees_with_routing (xlsx : File -> promise ParseResult)
    (files : list File) :
  (forall f, f ∈ fst (FileUploadZone.validateFiles files) -> f ∈ files /\ routed xlsx f)
  /\ (forall f, f ∈ files -> f ∉ fst (FileUploadZone.validateFiles files) ->
        unsupported xlsx f)
  /\ (snd (FileUploadZone.validateFiles files) = None
      <-> fst (FileUploadZone.validateFiles files) <> [])
  /\ (forall isProcessing st st' handed,
        FileUploadZone.handleDrop isProcessing st files = (st', Some handed) ->
        isProcessing = false
        /\ handed = fst (FileUploadZone.validateFiles files)
        /\ handed <> []
        /\ FileUploadZone.error st' = None).
Proof.
  rewrite validateFiles_valid. cbn [fst snd].
  split; [|split; [|split]].
  - intros f Hf. apply list_elem_of_In, filter_In in Hf as [Hin Hf].
    split; [by apply list_elem_of_In|].
    unfold routed, OrchestratorXlsx.parseFile. cbn zeta in Hf.
    destruct (endsWith (toLowerCase (name f)) ".csv"); [by left|].
    destruct (endsWith (toLowerCase (name f)) ".pdf"); [by right; left|].
    cbn [orb] in Hf. rewrite Hf. by right; right.
  - intros f Hin Hf. unfold unsupported, OrchestratorXlsx.parseFile.
    destruct (endsWith (toLowerCase (name f)) ".csv") eqn:E1;
      [|destruct (endsWith (toLowerCase (name f)) ".pdf") eqn:E2;
        [|destruct (endsWith (toLowerCase (name f)) ".xlsx"
                    || endsWith (toLowerCase (name f)) ".xls") eqn:E3; [|done]]].
    all: exfalso; apply Hf, list_elem_of_In, filter_In;
      split; [by apply list_elem_of_In|]; cbn zeta; rewrite ?E1, ?E2; cbn [orb]; done.
  - destruct (List.filter _ files); cbn [length Nat.eqb]; split; done.
  - intros isProcessing st st' handed. unfold FileUploadZone.handleDrop.
    destruct isProcessing; [done|]. rewrite validateFiles_valid.
    destruct (List.filter _ files) as [|f valid]; cbn [length Nat.ltb Nat.leb Nat.eqb]; [done|].
    intros [= <- <-]. done.
Qed.

Lemma upload_zone_agrees_with_routing_witness :
  let sheet := {| name := "Card.XLSX"; text_of := Resolved []; pdf := Rejected "Invalid PDF structure." |} in
  routed (fun _ => Rejected "no sheet") sheet
  /\ unsupported (fun _ => Rejected "no sheet") text_report.
Proof.
  intros sheet.
  destruct (upload_zone_agrees_with_routing (fun _ => Rejected "no sheet") [sheet; text_report])
    as (H1 & H2 & _).
  split.
  - apply H1. vm_compute. left.
  - apply H2; [right; left|]. vm_compute. by intros [=]%list_elem_of_singleton.
Defined.

(** ** The name of the exported file *)

Lemma every_unit (x : ascii) : In x (List.map ascii_of_nat (seq 0 256)).
Proof.
  rewrite <- (ascii_nat_embedding x). apply in_map, in_seq.
  pose proof (nat_ascii_bounded x). lia.
Qed.

(** A letter of a pattern under the [i] flag matches the units that
    [toLowerCase] maps to the small letter. *)
Lemma letter_any_case (x c : ascii) :
  is_lower c || is_upper c = true ->
  ascii_eqb (upper_ascii x) (upper_ascii c) = ascii_eqb (lower_char x) (lower_char c).
Proof.
  assert (H : forallb
                (fun x => forallb
                   (fun c => implb (is_lower c || is_upper c)
                               (Bool.eqb (ascii_eqb (upper_ascii x) (upper_ascii c))
                                         (ascii_eqb (lower_char x) (lower_char c))))
                   (List.map ascii_of_nat (seq 0 256)))
                (List.map ascii_of_nat (seq 0 256)) = true) by (vm_compute; reflexivity).
  rewrite forallb_forall in H. specialize (H x (every_unit x)).
  rewrite forallb_forall in H. specialize (H c (every_unit c)).
  intros Hc. rewrite Hc in H. by apply Bool.eqb_prop in H.
Qed.

Lemma runs_text_i3 c1 c2 c3 s s' :
  runs (text_i [c1; c2; c3]) s s' ->
  exists x1 x2 x3,
    ahead s = [x1; x2; x3] ++ ahead s' /\ seen s' = rev [x1; x2; x3] ++ seen s
    /\ ascii_eqb (upper_ascii x1) (upper_ascii c1) = true
    /\ ascii_eqb (upper_ascii x2) (upper_ascii c2) = true
    /\ ascii_eqb (upper_ascii x3) (upper_ascii c3) = true.
Proof.
  cbn [text_i]. unfold chr_i.
  intros (s1 & (x1 & H1 & P1)%runs_chr_inv & H)%runs_seq_inv.
  apply runs_seq_inv in H as (s2 & (x2 & H2 & P2)%runs_chr_inv & (x3 & H3 & P3)%runs_chr_inv).
  exists x1, x2, x3.
  destruct (passes_app _ _ _ _ _ P1 (passes_app _ _ _ _ _ P2 P3)) as (Ha & Hs & _).
  done.
Qed.

Lemma accepts_text_i3 c1 c2 c3 x1 x2 x3 :
  ascii_eqb (upper_ascii x1) (upper_ascii c1) = true ->
  ascii_eqb (upper_ascii x2) (upper_ascii c2) = true ->
  ascii_eqb (upper_ascii x3) (upper_ascii c3) = true ->
  accepts (text_i [c1; c2; c3]) [x1; x2; x3].
Proof.
  intros H1 H2 H3. cbn [text_i]. unfold chr_i.
  apply (accepts_seq _ _ [_] [_; _]); [by apply accepts_chr|].
  apply (accepts_seq _ _ [_] [_]); by apply accepts_chr.
Qed.

Lemma startsWith_app (p s : str) : startsWith (p ++ s) p = true.
Proof.
  induction p as [|c p IH]; [by destruct s|]. cbn [app startsWith].
  rewrite IH. unfold ascii_eqb. by rewrite Ascii.eqb_refl.
Qed.

Lemma endsWith_app (s p : str) : endsWith (s ++ p) p = true.
Proof.
  unfold endsWith. change (rev (s ++ p)) with (List.rev (s ++ p)).
  rewrite rev_app_distr. apply startsWith_app.
Qed.

Lemma suffix_shape (b e : mstate) :
  runs ExportPanel.statement_suffix b e ->
  exists ext,
    ahead b = ext /\ ahead e = [] /\ length ext = 4%nat
    /\ (toLowerCase ext = ".csv" \/ toLowerCase ext = ".pdf").
Proof.
  unfold ExportPanel.statement_suffix. cbn [seqs].
  intros (s1 & (x0 & H0 & P0)%runs_chr_inv & H)%runs_seq_inv.
  apply runs_seq_inv in H as (s2 & Hgroup & Heol).
  inversion Heol as [| | | | | | | | |s0 Hahead|]; subst.
  apply runs_group_inv in Hgroup as (s2 & Halt & _ & Ha2 & _).
  destruct P0 as (Pa & _ & _). apply Ascii.eqb_eq in H0 as <-.
  apply runs_alt_inv in Halt as [H|H];
    apply runs_text_i3 in H as (x1 & x2 & x3 & Ha & _ & H1 & H2 & H3);
    rewrite letter_any_case in H1, H2, H3 by reflexivity;
    apply Ascii.eqb_eq in H1, H2, H3;
    exists ("."%char :: [x1; x2; x3]);
    (split; [by rewrite Pa, Ha, <- Ha2, Hahead|]); (split; [done|]); (split; [done|]);
    [left|right]; unfold toLowerCase; cbn [List.map]; by rewrite H1, H2, H3.
Qed.

Lemma lower_units (ext : str) (a b c d : ascii) :
  toLowerCase ext = [a; b; c; d] ->
  exists x0 x1 x2 x3,
    ext = [x0; x1; x2; x3]
    /\ lower_char x0 = a /\ lower_char x1 = b /\ lower_char x2 = c /\ lower_char x3 = d.
Proof.
  destruct ext as [|x0 [|x1 [|x2 [|x3 [|x4 ext]]]]]; try done.
  unfold toLowerCase. cbn [List.map]. intros [= H0 H1 H2 H3].
  by exists x0, x1, x2, x3.
Qed.

Lemma suffix_accepted (ext : str) :
  toLowerCase ext = ".csv" \/ toLowerCase ext = ".pdf" ->
  accepts_end ExportPanel.statement_suffix ext.
Proof.
  intros H.
  assert (exists x0 x1 x2 x3 c1 c2 c3,
            ext = [x0; x1; x2; x3] /\ lower_char x0 = "."%char
            /\ lower_char x1 = c1 /\ lower_char x2 = c2 /\ lower_char x3 = c3
            /\ ([c1; c2; c3] = lit "csv" \/ [c1; c2; c3] = lit "pdf"))
    as (x0 & x1 & x2 & x3 & c1 & c2 & c3 & -> & H0 & H1 & H2 & H3 & Hc).
  { destruct H as [H|H]; apply lower_units in H as (x0 & x1 & x2 & x3 & -> & ? & ? & ? & ?);
      exists x0, x1, x2, x3; [exists "c"%char, "s"%char, "v"%char
                             |exists "p"%char, "d"%char, "f"%char];
      repeat (split; [done|]); [by left|by right]. }
  unfold ExportPanel.statement_suffix. cbn [seqs].
  assert (x0 = "."%char) as ->.
  { revert H0. destruct x0 as [[] [] [] [] [] [] [] []]; vm_compute; congruence. }
  change ["."%char; x1; x2; x3] with (["."%char] ++ [x1; x2; x3] ++ []).
  apply accepts_end_seq; [by apply accepts_chr|].
  apply accepts_end_seq; [|apply accepts_end_eol].
  apply accepts_group.
  destruct Hc as [[= -> -> ->]|[= -> -> ->]];
    [apply accepts_alt_l|apply accepts_alt_r];
    apply accepts_text_i3; rewrite letter_any_case by reflexivity;
    by apply Ascii.eqb_eq.
Qed.

Lemma suffix_replaced (stem ext : str) :
  toLowerCase ext = ".csv" \/ toLowerCase ext = ".pdf" ->
  replace_first ExportPanel.statement_suffix [] (stem ++ ext) = stem.
Proof.
  intros Hext. unfold replace_first.
  assert (Hsome : is_Some (rx_search ExportPanel.statement_suffix (start_state (stem ++ ext)))).
  { apply (rx_search_from_complete _ (stem ++ ext) _ 0 (length stem));
      [lia|cbn [start_state ahead]; rewrite length_app; lia|rewrite length_app; lia|].
    destruct (suffix_accepted ext Hext (at_index (stem ++ ext) (length stem))) as [e He].
    { simpl. by rewrite drop_app_length. }
    by apply (rx_match_complete _ _ e He Some). }
  destruct Hsome as [[b e] Hsearch]. rewrite Hsearch.
  apply rx_search_spec in Hsearch as (j & -> & He & _).
  apply rx_match_sound in He as (e' & Hruns & [= ->]).
  apply suffix_shape in Hruns as (ext' & Hb & He & Hlen & _).
  rewrite He, app_nil_r. cbn [at_index seen ahead] in *.
  change (rev (rev (firstn j (stem ++ ext)))) with (List.rev (List.rev (firstn j (stem ++ ext)))).
  rewrite rev_involutive.
  assert (Hlen' : length ext = 4%nat).
  { destruct Hext as [H|H]; apply (f_equal (@length ascii)) in H;
      unfold toLowerCase in H; by rewrite length_map in H. }
  assert (Hj : j = length stem).
  { apply (f_equal (@length ascii)) in Hb. rewrite length_skipn, length_app in Hb. lia. }
  subst j. by rewrite take_app_length.
Qed.

Lemma suffix_kept (fileName : str) :
  endsWith (toLowerCase fileName) ".csv" = false ->
  endsWith (toLowerCase fileName) ".pdf" = false ->
  replace_first ExportPanel.statement_suffix [] fileName = fileName.
Proof.
  intros Hcsv Hpdf. unfold replace_first.
  destruct (rx_search _ _) as [[b e]|] eqn:Hsearch; [|done]. exfalso.
  apply rx_search_spec in Hsearch as (j & -> & He & _).
  apply rx_match_sound in He as (e' & Hruns & [= ->]).
  apply suffix_shape in Hruns as (ext & Hb & _ & _ & Hext).
  cbn [at_index ahead] in Hb.
  assert (Hname : toLowerCase fileName = toLowerCase (firstn j fileName) ++ toLowerCase ext).
  { unfold toLowerCase. rewrite <- map_app, <- Hb. by rewrite take_drop. }
  rewrite Hname in Hcsv, Hpdf.
  destruct Hext as [E|E]; rewrite E, endsWith_app in *; done.
Qed.

(** The exported file is named after the statement: a name that ends with
    [.csv] or [.pdf], in any letter case, loses that ending and gets
    [_ynab.csv]; any other name, a spreadsheet included, keeps its ending
    before [_ynab.csv]. *)
Theorem export_file_name (toYNABCSV : list Transaction -> YNABFormat -> str)
    (transactions : list Transaction) (format : YNABFormat) :
  (forall stem ext : str,
     toLowerCase ext = ".csv" \/ toLowerCase ext = ".pdf" ->
     ExportPanel.handleExport toYNABCSV transactions format (stem ++ ext)
     = (toYNABCSV transactions format, stem ++ lit "_ynab.csv"))
  /\ (forall fileName : str,
        endsWith (toLowerCase fileName) ".csv" = false ->
        endsWith (toLowerCase fileName) ".pdf" = false ->
        ExportPanel.handleExport toYNABCSV transactions format fileName
        = (toYNABCSV transactions format, fileName ++ lit "_ynab.csv")).
Proof.
  split.
  - intros stem ext Hext. unfold ExportPanel.handleExport. by rewrite suffix_replaced.
  - intros fileName Hcsv Hpdf. unfold ExportPanel.handleExport. by rewrite suffix_kept.
Qed.

Lemma export_file_name_witness :
  snd (ExportPanel.handleExport (fun _ _ => []) [] inflow_outflow "January.PDF")
  = "January_ynab.csv"
  /\ snd (ExportPanel.handleExport (fun _ _ => []) [] inflow_outflow "card.xlsx")
     = "card.xlsx_ynab.csv".
Proof.
  destruct (export_file_name (fun _ _ => []) [] inflow_outflow) as [H1 H2].
  split.
  - exact (f_equal snd (H1 "January" ".PDF" (or_intror eq_refl))).
  - exact (f_equal snd (H2 "card.xlsx" eq_refl eq_refl)).
Defined.

(** ** What a page keeps of its fragments *)

Lemma sort_insert_map {A B} (g : A -> B) (le : B -> B -> bool) a l :
  sort_insert le (g a) (List.map g l)
  = List.map g (sort_insert (fun x y => le (g x) (g y)) a l).
Proof.
  induction l as [|b l IH]; [done|]. cbn [List.map sort_insert].
  destruct (le (g a) (g b)); [done|]. cbn [List.map]. by rewrite IH.
Qed.

Lemma Array_sort_map {A B} (g : A -> B) (le : B -> B -> bool) l :
  Array_sort le (List.map g l) = List.map g (Array_sort (fun x y => le (g x) (g y)) l).
Proof.
  induction l as [|a l IH]; [done|]. cbn [List.map Array_sort].
  by rewrite IH, sort_insert_map.
Qed.

Lemma Array_sort_id {A} (le : A -> A -> bool) l :
  StronglySorted (fun x y => le x y = true) l -> Array_sort le l = l.
Proof.
  induction 1 as [|a l _ IH Ha]; [done|]. cbn [Array_sort]. rewrite IH.
  destruct Ha as [|b l Hb _]; [done|]. cbn [sort_insert]. by rewrite Hb.
Qed.

Lemma sorted_map {A B} (g : A -> B) (R : B -> B -> Prop) l :
  StronglySorted R (List.map g l) <-> StronglySorted (fun x y => R (g x) (g y)) l.
Proof.
  induction l as [|a l IH]; cbn [List.map].
  - split; constructor.
  - split; intros H; apply StronglySorted_inv in H as [Hl Ha].
    + constructor; [by apply IH|].
      rewrite List.Forall_forall in *. intros y Hy. by apply Ha, in_map.
    + constructor; [by apply IH|].
      rewrite List.Forall_forall in *. intros y (x & <- & Hx)%in_map_iff. by apply Ha.
Qed.

Lemma sorted_impl {A} (R R' : A -> A -> Prop) l :
  (forall x y, R x y -> R' x y) -> StronglySorted R l -> StronglySorted R' l.
Proof.
  intros H. induction 1 as [|x l _ IH Hx]; constructor; [done|].
  eapply Forall_impl; [exact Hx|]. intros y. apply H.
Qed.

Lemma place_fragment_items item cs :
  Permutation (flat_map snd (place_fragment item cs)) (item :: flat_map snd cs).
Proof.
  induction cs as [|c cs IH]; cbn [place_fragment flat_map]; [done|].
  destruct (_ <=? _)%Z; cbn [flat_map snd].
  - rewrite <- app_assoc. cbn [app]. by rewrite <- Permutation_middle.
  - rewrite IH. by rewrite <- Permutation_middle.
Qed.

Lemma clusters_from_items rawItems : forall cs,
  Permutation (flat_map snd (clusters_from cs rawItems)) (flat_map snd cs ++ rawItems).
Proof.
  unfold clusters_from.
  induction rawItems as [|item rawItems IH]; intros cs; cbn [fold_left].
  - by rewrite app_nil_r.
  - rewrite IH, place_fragment_items. cbn [app]. by rewrite <- Permutation_middle.
Qed.

Lemma flat_map_pointwise {A B} (f g : A -> list B) l :
  (forall x, Permutation (f x) (g x)) -> Permutation (flat_map f l) (flat_map g l).
Proof.
  intros H. induction l as [|x l IH]; [done|]. cbn [flat_map]. by apply Permutation_app.
Qed.

Lemma raw_items_visible items :
  Enbd.raw_items items
  = List.map (fun item => {| Enbd.raw_x := item_x item;
                             Enbd.raw_y := Math_round (item_y item);
                             Enbd.raw_text := item_str item |})
      (List.filter visible items).
Proof. reflexivity. Qed.

Lemma by_x_le (p q : Enbd.LineItem) : by_x p q = true -> (Enbd.li_x p <= Enbd.li_x q)%Q.
Proof. unfold by_x. intros H%Qle_bool_imp_le. lra. Qed.

Lemma line_text_forget (c : cluster) :
  Enbd.line_text (forget c)
  = join " " (List.map Enbd.raw_text (Array_sort by_raw_x (snd c))).
Proof.
  unfold Enbd.line_text, forget. cbn [Enbd.line_items].
  rewrite (Array_sort_map Enbd.line_item). by rewrite List.map_map.
Qed.

Lemma left_to_right_sorted (l : list Enbd.RawItem) :
  StronglySorted (fun a b => (Enbd.raw_x a <= Enbd.raw_x b)%Q) (Array_sort by_raw_x l).
Proof.
  apply (sorted_map Enbd.line_item (fun p q => (Enbd.li_x p <= Enbd.li_x q)%Q)).
  change by_raw_x with (fun a b => by_x (Enbd.line_item a) (Enbd.line_item b)).
  rewrite <- Array_sort_map.
  eapply sorted_impl; [|apply Array_sort_sorted; [apply by_x_total|apply by_x_trans]].
  apply by_x_le.
Qed.

(** The text of a page is its lines from top to bottom, joined by line
    feeds; a line is its fragments from left to right, joined by spaces.
    The fragments of the lines are the fragments of the page whose text is
    not blank, each one once, with their [x] and their rounded [y]: none
    is lost or repeated.  A line has the [y] of one of its fragments, all
    its fragments lie at most [Y_TOLERANCE] below that, and every line
    lies more than [Y_TOLERANCE] below the line before it. *)
Theorem page_text_keeps_fragments (items : list TextItem) :
  exists lines : list cluster,
    Enbd.page_text items
    = join [nl] (List.map (fun c => join " " (List.map Enbd.raw_text (snd c))) lines)
    /\ Permutation (flat_map snd lines) (Enbd.raw_items items)
    /\ Enbd.raw_items items
       = List.map (fun item => {| Enbd.raw_x := item_x item;
                                  Enbd.raw_y := Math_round (item_y item);
                                  Enbd.raw_text := item_str item |})
           (List.filter visible items)
    /\ StronglySorted (fun c c' => (fst c' < fst c - Enbd.Y_TOLERANCE)%Z) lines
    /\ Forall (fun c => (exists a, a ∈ snd c /\ Enbd.raw_y a = fst c)
                        /\ Forall (in_band c) (snd c)
                        /\ StronglySorted (fun a b => (Enbd.raw_x a <= Enbd.raw_x b)%Q)
                             (snd c))
         lines.
Proof.
  pose (in_order := fun c : cluster => (fst c, Array_sort by_raw_x (snd c))).
  exists (List.map in_order (page_clusters items)).
  destruct (lines_of_fragments_state (Enbd.raw_items items)) as [Htop Hband Hapart].
  fold (page_clusters items) in Htop, Hband, Hapart.
  apply sorted_map in Hapart.
  split; [|split; [|split; [|split]]].
  - rewrite page_text_clusters, Array_sort_id.
    + rewrite !List.map_map. f_equal. apply map_ext. intros c. apply line_text_forget.
    + apply sorted_map. eapply sorted_impl; [|exact Hapart].
      intros c c' H. cbn [forget Enbd.line_y]. apply Z.leb_le.
      unfold Enbd.Y_TOLERANCE in H. lia.
  - rewrite flat_map_concat_map, List.map_map, <- flat_map_concat_map.
    transitivity (flat_map snd (page_clusters items));
      [apply flat_map_pointwise; intros c; apply Array_sort_perm|].
    unfold page_clusters, lines_of_fragments.
    rewrite clusters_from_items. cbn [flat_map app]. apply Array_sort_perm.
  - apply raw_items_visible.
  - apply sorted_map. exact Hapart.
  - apply Forall_map, Forall_forall. intros c Hc.
    rewrite Forall_forall in Htop, Hband.
    destruct (Htop c Hc) as (top & more & Hsnd & Hy). specialize (Hband c Hc).
    cbn [in_order fst snd]. split; [|split].
    + exists top. split; [|done].
      apply list_elem_of_In. eapply Permutation_in; [symmetry; apply Array_sort_perm|].
      rewrite Hsnd. by left.
    + eapply Permutation_Forall; [symmetry; apply Array_sort_perm|exact Hband].
    + apply left_to_right_sorted.
Qed.

(** ** Rows of an Emirates NBD card statement *)

Lemma runs_plus_lazy_chr p s s' :
  runs (plus_lazy (Chr p)) s s' ->
  exists ws, ws <> [] /\ Forall (fun c => p c = true) ws /\ passes s ws s'.
Proof.
  unfold plus_lazy.
  intros (s1 & (c & Hc & P1)%runs_chr_inv & (ws & Hws & P2)%runs_star_chr)%runs_seq_inv.
  exists ([c] ++ ws). split; [done|]. split; [by constructor|].
  by apply (passes_app _ _ _ _ _ P1).
Qed.

Lemma runs_amount2 s s' :
  runs Enbd.amount2 s s' -> exists amt, amount_shape amt /\ passes s amt s'.
Proof.
  unfold Enbd.amount2. cbn [seqs].
  intros (s1 & (int & Hne & Hint & P1)%runs_plus_chr & H)%runs_seq_inv.
  apply runs_seq_inv in H as (s2 & (c & Hc & P2)%runs_chr_inv
                                 & (dd & Hlen & Hdd & P3)%runs_times_chr).
  apply Ascii.eqb_eq in Hc as <-.
  destruct dd as [|d1 [|d2 [|? ?]]]; try done.
  apply Forall_cons in Hdd as [Hd1 Hdd]. apply Forall_cons in Hdd as [Hd2 _].
  exists (int ++ lit "." ++ [d1; d2]). split; [by constructor|].
  apply (passes_app _ _ _ _ _ P1). by apply (passes_app _ _ _ _ _ P2).
Qed.

(** The optional group [(CR)?] between states without capture [i]. *)
Lemma runs_opt_cr i s s' :
  runs (opt (Group i (text "CR"))) s s' ->
  (s' = s)
  \/ (ahead s = lit "CR" ++ ahead s' /\ seen s' = rev (lit "CR") ++ seen s
      /\ caps s' = (i, lit "CR") :: caps s).
Proof.
  unfold opt. intros [H|H]%runs_alt_inv.
  - right. apply runs_group_inv in H as (s1 & H & Hs & Ha & Hc).
    cbn [text] in H.
    apply runs_seq_inv in H as (s0 & (c1 & H1 & P1)%runs_chr_inv & (c2 & H2 & P2)%runs_chr_inv).
    apply Ascii.eqb_eq in H1 as <-, H2 as <-.
    pose proof (passes_app _ _ _ _ _ P1 P2) as P.
    rewrite (passes_consumed _ _ _ P) in Hc.
    destruct P as (Pa & Ps & Pc). rewrite Ha, Hs, Hc, Pc. done.
  - left. by apply runs_eps_inv.
Qed.

Lemma runs_card_row b e :
  runs Enbd.card_row b e ->
  exists d1 ws1 d2 ws2 desc ws3 amt cr ws4,
    seen b = [] /\ ahead e = []
    /\ ahead b = d1 ++ ws1 ++ d2 ++ ws2 ++ desc ++ ws3 ++ amt ++ cr ++ ws4
    /\ strict_date d1 (Adcb.parseDDMMYYYY d1)
    /\ amount_shape amt
    /\ Forall (fun c => is_space c = true) ws4
    /\ get_cap 1 (caps e) = Some d1
    /\ get_cap 3 (caps e) = Some desc
    /\ get_cap 4 (caps e) = Some amt
    /\ ((cr = [] /\ get_cap 5 (caps e) = get_cap 5 (caps b))
        \/ (cr = lit "CR" /\ get_cap 5 (caps e) = Some (lit "CR"))).
Proof.
  unfold Enbd.card_row. cbn [seqs].
  intros (s0 & Hbol & H)%runs_seq_inv.
  inversion Hbol as [| | | | | | | |s00 Hseen| |]; subst.
  apply runs_seq_inv in H as (s1 & G1 & H).
  apply runs_seq_inv in H as (s2 & (ws1 & _ & _ & W1)%runs_plus_chr & H).
  apply runs_seq_inv in H as (s3 & G2 & H).
  apply runs_seq_inv in H as (s4 & (ws2 & _ & _ & W2)%runs_plus_chr & H).
  apply runs_seq_inv in H as (s5 & G3 & H).
  apply runs_seq_inv in H as (s6 & (ws3 & _ & _ & W3)%runs_plus_chr & H).
  apply runs_seq_inv in H as (s7 & G4 & H).
  apply runs_seq_inv in H as (s8 & G5 & H).
  apply runs_seq_inv in H as (s9 & (ws4 & Hws4 & W4)%runs_star_chr & Heol).
  inversion Heol as [| | | | | | | | |s00 Hahead|]; subst.
  apply runs_group_inv in G1 as (s1' & D1 & Hs1 & Ha1 & Hc1).
  apply runs_ddmmyyyy in D1 as (dd & mm & yyyy & Ldd & Lmm & Lyyyy & Hd & P1).
  apply runs_group_inv in G2 as (s3' & D2 & Hs3 & Ha3 & Hc3).
  apply runs_ddmmyyyy in D2 as (dd' & mm' & yyyy' & _ & _ & _ & _ & P2).
  apply runs_group_inv in G3 as (s5' & D3 & Hs5 & Ha5 & Hc5).
  apply runs_plus_lazy_chr in D3 as (desc & _ & _ & P3).
  apply runs_group_inv in G4 as (s7' & D4 & Hs7 & Ha7 & Hc7).
  apply runs_amount2 in D4 as (amt & Hamt & P4).
  rewrite (passes_consumed _ _ _ P1) in Hc1.
  rewrite (passes_consumed _ _ _ P3) in Hc5.
  rewrite (passes_consumed _ _ _ P4) in Hc7.
  pose proof (StrictDate dd mm yyyy Ldd Lmm Lyyyy Hd) as Hstrict.
  rewrite <- (proj1 (strict_date_parse _ _ Hstrict)) in Hstrict.
  destruct P1 as (A1 & _ & C1), P2 as (A2 & _ & C2), P3 as (A3 & _ & C3),
    P4 as (A4 & _ & C4), W1 as (B1 & _ & E1), W2 as (B2 & _ & E2),
    W3 as (B3 & _ & E3), W4 as (B4 & _ & E4).
  assert (K1 : get_cap 1 (caps s7) = Some (dd ++ lit "/" ++ mm ++ lit "/" ++ yyyy)).
  { by rewrite Hc7, C4, E3, Hc5, C3, E2, Hc3, C2, E1, Hc1. }
  assert (K3 : get_cap 3 (caps s7) = Some desc).
  { by rewrite Hc7, C4, E3, Hc5. }
  assert (K4 : get_cap 4 (caps s7) = Some amt) by (by rewrite Hc7).
  assert (K5 : get_cap 5 (caps s7) = get_cap 5 (caps s0)).
  { by rewrite Hc7, C4, E3, Hc5, C3, E2, Hc3, C2, E1, Hc1, C1. }
  assert (Hline : ahead s0 = (dd ++ lit "/" ++ mm ++ lit "/" ++ yyyy) ++ ws1
                             ++ (dd' ++ lit "/" ++ mm' ++ lit "/" ++ yyyy') ++ ws2
                             ++ desc ++ ws3 ++ amt ++ ahead s7).
  { rewrite A1, <- Ha1, B1, A2, <- Ha3, B2, A3, <- Ha5, B3, A4, <- Ha7.
    by rewrite <- !app_assoc. }
  apply runs_opt_cr in G5 as [->|(A5 & _ & C5)].
  - exists (dd ++ lit "/" ++ mm ++ lit "/" ++ yyyy), ws1,
      (dd' ++ lit "/" ++ mm' ++ lit "/" ++ yyyy'), ws2, desc, ws3, amt, [], ws4.
    rewrite E4. repeat (split; [done|]).
    split; [by rewrite Hline, B4, Hahead, !app_nil_r|].
    repeat (split; [done|]). by left.
  - exists (dd ++ lit "/" ++ mm ++ lit "/" ++ yyyy), ws1,
      (dd' ++ lit "/" ++ mm' ++ lit "/" ++ yyyy'), ws2, desc, ws3, amt, (lit "CR"), ws4.
    rewrite E4, C5. repeat (split; [done|]).
    split; [by rewrite Hline, A5, B4, Hahead, !app_nil_r|].
    repeat (split; [done|]). by right.
Qed.

(** ** The sign of a parsed amount *)

Lemma binary_round_aux_sign s m e l :
  binary_round_aux prec emax s m e l = NaN
  \/ negative (binary_round_aux prec emax s m e l) = s.
Proof.
  unfold binary_round_aux.
  destruct (shr_fexp _ _ m e l) as [mrs' e'].
  destruct (shr_fexp _ _ _ e' loc_Exact) as [mrs'' e''].
  destruct (shr_m mrs''); [by right| |by left].
  destruct (_ <=? _)%Z; by right.
Qed.

Lemma of_decimal_sign s m e :
  of_decimal s m e = NaN \/ negative (of_decimal s m e) = s.
Proof.
  unfold of_decimal. destruct m as [|p]; [by right|].
  destruct e; unfold round_ratio; apply binary_round_aux_sign.
Qed.

Lemma parseFloat_sign (s : str) :
  parseFloat s = NaN \/ negative (parseFloat s) = minus_first (trimStart s).
Proof.
  unfold parseFloat, minus_first.
  destruct (trimStart s) as [|c t].
  - by left.
  - destruct (ascii_eqb c "-") eqn:Hminus.
    + destruct (startsWith t "Infinity"); [by right|].
      destruct (span is_digit t) as [ip r1].
      destruct (match r1 with [] => _ | _ => _ end) as [fp r2].
      destruct (ip ++ fp); [by left|]. apply of_decimal_sign.
    + destruct (ascii_eqb c "+").
      * destruct (startsWith t "Infinity"); [by right|].
        destruct (span is_digit t) as [ip r1].
        destruct (match r1 with [] => _ | _ => _ end) as [fp r2].
        destruct (ip ++ fp); [by left|]. apply of_decimal_sign.
      * destruct (startsWith (c :: t) "Infinity"); [by right|].
        destruct (span is_digit (c :: t)) as [ip r1].
        destruct (match r1 with [] => _ | _ => _ end) as [fp r2].
        destruct (ip ++ fp); [by left|]. apply of_decimal_sign.
Qed.

Lemma sign_tests (x : number) :
  isNaN x = false -> num_eq x zero = false ->
  num_lt x zero = negative x /\ num_gt x zero = negb (negative x)
  /\ num_lt (neg x) zero = negb (negative x) /\ num_gt (neg x) zero = negative x.
Proof. destruct x as [[]|[]| |[] m e]; try done. Qed.

Lemma isNaN_eq (x : number) : isNaN x = false -> x <> NaN.
Proof. by destruct x. Qed.

Lemma without_app c (s t : str) : without c (s ++ t) = without c s ++ without c t.
Proof. unfold without. apply List.filter_app. Qed.

Lemma amount_units (amt : str) :
  amount_shape amt ->
  without "," amt <> []
  /\ Forall (fun c => is_digit c || ascii_eqb c "." = true) (without "," amt).
Proof.
  intros [int d1 d2 Hne Hint Hd1 Hd2].
  rewrite without_app.
  assert (Htail : without "," (lit "." ++ [d1; d2]) = lit "." ++ [d1; d2]).
  { unfold without. cbn [app lit list_ascii_of_string List.filter].
    assert (H1 : ascii_eqb "," d1 = false).
    { revert Hd1. destruct d1 as [[] [] [] [] [] [] [] []]; vm_compute; congruence. }
    assert (H2 : ascii_eqb "," d2 = false).
    { revert Hd2. destruct d2 as [[] [] [] [] [] [] [] []]; vm_compute; congruence. }
    rewrite H1, H2. reflexivity. }
  rewrite Htail. split; [by destruct (without "," int)|].
  apply Forall_app. split.
  - unfold without. clear Hne. induction Hint as [|c int Hc _ IH]; [done|].
    cbn [List.filter]. rewrite (ascii_eqb_sym "," c).
    destruct (ascii_eqb c ",") eqn:E; cbn [negb]; [done|].
    constructor; [|done]. rewrite orb_false_r in Hc. by rewrite Hc.
  - repeat constructor; by rewrite ?Hd1, ?Hd2.
Qed.

Lemma unsigned_unit c :
  is_digit c || ascii_eqb c "." = true -> is_space c = false /\ ascii_eqb c "-" = false.
Proof. destruct c as [[] [] [] [] [] [] [] []]; vm_compute; try done. Qed.

Lemma amount_unsigned (amt : str) :
  amount_shape amt -> minus_first (trimStart (without "," amt)) = false.
Proof.
  intros [Hne Hall]%amount_units.
  destruct (without "," amt) as [|c t]; [done|].
  apply Forall_cons in Hall as [[Hs Hm]%unsigned_unit _].
  cbn [trimStart]. rewrite Hs. done.
Qed.

(** The amount read from an amount text without a sign is positive, when
    it is a number other than zero. *)
Lemma amount_positive (amt : str) :
  amount_shape amt ->
  let x := parseFloat (replace_all (chr ",") [] amt) in
  isNaN x = false -> num_eq x zero = false ->
  num_gt x zero = true /\ num_lt x zero = false
  /\ num_gt (neg x) zero = false /\ num_lt (neg x) zero = true.
Proof.
  intros Hamt x Hnan Hzero.
  destruct (sign_tests x Hnan Hzero) as (H1 & H2 & H3 & H4).
  assert (Hneg : negative x = false).
  { subst x. unfold chr in *. rewrite replace_all_chr, substitute_nil in *.
    destruct (parseFloat_sign (without "," amt)) as [E|E].
    - by apply isNaN_eq in Hnan.
    - by rewrite E, amount_unsigned. }
  by rewrite H1, H2, H3, H4, Hneg.
Qed.

Lemma trimStart_rev_clean (s : str) : starts_clean (rev (trim s)).
Proof.
  unfold trim, trimEnd.
  change (rev (rev ?x)) with (List.rev (List.rev x)). rewrite rev_involutive.
  apply trimStart_clean.
Qed.

Lemma trimmed_tail (s pre ws : str) :
  trim s = pre ++ ws -> Forall (fun c => is_space c = true) ws -> ws = [].
Proof.
  intros Hs Hws. pose proof (trimStart_rev_clean s) as Hclean. rewrite Hs in Hclean.
  change (rev (pre ++ ws)) with (List.rev (pre ++ ws)) in Hclean.
  rewrite rev_app_distr in Hclean.
  destruct (List.rev ws) as [|c t] eqn:E.
  - apply (f_equal (@List.rev ascii)) in E. by rewrite rev_involutive in E.
  - exfalso. cbn [app starts_clean] in Hclean.
    assert (Hc : In c ws) by (apply in_rev; rewrite E; by left).
    rewrite Forall_forall in Hws. apply list_elem_of_In, Hws in Hc. congruence.
Qed.

Lemma amount_ends (pre amt : str) :
  amount_shape amt -> endsWith (pre ++ amt) "CR" = false.
Proof.
  intros [int d1 d2 _ _ Hd1 Hd2]. unfold endsWith.
  change (rev ?x) with (List.rev x). rewrite !rev_app_distr. cbn [List.rev app lit list_ascii_of_string startsWith].
  replace (ascii_eqb "R" d2) with false; [done|].
  revert Hd2. destruct d2 as [[] [] [] [] [] [] [] []]; vm_compute; congruence.
Qed.

Lemma exec_runs r (s : str) m :
  rx_exec r s = Some m ->
  exists j e, runs r (at_index s j) e /\ m = result_of (at_index s j) e.
Proof.
  unfold rx_exec.
  destruct (rx_search r (start_state s)) as [[b e]|] eqn:Hsearch; [|done].
  intros [= <-].
  apply rx_search_spec in Hsearch as (j & -> & He & _).
  apply rx_match_sound in He as (e' & Hruns & [= ->]).
  by exists j, e.
Qed.

Lemma at_index_start (s : str) j : seen (at_index s j) = [] -> ahead (at_index s j) = s.
Proof.
  cbn [at_index seen ahead]. intros H.
  apply (f_equal (@List.rev ascii)) in H. change (rev ?x) with (List.rev x) in H.
  rewrite rev_involutive in H. cbn in H.
  rewrite <- (take_drop j s) at 2. by rewrite H.
Qed.

Lemma card_line_facts l next tx :
  Enbd.card_line l next = Some tx ->
  strict_date (originalDate tx) (date tx)
  /\ num_gt (amount tx) zero = endsWith (trim l) "CR"
  /\ num_lt (amount tx) zero = negb (endsWith (trim l) "CR").
Proof.
  unfold Enbd.card_line.
  destruct (rx_exec Enbd.card_row (trim l)) as [m|] eqn:Hexec; [|done].
  apply exec_runs in Hexec as (j & e & Hruns & ->).
  apply runs_card_row in Hruns
    as (d1 & ws1 & d2 & ws2 & desc & ws3 & amt & cr & ws4
        & Hseen & Hahead & Hline & Hdate & Hamt & Hws4 & K1 & K3 & K4 & K5).
  rewrite (at_index_start _ _ Hseen) in Hline.
  unfold group_str, group, result_of. cbn [rx_caps]. rewrite K1, K3, K4.
  destruct (_ || _); [done|].
  destruct (isNaN _) eqn:Hnan; [done|].
  destruct (num_eq _ zero) eqn:Hzero; [done|]. cbn [orb].
  destruct (amount_positive amt Hamt Hnan Hzero) as (P1 & P2 & P3 & P4).
  assert (Hws : ws4 = []).
  { apply (trimmed_tail l (d1 ++ ws1 ++ d2 ++ ws2 ++ desc ++ ws3 ++ amt ++ cr)); [|done].
    by rewrite Hline, <- !app_assoc. }
  subst ws4. rewrite app_nil_r in Hline.
  destruct K5 as [[-> K5]|[-> K5]]; rewrite K5.
  - cbn [at_index caps get_cap]. intros [= <-]. cbn [originalDate date amount].
    split; [done|]. rewrite Hline, app_nil_r.
    replace (d1 ++ ws1 ++ d2 ++ ws2 ++ desc ++ ws3 ++ amt)
      with ((d1 ++ ws1 ++ d2 ++ ws2 ++ desc ++ ws3) ++ amt) by (by rewrite <- !app_assoc).
    by rewrite amount_ends.
  - cbn [str_eqb lit list_ascii_of_string]. 
    replace (str_eqb (lit "CR") (lit "CR")) with true by reflexivity.
    intros [= <-]. cbn [originalDate date amount].
    split; [done|]. rewrite Hline.
    replace (d1 ++ ws1 ++ d2 ++ ws2 ++ desc ++ ws3 ++ amt ++ lit "CR")
      with ((d1 ++ ws1 ++ d2 ++ ws2 ++ desc ++ ws3 ++ amt) ++ lit "CR")
      by (by rewrite <- !app_assoc).
    by rewrite endsWith_app.
Qed.

(** ** Transactions of an Emirates NBD card statement *)

Lemma runs_leading_date b e :
  runs Enbd.leading_date b e ->
  exists d1, strict_date d1 (Adcb.parseDDMMYYYY d1) /\ get_cap 1 (caps e) = Some d1.
Proof.
  unfold Enbd.leading_date. cbn [seqs].
  intros (s0 & Hbol & G1)%runs_seq_inv.
  apply runs_group_inv in G1 as (s1 & D1 & _ & _ & Hc1).
  apply runs_ddmmyyyy in D1 as (dd & mm & yyyy & Ldd & Lmm & Lyyyy & Hd & P1).
  rewrite (passes_consumed _ _ _ P1) in Hc1.
  pose proof (StrictDate dd mm yyyy Ldd Lmm Lyyyy Hd) as Hstrict.
  rewrite <- (proj1 (strict_date_parse _ _ Hstrict)) in Hstrict.
  exists (dd ++ lit "/" ++ mm ++ lit "/" ++ yyyy). split; [done|]. by rewrite Hc1.
Qed.

Lemma runs_trailing_amount b e :
  runs Enbd.trailing_amount b e ->
  exists amt cr ws4,
    ahead b = amt ++ cr ++ ws4 /\ ahead e = []
    /\ amount_shape amt
    /\ Forall (fun c => is_space c = true) ws4
    /\ get_cap 1 (caps e) = Some amt
    /\ ((cr = [] /\ get_cap 2 (caps e) = get_cap 2 (caps b))
        \/ (cr = lit "CR" /\ get_cap 2 (caps e) = Some (lit "CR"))).
Proof.
  unfold Enbd.trailing_amount. cbn [seqs].
  intros (s1 & G1 & H)%runs_seq_inv.
  apply runs_seq_inv in H as (s2 & G2 & H).
  apply runs_seq_inv in H as (s3 & (ws4 & Hws4 & W4)%runs_star_chr & Heol).
  inversion Heol as [| | | | | | | | |s00 Hahead|]; subst.
  apply runs_group_inv in G1 as (s1' & D1 & Hs1 & Ha1 & Hc1).
  apply runs_amount2 in D1 as (amt & Hamt & P1).
  rewrite (passes_consumed _ _ _ P1) in Hc1.
  destruct P1 as (A1 & _ & C1), W4 as (B4 & _ & E4).
  apply runs_opt_cr in G2 as [->|(A2 & _ & C2)].
  - exists amt, [], ws4. rewrite E4, Hc1, C1.
    split; [by rewrite A1, <- Ha1, B4, Hahead, !app_nil_r|].
    repeat (split; [done|]). by left.
  - exists amt, (lit "CR"), ws4. rewrite E4, C2, Hc1.
    split; [by rewrite A1, <- Ha1, A2, B4, Hahead, !app_nil_r|].
    repeat (split; [done|]). by right.
Qed.

Lemma fallback_line_facts l next tx :
  Enbd.fallback_line l next = Some tx ->
  strict_date (originalDate tx) (date tx)
  /\ num_gt (amount tx) zero = endsWith (trim l) "CR"
  /\ num_lt (amount tx) zero = negb (endsWith (trim l) "CR").
Proof.
  unfold Enbd.fallback_line.
  destruct (rx_exec Enbd.leading_date (trim l)) as [dm|] eqn:Hdate; [|done].
  destruct (rx_exec Enbd.trailing_amount (trim l)) as [am|] eqn:Hamount; [|done].
  apply exec_runs in Hdate as (j & e & Hruns & ->).
  apply runs_leading_date in Hruns as (d1 & Hstrict & K1).
  apply exec_runs in Hamount as (j' & e' & Hruns & ->).
  apply runs_trailing_amount in Hruns as (amt & cr & ws4 & Hline & _ & Hamt & Hws4 & L1 & L2).
  unfold group_str, group. cbn [result_of rx_caps]. rewrite K1, L1.
  destruct (_ || _); [done|].
  destruct (isNaN _) eqn:Hnan; [done|].
  destruct (num_eq _ zero) eqn:Hzero; [done|]. cbn [orb].
  destruct (amount_positive amt Hamt Hnan Hzero) as (P1 & P2 & P3 & P4).
  assert (Hl : trim l = firstn j' (trim l) ++ amt ++ cr ++ ws4).
  { cbn [at_index ahead] in Hline. by rewrite <- Hline, take_drop. }
  assert (Hws : ws4 = []).
  { apply (trimmed_tail l (firstn j' (trim l) ++ amt ++ cr)); [|done].
    by rewrite <- !app_assoc. }
  subst ws4. rewrite app_nil_r in Hl.
  destruct L2 as [[-> L2]|[-> L2]]; rewrite L2.
  - cbn [at_index caps get_cap]. intros [= <-]. cbn [originalDate date amount].
    split; [done|]. rewrite Hl, app_nil_r. by rewrite amount_ends.
  - replace (str_eqb (lit "CR") (lit "CR")) with true by reflexivity.
    intros [= <-]. cbn [originalDate date amount].
    split; [done|]. rewrite Hl, app_assoc. by rewrite endsWith_app.
Qed.

(** Every transaction of the Emirates NBD card parser, from the primary
    pattern or from the fallback, keeps the date of its row, a strict
    DD/MM/YYYY date, and carries the same date as YYYY-MM-DD; the exporter
    prints the date of the row again. *)
Theorem enbd_card_dates_are_canonical (file : File) (r : ParseResult) (tx : Transaction) :
  Enbd.parseENBDCreditCard file = Resolved r ->
  tx ∈ transactions r ->
  strict_date (originalDate tx) (date tx)
  /\ YnabExport.formatDate (date tx) = originalDate tx.
Proof.
  intros Hr Htx.
  assert (Hall : Forall (fun tx => strict_date (originalDate tx) (date tx)) (transactions r)).
  { unfold Enbd.parseENBDCreditCard in Hr.
    destruct (Enbd.extractTextFromPDF file) as [pages|m]; injection Hr as <-; [|done].
    cbn [transactions].
    destruct (_ =? _)%nat.
    - apply each_page_Forall. intros lines. apply each_line_Forall.
      intros l next t Ht. by apply fallback_line_facts in Ht as [? _].
    - apply each_page_Forall. intros lines. apply each_line_Forall.
      intros l next t Ht. by apply card_line_facts in Ht as [? _]. }
  rewrite Forall_forall in Hall. pose proof (Hall tx Htx) as Hd.
  split; [done|]. by apply strict_date_parse.
Qed.

Lemma enbd_card_dates_are_canonical_witness :
  strict_date "01/02/2026" "2026-02-01"
  /\ YnabExport.formatDate "2026-02-01" = "01/02/2026".
Proof.
  pose (file := {| name := "card.pdf"; text_of := Resolved [];
                   pdf := Resolved [Resolved [ {| item_str := "01/02/2026 02/02/2026 GROCER 120.50";
                                                  item_x := 10; item_y := 700 |} ]] |}).
  pose (tx := {| date := "2026-02-01"; payee := "GROCER"; memo := [];
                 amount := neg (parseFloat "120.50"); originalDate := "01/02/2026" |}).
  assert (E : exists r, Enbd.parseENBDCreditCard file = Resolved r /\ transactions r = [tx]).
  { eexists. split; [reflexivity|]. vm_compute. reflexivity. }
  destruct E as (r & Hr & Htx).
  apply (enbd_card_dates_are_canonical file r tx Hr). rewrite Htx. left.
Defined.

(** A row of a card statement is an inflow exactly when its line ends
    with CR, and an outflow otherwise: the amount itself is written without
    a sign.  This holds for the primary pattern and for the fallback. *)
Theorem enbd_card_sign_rule (l : str) (next : option str) (tx : Transaction) :
  Enbd.card_line l next = Some tx \/ Enbd.fallback_line l next = Some tx ->
  num_gt (amount tx) zero = endsWith (trim l) "CR"
  /\ num_lt (amount tx) zero = negb (endsWith (trim l) "CR").
Proof.
  intros [H|H]; [apply card_line_facts in H|apply fallback_line_facts in H]; tauto.
Qed.

Lemma enbd_card_sign_rule_witness :
  exists tx,
    Enbd.card_line "01/02/2026 02/02/2026 REFUND STORE 50.00CR  " None = Some tx
    /\ num_gt (amount tx) zero = true /\ num_lt (amount tx) zero = false.
Proof.
  pose (tx := {| date := "2026-02-01"; payee := "REFUND STORE"; memo := [];
                 amount := parseFloat "50.00"; originalDate := "01/02/2026" |}).
  assert (E : Enbd.card_line "01/02/2026 02/02/2026 REFUND STORE 50.00CR  " None = Some tx)
    by (vm_compute; reflexivity).
  exists tx. split; [exact E|].
  destruct (enbd_card_sign_rule _ None tx (or_introl E)) as [H1 H2].
  rewrite H1, H2. split; reflexivity.
Defined.

(** ** Rows of an Emirates NBD account statement *)

Lemma runs_text_i3_passes c1 c2 c3 s s' :
  runs (text_i [c1; c2; c3]) s s' ->
  exists x1 x2 x3,
    passes s [x1; x2; x3] s'
    /\ ascii_eqb (upper_ascii x1) (upper_ascii c1) = true
    /\ ascii_eqb (upper_ascii x2) (upper_ascii c2) = true
    /\ ascii_eqb (upper_ascii x3) (upper_ascii c3) = true.
Proof.
  cbn [text_i]. unfold chr_i.
  intros (s1 & (x1 & H1 & P1)%runs_chr_inv & H)%runs_seq_inv.
  apply runs_seq_inv in H as (s2 & (x2 & H2 & P2)%runs_chr_inv & (x3 & H3 & P3)%runs_chr_inv).
  exists x1, x2, x3. split; [|done].
  exact (passes_app _ _ _ _ _ P1 (passes_app _ _ _ _ _ P2 P3)).
Qed.

Lemma runs_words (words : list str) s s' :
  Forall (fun w => length w = 3%nat
                   /\ Forall (fun c => is_lower c || is_upper c = true) w) words ->
  runs (alts (List.map text_i words)) s s' ->
  words = [] \/ exists w mon, In w words /\ toLowerCase mon = toLowerCase w /\ passes s mon s'.
Proof.
  induction 1 as [|w words [Hlen Hletters] Hwords IH]; [by left|]. intros Hruns. right.
  assert (Hw : runs (text_i w) s s' ->
               exists mon, toLowerCase mon = toLowerCase w /\ passes s mon s').
  { destruct w as [|c1 [|c2 [|c3 [|? ?]]]]; try done.
    intros (x1 & x2 & x3 & P & H1 & H2 & H3)%runs_text_i3_passes.
    apply Forall_cons in Hletters as [L1 Hletters].
    apply Forall_cons in Hletters as [L2 Hletters].
    apply Forall_cons in Hletters as [L3 _].
    rewrite letter_any_case in H1, H2, H3 by done.
    apply Ascii.eqb_eq in H1, H2, H3.
    exists [x1; x2; x3]. split; [|done].
    unfold toLowerCase. cbn [List.map]. by rewrite H1, H2, H3. }
  destruct words as [|w' words].
  - cbn [List.map alts] in Hruns. destruct (Hw Hruns) as (mon & Hmon & P).
    exists w, mon. split; [by left|done].
  - change (alts (List.map text_i (w :: w' :: words)))
      with (Alt (text_i w) (alts (List.map text_i (w' :: words)))) in Hruns.
    apply runs_alt_inv in Hruns as [Hruns|Hruns].
    + destruct (Hw Hruns) as (mon & Hmon & P). exists w, mon. split; [by left|done].
    + destruct (IH Hruns) as [[=]|(w0 & mon & Hin & Hmon & P)].
      exists w0, mon. split; [by right|done].
Qed.

Lemma runs_month_name s s' :
  runs Enbd.month_name s s' ->
  exists mon mm,
    length mon = 3%nat /\ Enbd.months_get Enbd.months (toLowerCase mon) = Some mm
    /\ passes s mon s'.
Proof.
  unfold Enbd.month_name. intros H.
  apply runs_words in H as [[=]|(w & mon & Hin & Hmon & P)].
  - exists mon.
    assert (Hlen : length mon = 3%nat /\ exists mm,
               Enbd.months_get Enbd.months (toLowerCase mon) = Some mm).
    { rewrite Hmon. split.
      - apply (f_equal (@length ascii)) in Hmon. unfold toLowerCase in Hmon.
        rewrite !length_map in Hmon. rewrite Hmon. clear -Hin. cbn in Hin.
        repeat (destruct Hin as [<-|Hin]; [reflexivity|]). done.
      - clear -Hin. cbn in Hin.
        repeat (destruct Hin as [<-|Hin]; [by eexists|]). done. }
    destruct Hlen as (Hlen & mm & Hmm). by exists mm.
  - repeat constructor.
Qed.

Lemma runs_day_month_year s s' :
  runs Enbd.day_month_year s s' ->
  exists d iso, named_month_date d iso /\ passes s d s'
                /\ starts_clean d /\ starts_clean (rev d).
Proof.
  unfold Enbd.day_month_year. cbn [seqs].
  intros (s1 & (d1 & Hd1 & P1)%runs_chr_inv & H)%runs_seq_inv.
  apply runs_seq_inv in H as (s2 & (d2 & Hlen2 & Hd2 & P2)%runs_opt_chr & H).
  apply runs_seq_inv in H as (s3 & (ws1 & Hne1 & Hws1 & W1)%runs_plus_chr & H).
  apply runs_seq_inv in H as (s4 & (mon & mm & Lmon & Hmm & M)%runs_month_name & H).
  apply runs_seq_inv in H as (s5 & (ws2 & Hne2 & Hws2 & W2)%runs_plus_chr
                                 & (year & Lyear & Hyear & Y)%runs_times_chr).
  assert (Hshape : month_date_shape ([d1] ++ d2) ws1 mon ws2 year).
  { split; try done.
    - simpl. destruct d2 as [|? [|? ?]]; simpl in *; auto; lia.
    - by constructor.
    - by eapply month_is_word. }
  exists (([d1] ++ d2) ++ ws1 ++ mon ++ ws2 ++ year),
    (year ++ lit "-" ++ mm ++ lit "-" ++ padStart 2 "0" ([d1] ++ d2)).
  split; [exact (MonthDate _ _ _ _ _ mm Hshape Hmm)|]. split; [|split].
  - apply (passes_app _ _ _ _ _ (passes_app _ _ _ _ _ P1 P2)).
    apply (passes_app _ _ _ _ _ W1).
    apply (passes_app _ _ _ _ _ M).
    apply (passes_app _ _ _ _ _ W2 Y).
  - cbn [app starts_clean]. by apply digit_not_space.
  - change (rev ?x) with (List.rev x). rewrite !rev_app_distr.
    destruct year as [|y1 [|y2 [|y3 [|y4 [|? ?]]]]]; try done.
    cbn [List.rev app starts_clean].
    apply digit_not_space.
    do 3 apply Forall_cons in Hyear as [_ Hyear]. by apply Forall_cons in Hyear as [? _].
Qed.

Lemma trim_clean (s : str) : starts_clean s -> starts_clean (rev s) -> trim s = s.
Proof.
  intros H1 H2. unfold trim, trimEnd. rewrite (trimStart_id s H1), (trimStart_id _ H2).
  change (rev (rev s)) with (List.rev (List.rev s)). apply rev_involutive.
Qed.

Lemma month_date_parse (d iso : str) : named_month_date d iso -> Enbd.parseMonthDate d = iso.
Proof.
  intros [day ws1 mon ws2 year mm Hshape Hmm].
  replace (day ++ ws1 ++ mon ++ ws2 ++ year)
    with (day ++ ws1 ++ mon ++ ws2 ++ year ++ []) by (by rewrite app_nil_r).
  by apply parseMonthDate_spaced.
Qed.

Lemma runs_row_date b e :
  runs Enbd.row_date b e ->
  exists d, named_month_date d (Enbd.parseMonthDate d) /\ trim d = d
            /\ get_cap 1 (caps e) = Some d.
Proof.
  unfold Enbd.row_date. cbn [seqs].
  intros (s0 & Hbol & H)%runs_seq_inv.
  apply runs_seq_inv in H as (s1 & (ws0 & _ & W0)%runs_star_chr & H).
  apply runs_seq_inv in H as (s2 & G1 & (ws & _ & _ & W)%runs_plus_chr).
  apply runs_group_inv in G1 as (s1' & D & _ & _ & Hc).
  apply runs_day_month_year in D as (d & iso & Hd & P & Hclean1 & Hclean2).
  rewrite (passes_consumed _ _ _ P) in Hc.
  exists d. rewrite (month_date_parse d iso Hd).
  split; [done|]. split; [by apply trim_clean|].
  destruct W as (_ & _ & ->). by rewrite Hc.
Qed.

Lemma account_line_date line following tx :
  Enbd.account_line line following = Some tx ->
  named_month_date (originalDate tx) (date tx) /\ memo tx = [].
Proof.
  unfold Enbd.account_line.
  destruct (rx_exec Enbd.row_date line) as [m|] eqn:Hexec; [|done].
  apply exec_runs in Hexec as (j & e & Hruns & ->).
  apply runs_row_date in Hruns as (d & Hd & Htrim & K1).
  unfold group_str, group. cbn [result_of rx_caps]. rewrite K1, Htrim.
  destruct (Enbd.amounts_of _) as [|first others]; [done|].
  destruct (_ || _); [done|].
  destruct (if (2 <=? _)%nat then _ else _) as [amount|]; [|done].
  destruct (_ || _); [done|].
  by intros [= <-].
Qed.

(** Every transaction of the Emirates NBD account parser keeps the date of
    its row, D Mon YYYY with a month of the table in any letter case,
    carries the same date as YYYY-MM-DD with the number of the month and a
    two-digit day, and has an empty memo. *)
Theorem enbd_account_dates_are_canonical (file : File) (r : ParseResult) (tx : Transaction) :
  Enbd.parseENBDAccount file = Resolved r ->
  tx ∈ transactions r ->
  named_month_date (originalDate tx) (date tx) /\ memo tx = [].
Proof.
  intros Hr Htx.
  assert (Hall : Forall (fun tx => named_month_date (originalDate tx) (date tx) /\ memo tx = [])
                   (transactions r)).
  { unfold Enbd.parseENBDAccount in Hr.
    destruct (Enbd.extractTextFromPDF file) as [pages|m]; injection Hr as <-; [|done].
    cbn [transactions]. apply each_page_Forall. intros lines.
    apply account_lines_Forall. intros l following t Ht. by apply (account_line_date l following). }
  rewrite Forall_forall in Hall. by apply Hall.
Qed.

Lemma enbd_account_dates_are_canonical_witness :
  named_month_date "24 Jan 2026" "2026-01-24".
Proof.
  pose (file := {| name := "account.pdf"; text_of := Resolved [];
                   pdf := Resolved [Resolved [ {| item_str := card_payment_row;
                                                  item_x := 10; item_y := 700 |} ]] |}).
  pose (tx := {| date := "2026-01-24";
                 payee := "CC NO.-4033********7337 RMA REF NO.-"; memo := [];
                 amount := parseFloat "-38564.24"; originalDate := "24 Jan 2026" |}).
  assert (E : exists r, Enbd.parseENBDAccount file = Resolved r /\ transactions r = [tx]).
  { eexists. split; [reflexivity|]. vm_compute. reflexivity. }
  destruct E as (r & Hr & Htx).
  apply (enbd_account_dates_are_canonical file r tx Hr). rewrite Htx. left.
Defined.

(** ** Signs of the Emirates NBD account transactions *)

Lemma first_amount (rest : str) first others :
  Enbd.amounts_of rest = first :: others ->
  exists sign amt tail,
    skipn (Enbd.index first) rest = sign ++ amt ++ tail
    /\ (sign = [] \/ sign = lit "-")
    /\ amount_shape amt
    /\ Enbd.value first = parseFloat (replace_all (chr ",") [] (sign ++ amt)).
Proof.
  unfold Enbd.amounts_of, rx_exec_all, rx_all. cbn [rx_all_from].
  destruct (rx_search Enbd.amountRegex (start_state rest)) as [[b e]|] eqn:Hsearch; [|done].
  cbn [List.map fst snd]. intros [= <- _]. cbn [Enbd.value Enbd.index].
  apply rx_search_spec in Hsearch as (j & -> & He & _).
  apply rx_match_sound in He as (e' & Hruns & [= ->]).
  unfold Enbd.amountRegex in Hruns.
  apply runs_seq_inv in Hruns as (s1 & (sign & Hlen & Hsign & P1)%runs_opt_chr
                                     & (amt & Hamt & P2)%runs_amount2).
  pose proof (passes_app _ _ _ _ _ P1 P2) as P.
  unfold result_of. cbn [rx_index rx_text]. rewrite (passes_consumed _ _ _ P).
  destruct P as (Pa & _ & _). cbn [at_index ahead] in Pa.
  exists sign, amt, (ahead e). split; [|split; [|done]].
  - unfold index_of. cbn [at_index seen].
    change (rev ?x) with (List.rev x). rewrite length_rev, length_firstn.
    assert (j < length rest)%nat.
    { destruct (Nat.lt_ge_cases j (length rest)) as [?|Hge]; [done|].
      rewrite skipn_all2 in Pa by done.
      destruct Hamt as [int ? ? Hne _ _ _].
      destruct sign, int; done. }
    replace (j `min` length rest)%nat with j by lia.
    by rewrite Pa, <- app_assoc.
  - destruct sign as [|c [|? ?]]; [by left| |simpl in Hlen; lia].
    right. apply Forall_cons in Hsign as [Hc _]. by apply Ascii.eqb_eq in Hc as <-.
Qed.

Lemma amount_first (amt tail : str) : amount_shape amt -> minus_first (amt ++ tail) = false.
Proof.
  intros [int d1 d2 Hne Hint _ _]. destruct Hint as [|c int Hc _]; [done|].
  cbn [app minus_first]. revert Hc.
  destruct c as [[] [] [] [] [] [] [] []]; vm_compute; congruence.
Qed.

Lemma signed_amount (sign amt : str) :
  sign = [] \/ sign = lit "-" -> amount_shape amt ->
  forall tail,
    minus_first (trimStart (without "," (sign ++ amt))) = minus_first (sign ++ amt ++ tail).
Proof.
  intros [->| ->] Hamt tail.
  - cbn [app]. by rewrite amount_unsigned, amount_first.
  - reflexivity.
Qed.

(** A transaction of a row of an account statement carries the first
    amount that is found in the text after the date of the row, with its
    sign: the row is an outflow exactly when that amount is written with a
    minus sign, and an inflow otherwise. *)
Theorem enbd_account_sign_rule (line : str) (following : list str) (tx : Transaction) :
  Enbd.account_line line following = Some tx ->
  exists dateMatch first others,
    rx_exec Enbd.row_date line = Some dateMatch
    /\ let rest := substring_from (length (rx_text dateMatch)) line in
       Enbd.amounts_of rest = first :: others
       /\ amount tx = Enbd.value first
       /\ num_lt (amount tx) zero = minus_first (skipn (Enbd.index first) rest)
       /\ num_gt (amount tx) zero = negb (minus_first (skipn (Enbd.index first) rest)).
Proof.
  unfold Enbd.account_line.
  destruct (rx_exec Enbd.row_date line) as [m|]; [|done].
  set (rest := substring_from (length (rx_text m)) line).
  destruct (Enbd.amounts_of rest) as [|first others] eqn:Hamounts; [done|].
  destruct (_ || _); [done|].
  assert (Hsign : isNaN (Enbd.value first) = false ->
                  num_eq (Enbd.value first) zero = false ->
                  num_lt (Enbd.value first) zero
                  = minus_first (skipn (Enbd.index first) rest)
                  /\ num_gt (Enbd.value first) zero
                     = negb (minus_first (skipn (Enbd.index first) rest))).
  { intros Hnan Hzero.
    destruct (sign_tests _ Hnan Hzero) as (H1 & H2 & _).
    destruct (first_amount rest first others Hamounts)
      as (sign & amt & tail & Hrest & Hs & Hamt & Hvalue).
    rewrite H1, H2, Hrest, <- (signed_amount sign amt Hs Hamt tail).
    assert (Hneg : negative (Enbd.value first)
                   = minus_first (trimStart (without "," (sign ++ amt)))).
    { rewrite Hvalue in *. unfold chr in *. rewrite replace_all_chr, substitute_nil in *.
      destruct (parseFloat_sign (without "," (sign ++ amt))) as [E|E]; [|done].
      by apply isNaN_eq in Hnan. }
    by rewrite Hneg. }
  assert (Hemit :
    (if isNaN (Enbd.value first) || num_eq (Enbd.value first) zero then None
     else Some {| date := Enbd.parseMonthDate (trim (group_str 1 m));
                  payee := Enbd.cleanENBDDescription
                             (Enbd.continuation following
                                (trim (substring_to (Enbd.index first) rest)));
                  memo := []; amount := Enbd.value first;
                  originalDate := trim (group_str 1 m) |}) = Some tx ->
    amount tx = Enbd.value first
    /\ num_lt (amount tx) zero = minus_first (skipn (Enbd.index first) rest)
    /\ num_gt (amount tx) zero = negb (minus_first (skipn (Enbd.index first) rest))).
  { destruct (isNaN _) eqn:Hnan; [done|].
    destruct (num_eq _ zero) eqn:Hzero; [done|]. cbn [orb].
    intros [= <-]. cbn [amount]. split; [done|]. by apply Hsign. }
  intros H. exists m, first, others. split; [done|]. cbv zeta. fold rest.
  split; [exact Hamounts|]. apply Hemit. revert H.
  destruct (2 <=? _)%nat; [done|].
  destruct (_ && _); done.
Qed.

Lemma enbd_account_sign_rule_witness :
  let tx := {| date := "2026-01-24";
               payee := "CC NO.-4033********7337 RMA REF NO.-"; memo := [];
               amount := parseFloat "-38564.24"; originalDate := "24 Jan 2026" |} in
  exists dateMatch first others,
    rx_exec Enbd.row_date card_payment_row = Some dateMatch
    /\ let rest := substring_from (length (rx_text dateMatch)) card_payment_row in
       Enbd.amounts_of rest = first :: others
       /\ amount tx = Enbd.value first
       /\ num_lt (amount tx) zero = minus_first (skipn (Enbd.index first) rest)
       /\ num_gt (amount tx) zero = negb (minus_first (skipn (Enbd.index first) rest)).
Proof.
  intros tx. apply (enbd_account_sign_rule card_payment_row [] tx).
  vm_compute. reflexivity.
Defined.

(** ** Cleaning a description *)

Lemma search_skip r st c tl :
  rx_at r st = None -> ahead st = c :: tl ->
  rx_search r st = rx_search r {| seen := c :: seen st; ahead := tl; caps := [] |}.
Proof.
  intros Hat Ha. unfold rx_search. rewrite Ha. cbn [length rx_search_from ahead].
  rewrite Hat. unfold step_over. by rewrite Ha.
Qed.

Lemma search_end r st : rx_at r st = None -> ahead st = [] -> rx_search r st = None.
Proof.
  intros Hat Ha. unfold rx_search. rewrite Ha. cbn [length rx_search_from]. by rewrite Hat.
Qed.

Lemma span_app p (s : str) : fst (span p s) ++ snd (span p s) = s.
Proof.
  induction s as [|c s IH]; [done|]. cbn [span].
  destruct (p c); [|done]. destruct (span p s) as [a b]. cbn [fst snd app] in *. by rewrite IH.
Qed.

Lemma span_space (s : str) : snd (span is_space s) = trimStart s.
Proof.
  induction s as [|c s IH]; [done|]. cbn [span trimStart].
  destruct (is_space c); [|done]. by destruct (span is_space s).
Qed.

Lemma span_cons p c (s : str) :
  p c = true -> span p (c :: s) = (c :: fst (span p s), snd (span p s)).
Proof. intros H. cbn [span]. rewrite H. by destruct (span p s). Qed.

Lemma star_loop_greedy {A} body (k : mstate -> option A) fuel s :
  star_loop body true k (S fuel) s
  = or_else
      (body s (fun s1 => if (length (ahead s1) <? length (ahead s))%nat
                         then star_loop body true k fuel s1 else None))
      (fun _ => k s).
Proof. reflexivity. Qed.

Lemma match_chr {A} p (k : mstate -> option A) s c tl :
  ahead s = c :: tl ->
  rx_match (Chr p) s k
  = if p c then k {| seen := c :: seen s; ahead := tl; caps := caps s |} else None.
Proof. intros Ha. cbn [rx_match]. by rewrite Ha. Qed.

Lemma match_chr_end {A} p (k : mstate -> option A) s :
  ahead s = [] -> rx_match (Chr p) s k = None.
Proof. intros Ha. cbn [rx_match]. by rewrite Ha. Qed.

(** The greedy loop over a class goes to the end of the run when the
    continuation accepts there. *)
Lemma star_chr_greedy {A} p (k : mstate -> option A) x : forall a st fuel,
  ahead st = a -> (length a <= fuel)%nat ->
  k {| seen := rev (fst (span p a)) ++ seen st; ahead := snd (span p a); caps := caps st |}
  = Some x ->
  star_loop (rx_match (Chr p)) true k fuel st = Some x.
Proof.
  induction a as [|c a IH]; intros st fuel Ha Hf Hk.
  - cbn [span fst snd rev app] in Hk.
    assert (Hst : k st = Some x) by (destruct st; cbn in *; by subst).
    destruct fuel; [done|].
    by rewrite star_loop_greedy, match_chr_end.
  - destruct fuel as [|fuel]; [simpl in Hf; lia|].
    rewrite star_loop_greedy, (match_chr p _ st c a Ha). destruct (p c) eqn:Hp.
    + cbn [ahead]. rewrite Ha. cbn [length].
      replace (length a <? S (length a))%nat with true by (symmetry; apply Nat.ltb_lt; lia).
      rewrite (IH _ fuel); [done|done|simpl in Hf; lia|].
      rewrite (span_cons p c a Hp) in Hk. cbn [fst snd seen caps] in *.
      change (rev (c :: fst (span p a))) with (List.rev (fst (span p a)) ++ [c]) in Hk.
      by rewrite <- app_assoc in Hk.
    + cbn [or_else]. cbn [span] in Hk. rewrite Hp in Hk. cbn [fst snd rev app] in Hk.
      destruct st; cbn in *; by subst.
Qed.

Lemma plus_at {A} p (k : mstate -> option A) x st c tl :
  ahead st = c :: tl -> p c = true ->
  k {| seen := rev (fst (span p (c :: tl))) ++ seen st;
       ahead := snd (span p (c :: tl)); caps := caps st |} = Some x ->
  rx_match (plus (Chr p)) st k = Some x.
Proof.
  intros Ha Hp Hk. unfold plus.
  change (rx_match (Seq (Chr p) (Star true (Chr p))) st k)
    with (rx_match (Chr p) st (fun s1 => rx_match (Star true (Chr p)) s1 k)).
  rewrite (match_chr p _ st c tl Ha), Hp.
  change (rx_match (Star true (Chr p)) ?s1 k)
    with (star_loop (rx_match (Chr p)) true k (length (ahead s1)) s1).
  apply (star_chr_greedy p k x tl); [done|done|].
  rewrite (span_cons p c tl Hp) in Hk. cbn [fst snd seen caps] in *.
  change (rev (c :: fst (span p tl))) with (List.rev (fst (span p tl)) ++ [c]) in Hk.
  by rewrite <- app_assoc in Hk.
Qed.

Lemma plus_none {A} p (k : mstate -> option A) st :
  match ahead st with c :: _ => p c = false | [] => True end ->
  rx_match (plus (Chr p)) st k = None.
Proof.
  intros H. unfold plus.
  change (rx_match (Seq (Chr p) (Star true (Chr p))) st k)
    with (rx_match (Chr p) st (fun s1 => rx_match (Star true (Chr p)) s1 k)).
  destruct (ahead st) as [|c tl] eqn:Ha; [by apply match_chr_end|].
  by rewrite (match_chr p _ st c tl Ha), H.
Qed.

Lemma collapse_run (s : str) : collapse_from true s = collapse_from false (trimStart s).
Proof.
  induction s as [|c s IH]; [done|]. cbn [collapse_from trimStart].
  destruct (is_space c) eqn:E; [done|]. cbn [collapse_from]. by rewrite E.
Qed.

Lemma splice_collapse (s : str) : forall n st fuel,
  length (ahead st) = n -> (n < fuel)%nat -> rev (seen st) ++ ahead st = s ->
  splice (index_of st) " " s (rx_all_from fuel (plus space) st) = collapse (ahead st).
Proof.
  induction n as [n IH] using lt_wf_ind. intros st fuel Hn Hf Hs.
  destruct fuel as [|fuel]; [lia|].
  destruct (ahead st) as [|c tl] eqn:Ha.
  - cbn [rx_all_from]. rewrite search_end; [|by apply plus_none; rewrite Ha|done].
    cbn [splice]. subst s. unfold index_of.
    rewrite app_nil_r, skipn_all2; [done|by rewrite length_rev].
  - unfold collapse. cbn [collapse_from]. destruct (is_space c) eqn:Hc.
    + assert (Hrest : snd (span is_space (c :: tl)) = trimStart tl).
      { rewrite span_space. cbn [trimStart]. by rewrite Hc. }
      assert (Hlen : (length (trimStart tl) <= length tl)%nat).
      { destruct (trimStart_suffix tl) as [p Hp]. rewrite Hp at 2. rewrite length_app. lia. }
      pose (e := {| seen := rev (fst (span is_space (c :: tl))) ++ seen st;
                    ahead := snd (span is_space (c :: tl)); caps := caps st |}).
      assert (Hat : rx_at (plus space) st = Some e) by (by apply (plus_at is_space Some e st c tl)).
      cbn [rx_all_from]. unfold rx_search. rewrite (rx_search_hit _ _ _ _ Hat).
      rewrite Ha. cbn [e ahead]. rewrite Hrest.
      replace (length (trimStart tl) <? length (c :: tl))%nat with true
        by (symmetry; apply Nat.ltb_lt; simpl; lia).
      cbn [splice]. rewrite Nat.sub_diag. cbn [firstn app]. f_equal.
      pose (e0 := {| seen := rev (fst (span is_space (c :: tl))) ++ seen st;
                     ahead := trimStart tl; caps := [] |}).
      change (splice _ " " s (rx_all_from fuel (plus space) _))
        with (splice (index_of e0) " " s (rx_all_from fuel (plus space) e0)).
      assert (Hlt : (length (trimStart tl) < n)%nat) by (simpl in Hn; lia).
      rewrite (IH (length (trimStart tl)) Hlt e0 fuel); [|done|simpl in Hn; lia|].
      * cbn [e0 ahead]. by rewrite collapse_run.
      * cbn [e0 seen ahead]. rewrite <- Hs, <- Hrest.
        change (rev (rev ?x ++ ?y)) with (List.rev (List.rev x ++ y)).
        rewrite rev_app_distr, rev_involutive, <- app_assoc.
        by rewrite span_app.
    + set (st' := {| seen := c :: seen st; ahead := tl; caps := [] |}).
      assert (E : rx_all_from (S fuel) (plus space) st = rx_all_from (S fuel) (plus space) st').
      { cbn [rx_all_from]. rewrite (search_skip _ st c tl); [done| |done].
        apply plus_none. by rewrite Ha. }
      rewrite E. rewrite (splice_next _ _ _ c).
      * f_equal. change (S (index_of st)) with (index_of st').
        rewrite (IH (length tl) ltac:(simpl in Hn; lia) st' (S fuel));
          [done|done|simpl in Hn; lia|].
        cbn [st' seen ahead]. rewrite <- Hs.
        change (rev (c :: seen st)) with (List.rev (seen st) ++ [c]).
        by rewrite <- app_assoc.
      * by apply (skipn_seen s (seen st) tl c).
      * pose proof (all_from_index (S fuel) (plus space) st') as H.
        destruct (rx_all_from (S fuel) (plus space) st') as [|[b e] ms]; [done|].
        unfold index_of in *. simpl in H. lia.
Qed.

Lemma replace_all_spaces (s : str) : replace_all (plus space) " " s = collapse s.
Proof.
  unfold replace_all, rx_all.
  apply (splice_collapse s (length s) (start_state s) (S (length s))); [done|lia|done].
Qed.

Lemma trimStart_snoc (l : str) c :
  trimStart (l ++ [c])
  = if forallb is_space l then (if is_space c then [] else [c]) else trimStart l ++ [c].
Proof.
  induction l as [|x l IH]; [done|]. cbn [app trimStart forallb].
  destruct (is_space x); [exact IH|done].
Qed.

Lemma forallb_rev {A} (f : A -> bool) l : forallb f (List.rev l) = forallb f l.
Proof.
  induction l as [|x l IH]; [done|]. cbn [List.rev forallb].
  rewrite forallb_app, IH. cbn [forallb]. rewrite andb_true_r. apply andb_comm.
Qed.

Lemma trimStart_all (s : str) : forallb is_space s = true -> trimStart s = [].
Proof.
  intros H. apply trimStart_blank. apply Forall_forall. intros c Hc.
  rewrite forallb_forall in H. by apply H, list_elem_of_In.
Qed.

Lemma trimEnd_all (s : str) : forallb is_space s = true -> trimEnd s = [].
Proof.
  intros H. unfold trimEnd. change (rev s) with (List.rev s).
  by rewrite trimStart_all by (by rewrite forallb_rev).
Qed.

Lemma trimEnd_cons c (s : str) :
  trimEnd (c :: s) = if forallb is_space (c :: s) then [] else c :: trimEnd s.
Proof.
  unfold trimEnd. change (rev (c :: s)) with (List.rev s ++ [c]).
  rewrite trimStart_snoc, forallb_rev. cbn [forallb].
  destruct (forallb is_space s) eqn:Hs.
  - rewrite andb_true_r. destruct (is_space c); [done|].
    change (rev s) with (List.rev s). by rewrite trimStart_all by (by rewrite forallb_rev).
  - rewrite andb_false_r. change (rev (?x ++ [c])) with (List.rev (x ++ [c])).
    by rewrite rev_app_distr.
Qed.

Lemma span_all p (s : str) : forallb p s = true -> span p s = (s, []).
Proof.
  induction s as [|c s IH]; [done|]. cbn [forallb span].
  intros [Hc Hs]%andb_true_iff. by rewrite Hc, IH.
Qed.

Lemma at_ends_alt st :
  rx_at blank_ends st
  = or_else (match seen st with [] => rx_match (plus space) st Some | _ => None end)
            (fun _ => rx_match (plus space) st (fun s1 => rx_match Eol s1 Some)).
Proof. reflexivity. Qed.

Lemma at_start_run st c tl :
  seen st = [] -> ahead st = c :: tl -> is_space c = true ->
  rx_at blank_ends st
  = Some {| seen := rev (fst (span is_space (c :: tl))) ++ seen st;
            ahead := snd (span is_space (c :: tl)); caps := caps st |}.
Proof.
  intros Hs Ha Hc. rewrite at_ends_alt, Hs. unfold space.
  rewrite (plus_at is_space Some _ st c tl Ha Hc eq_refl). cbn [or_else]. by rewrite Hs.
Qed.

Lemma at_none_visible st :
  match ahead st with c :: _ => is_space c = false | [] => True end ->
  rx_at blank_ends st = None.
Proof.
  intros H. rewrite at_ends_alt. unfold space.
  rewrite !plus_none by done. by destruct (seen st).
Qed.

Lemma at_tail st c tl :
  seen st <> [] -> ahead st = c :: tl -> forallb is_space (c :: tl) = true ->
  rx_at blank_ends st
  = Some {| seen := rev (c :: tl) ++ seen st; ahead := []; caps := caps st |}.
Proof.
  intros Hs Ha Hall. rewrite at_ends_alt.
  destruct (seen st) as [|x sn] eqn:Hseen; [done|]. cbn [or_else]. unfold space.
  assert (Hc : is_space c = true) by (by apply andb_true_iff in Hall as [? _]).
  apply (plus_at is_space _ _ st c tl Ha Hc).
  rewrite (span_all is_space (c :: tl) Hall). cbn [fst snd rx_match ahead]. by rewrite Hseen.
Qed.

Lemma at_tail_none st :
  seen st <> [] -> forallb is_space (ahead st) = false -> rx_at blank_ends st = None.
Proof.
  intros Hs Hall. rewrite at_ends_alt.
  destruct (seen st) as [|x sn] eqn:Hseen; [done|]. cbn [or_else].
  destruct (rx_match (plus space) st _) as [e|] eqn:E; [exfalso|done].
  change (rx_match (plus space) st (fun s1 => rx_match Eol s1 Some))
    with (rx_match (Seq (plus space) Eol) st Some) in E.
  apply rx_match_sound in E as (e' & Hruns & _).
  apply runs_seq_inv in Hruns as (s1 & (ws & _ & Hws & (Pa & _ & _))%runs_plus_chr & Heol).
  inversion Heol as [| | | | | | | | |s0 Hahead|]; subst.
  rewrite Pa, Hahead, app_nil_r in Hall.
  assert (forallb is_space ws = true); [|congruence].
  apply forallb_forall. intros y Hy. rewrite Forall_forall in Hws. by apply Hws, list_elem_of_In.
Qed.

Lemma splice_tail (s : str) : forall a st fuel,
  ahead st = a -> seen st <> [] -> (length a < fuel)%nat -> rev (seen st) ++ a = s ->
  splice (index_of st) [] s (rx_all_from fuel blank_ends st) = trimEnd a.
Proof.
  induction a as [|c a IH]; intros st fuel Ha Hseen Hf Hs.
  - destruct fuel as [|fuel]; [simpl in Hf; lia|]. cbn [rx_all_from].
    rewrite search_end; [|by apply at_none_visible; rewrite Ha|done].
    cbn [splice]. subst s. unfold index_of.
    rewrite app_nil_r, skipn_all2; [done|by rewrite length_rev].
  - destruct fuel as [|fuel]; [simpl in Hf; lia|].
    rewrite trimEnd_cons. destruct (forallb is_space (c :: a)) eqn:Hall.
    + pose (e := {| seen := rev (c :: a) ++ seen st; ahead := []; caps := caps st |}).
      assert (Hat : rx_at blank_ends st = Some e) by (by apply at_tail).
      cbn [rx_all_from]. unfold rx_search at 1. rewrite (rx_search_hit _ _ _ _ Hat).
      rewrite Ha. cbn [e ahead seen length Nat.ltb Nat.leb].
      assert (Hrest : rx_all_from fuel blank_ends
                        {| seen := rev (c :: a) ++ seen st; ahead := []; caps := [] |} = []).
      { destruct fuel; [done|]. cbn [rx_all_from].
        rewrite search_end; [done| |done]. by apply at_none_visible. }
      rewrite Hrest. cbn [splice]. rewrite Nat.sub_diag, take_0. cbn [app].
      unfold index_of. cbn [e seen]. subst s.
      rewrite skipn_all2; [done|].
      change (rev ?x) with (List.rev x). rewrite !length_app, !length_rev. lia.
    + set (st' := {| seen := c :: seen st; ahead := a; caps := [] |}).
      assert (E : rx_all_from (S fuel) blank_ends st = rx_all_from (S fuel) blank_ends st').
      { cbn [rx_all_from]. rewrite (search_skip _ st c a); [done| |done].
        apply at_tail_none; [done|by rewrite Ha]. }
      rewrite E. rewrite (splice_next _ _ _ c).
      * f_equal. change (S (index_of st)) with (index_of st').
        apply (IH st' (S fuel)); [done|done|simpl in Hf; lia|].
        cbn [st' seen]. rewrite <- Hs.
        change (rev (c :: seen st)) with (List.rev (seen st) ++ [c]).
        by rewrite <- app_assoc.
      * by apply (skipn_seen s (seen st) a c).
      * pose proof (all_from_index (S fuel) blank_ends st') as H.
        destruct (rx_all_from (S fuel) blank_ends st') as [|[b e] ms]; [done|].
        unfold index_of in *. simpl in H. lia.
Qed.

Lemma replace_all_ends (t : str) : replace_all blank_ends [] t = trim t.
Proof.
  unfold replace_all, rx_all. destruct t as [|c tl].
  - reflexivity.
  - destruct (is_space c) eqn:Hc.
    + assert (Hrest : snd (span is_space (c :: tl)) = trimStart tl).
      { rewrite span_space. cbn [trimStart]. by rewrite Hc. }
      assert (Hlen : (length (trimStart tl) <= length tl)%nat).
      { destruct (trimStart_suffix tl) as [p Hp]. rewrite Hp at 2. rewrite length_app. lia. }
      cbn [rx_all_from]. unfold rx_search at 1.
      rewrite (rx_search_hit _ _ _ _ (at_start_run (start_state (c :: tl)) c tl eq_refl eq_refl Hc)).
      cbn [start_state ahead seen]. rewrite Hrest.
      replace (length (trimStart tl) <? length (c :: tl))%nat with true
        by (symmetry; apply Nat.ltb_lt; simpl; lia).
      cbn [splice]. cbn [index_of seen length Nat.sub firstn app].
      pose (e0 := {| seen := rev (fst (span is_space (c :: tl))) ++ [];
                     ahead := trimStart tl; caps := [] |}).
      change (splice _ [] (c :: tl) (rx_all_from _ blank_ends _))
        with (splice (index_of e0) [] (c :: tl)
                (rx_all_from (length (c :: tl)) blank_ends e0)).
      rewrite (splice_tail (c :: tl) (trimStart tl) e0); [| done | | simpl; lia |].
      * unfold trim. cbn [trimStart]. by rewrite Hc.
      * cbn [e0 seen]. rewrite (span_cons is_space c tl Hc). cbn [fst].
        change (rev (c :: ?x)) with (List.rev x ++ [c]).
        intros E. apply (f_equal (@length ascii)) in E.
        rewrite !length_app in E. simpl in E. lia.
      * cbn [e0 seen]. rewrite <- Hrest, app_nil_r.
        change (rev (rev ?x)) with (List.rev (List.rev x)).
        by rewrite rev_involutive, span_app.
    + set (st' := {| seen := [c]; ahead := tl; caps := [] |}).
      assert (E : rx_all_from (S (length (c :: tl))) blank_ends (start_state (c :: tl))
                  = rx_all_from (S (length (c :: tl))) blank_ends st').
      { cbn [rx_all_from]. rewrite (search_skip _ (start_state (c :: tl)) c tl); [done| |done].
        apply at_none_visible. by cbn. }
      rewrite E. rewrite (splice_next _ _ _ c); [|done|].
      * change 1%nat with (index_of st').
        rewrite (splice_tail (c :: tl) tl st'); [|done|done|simpl; lia|done].
        unfold trim. cbn [trimStart]. rewrite Hc, trimEnd_cons. cbn [forallb]. by rewrite Hc.
      * pose proof (all_from_index (S (length (c :: tl))) blank_ends st') as H.
        destruct (rx_all_from _ blank_ends st') as [|[b e] ms]; [done|].
        unfold index_of in *. simpl in H. simpl. lia.
Qed.

Lemma cleanDescription_normal (desc : str) : Adcb.cleanDescription desc = trim (collapse desc).
Proof.
  unfold Adcb.cleanDescription. destruct desc as [|c desc]; [reflexivity|].
  cbn [truthy negb]. fold blank_ends.
  by rewrite replace_all_spaces, replace_all_ends, trim_idempotent.
Qed.

Lemma collapse_gaps (s : str) : forall in_run,
  single_gaps (collapse_from in_run s) = true
  /\ (in_run = true -> starts_clean (collapse_from in_run s)).
Proof.
  induction s as [|c s IH]; intros in_run; [done|]. cbn [collapse_from].
  destruct (is_space c) eqn:Hc.
  - destruct (IH true) as [Hg Hs]. destruct in_run; [by split|]. split; [|done].
    cbn [single_gaps]. rewrite Hg, andb_true_r.
    specialize (Hs eq_refl). destruct (collapse_from true s) as [|d t]; [done|].
    cbn [starts_clean] in Hs. by rewrite Hs.
  - destruct (IH false) as [Hg _]. split; [|done].
    cbn [single_gaps]. by rewrite Hc, Hg.
Qed.

Lemma single_gaps_suffix (p t : str) : single_gaps (p ++ t) = true -> single_gaps t = true.
Proof.
  induction p as [|c p IH]; [done|]. cbn [app single_gaps].
  intros [_ H]%andb_true_iff. by apply IH.
Qed.

Lemma single_gaps_prefix (p t : str) : single_gaps (p ++ t) = true -> single_gaps p = true.
Proof.
  induction p as [|c p IH]; [done|]. cbn [app single_gaps].
  intros [Hc H]%andb_true_iff. rewrite (IH H), andb_true_r.
  destruct (is_space c); [|done].
  apply andb_true_iff in Hc as [-> Hnext]. by destruct p.
Qed.

Lemma trimEnd_prefix (s : str) : exists ws, s = trimEnd s ++ ws.
Proof.
  unfold trimEnd. destruct (trimStart_suffix (rev s)) as [p Hp].
  exists (rev p). apply (f_equal (@List.rev ascii)) in Hp.
  change (rev s) with (List.rev s) in *. rewrite rev_involutive, rev_app_distr in Hp.
  exact Hp.
Qed.

Lemma single_gaps_trim (s : str) : single_gaps s = true -> single_gaps (trim s) = true.
Proof.
  intros H. unfold trim.
  destruct (trimStart_suffix s) as [p Hp]. rewrite Hp in H. apply single_gaps_suffix in H.
  destruct (trimEnd_prefix (trimStart s)) as [ws Hws]. rewrite Hws in H.
  by apply single_gaps_prefix in H.
Qed.

Lemma single_gaps_collapse (s : str) : single_gaps s = true -> collapse s = s.
Proof.
  unfold collapse. induction s as [|c s IH]; [done|]. cbn [single_gaps collapse_from].
  intros [Hc H]%andb_true_iff. destruct (is_space c).
  - apply andb_true_iff in Hc as [->%Ascii.eqb_eq Hnext]. f_equal.
    rewrite collapse_run, trimStart_id; [by apply IH|].
    destruct s as [|d s]; [done|]. cbn [starts_clean]. by apply negb_true_iff.
  - f_equal. by apply IH.
Qed.

Lemma visible_collapse (s : str) : forall in_run,
  visible_units (collapse_from in_run s) = visible_units s.
Proof.
  unfold visible_units. induction s as [|c s IH]; intros in_run; [done|].
  cbn [collapse_from List.filter]. destruct (is_space c) eqn:Hc; cbn [negb].
  - destruct in_run; [apply IH|]. cbn [List.filter]. apply IH.
  - cbn [List.filter]. rewrite Hc. cbn [negb]. by rewrite IH.
Qed.

Lemma visible_trimStart (s : str) : visible_units (trimStart s) = visible_units s.
Proof.
  unfold visible_units. induction s as [|c s IH]; [done|]. cbn [trimStart List.filter].
  destruct (is_space c) eqn:Hc; cbn [negb]; [exact IH|].
  cbn [List.filter]. by rewrite Hc.
Qed.

Lemma filter_rev' {A} (f : A -> bool) l : List.filter f (List.rev l) = List.rev (List.filter f l).
Proof.
  induction l as [|x l IH]; [done|]. cbn [List.rev List.filter].
  rewrite List.filter_app, IH. cbn [List.filter]. destruct (f x); [done|by rewrite app_nil_r].
Qed.

Lemma visible_trim (s : str) : visible_units (trim s) = visible_units s.
Proof.
  unfold trim, trimEnd. rewrite <- (visible_trimStart s).
  generalize (trimStart s). intros t. unfold visible_units.
  change (rev ?x) with (List.rev x).
  rewrite filter_rev'. fold (visible_units (trimStart (List.rev t))).
  rewrite visible_trimStart. unfold visible_units. by rewrite filter_rev', rev_involutive.
Qed.

(** [cleanDescription] gives the description with every run of white
    space turned into one space and without white space at its ends.  The
    result holds the visible units of the description in their order, its
    only white space is single spaces between them, and cleaning it again
    changes nothing; the payee of every transaction of the two ADCB parsers
    is such a text. *)
Theorem cleanDescription_normalises :
  (forall desc : str,
     let cleaned := Adcb.cleanDescription desc in
     cleaned = trim (collapse desc)
     /\ trim cleaned = cleaned
     /\ single_gaps cleaned = true
     /\ visible_units cleaned = visible_units desc
     /\ Adcb.cleanDescription cleaned = cleaned)
  /\ (forall content tx,
        tx ∈ transactions (Adcb.parseADCBAccount content)
        \/ tx ∈ transactions (Adcb.parseADCBCreditCard content) ->
        trim (payee tx) = payee tx /\ single_gaps (payee tx) = true).
Proof.
  assert (Hclean : forall desc : str,
            let cleaned := Adcb.cleanDescription desc in
            cleaned = trim (collapse desc)
            /\ trim cleaned = cleaned
            /\ single_gaps cleaned = true
            /\ visible_units cleaned = visible_units desc
            /\ Adcb.cleanDescription cleaned = cleaned).
  { intros desc cleaned. subst cleaned.
    assert (Hg : single_gaps (trim (collapse desc)) = true).
    { apply single_gaps_trim. apply (collapse_gaps desc false). }
    rewrite !cleanDescription_normal.
    split; [done|]. split; [apply trim_idempotent|]. split; [done|].
    split; [by rewrite visible_trim; apply visible_collapse|].
    by rewrite (single_gaps_collapse _ Hg), trim_idempotent. }
  split; [exact Hclean|].
  intros content tx H.
  assert (Hpayee : exists desc, payee tx = Adcb.cleanDescription desc).
  { destruct (adcb_transactions_of_rows content) as [[rows Ha] [rows' Hc]].
    destruct H as [H|H].
    - rewrite Ha in H. apply list_elem_of_omap in H as (line & _ & Hrow).
      unfold Adcb.account_row in Hrow.
      destruct (Adcb.parseCSVLine line) as [|f1 [|f2 [|f3 [|f4 [|f5 [|f6 more]]]]]]; try done.
      destruct (_ || _); [done|]. destruct (_ && _); [done|].
      injection Hrow as <-. by exists f4.
    - rewrite Hc in H. apply list_elem_of_omap in H as (line & _ & Hrow).
      unfold Adcb.creditcard_row in Hrow.
      destruct (Adcb.parseCSVLine line) as [|f1 [|f2 [|f3 [|f4 more]]]]; try done.
      destruct (_ || _); [done|]. destruct (_ || _); [done|].
      destruct (num_eq _ _); [done|].
      injection Hrow as <-. by exists f2. }
  destruct Hpayee as [desc ->].
  destruct (Hclean desc) as (_ & H1 & H2 & _). done.
Qed.

Lemma cleanDescription_normalises_witness :
  trim "Coffee Shop" = lit "Coffee Shop" /\ single_gaps "Coffee Shop" = true.
Proof.
  pose (tx := {| date := "2024-02-01"; payee := "Coffee Shop"; memo := "";
                 amount := of_Z (-15); originalDate := "01/02/2024" |}).
  destruct cleanDescription_normalises as [_ H].
  apply (H coffee_shop_statement tx). left. vm_compute. left.
Defined.

(** ** The keys of the metadata *)

Lemma capture_keys key re post line (md : gmap string str) (keys : gset string) :
  key ∈ keys -> dom md ⊆ keys -> dom (Adcb.capture key re post line md) ⊆ keys.
Proof.
  intros Hk Hmd. unfold Adcb.capture. destruct (rx_exec re line); [|exact Hmd].
  rewrite dom_insert. apply union_subseteq. split; [|exact Hmd].
  by apply singleton_subseteq_l.
Qed.

Lemma capture_other key key' re post line (md : gmap string str) :
  key <> key' -> Adcb.capture key re post line md !! key' = md !! key'.
Proof.
  intros Hk. unfold Adcb.capture. destruct (rx_exec re line); [|done].
  by rewrite lookup_insert_ne.
Qed.

Lemma match_insert_keys {M} (o : option M) key (f : M -> str) (md : gmap string str)
    (keys : gset string) :
  key ∈ keys -> dom md ⊆ keys ->
  dom (match o with Some m => <[key := f m]> md | None => md end) ⊆ keys.
Proof.
  intros Hk Hmd. destruct o; [|exact Hmd].
  rewrite dom_insert. apply union_subseteq. split; [|exact Hmd].
  by apply singleton_subseteq_l.
Qed.

Lemma maybe_capture_keys (b : bool) key re post line (md : gmap string str)
    (keys : gset string) :
  key ∈ keys -> dom md ⊆ keys ->
  dom (if b then Adcb.capture key re post line md else md) ⊆ keys.
Proof. intros Hk Hmd. destruct b; [by apply capture_keys|exact Hmd]. Qed.

Lemma maybe_capture_other (b : bool) key key' re post line (md : gmap string str) :
  key <> key' ->
  (if b then Adcb.capture key re post line md else md) !! key' = md !! key'.
Proof. intros Hk. destruct b; [by apply capture_other|done]. Qed.

Lemma account_header_keys lines : forall i md,
  dom md ⊆ ({["accountNumber"; "period"; "accountName"]} : gset string) ->
  dom (fst (Adcb.account_header lines i md))
  ⊆ ({["accountNumber"; "period"; "accountName"]} : gset string).
Proof.
  induction lines as [|line lines IH]; intros i md Hmd; [exact Hmd|].
  cbn [Adcb.account_header].
  destruct (_ || _); cbn [fst]; [|apply IH];
    repeat (apply maybe_capture_keys;
            [by rewrite !elem_of_union, !elem_of_singleton; tauto|]);
    exact Hmd.
Qed.

Lemma creditcard_header_keys lines : forall i md,
  dom md ⊆ ({["period"; "balance"; "creditLimit"]} : gset string) ->
  dom (fst (Adcb.creditcard_header lines i md))
  ⊆ ({["period"; "balance"; "creditLimit"]} : gset string).
Proof.
  induction lines as [|line lines IH]; intros i md Hmd; [exact Hmd|].
  cbn [Adcb.creditcard_header].
  destruct (includes line "Transaction Date" && _); cbn [fst]; [|apply IH];
    repeat (apply maybe_capture_keys;
            [by rewrite !elem_of_union, !elem_of_singleton; tauto|]);
    exact Hmd.
Qed.

Lemma account_header_unlabelled lines : forall i md,
  Forall (fun line => includes line "Account Number:" = false) lines ->
  fst (Adcb.account_header lines i md) !! "accountNumber" = md !! "accountNumber".
Proof.
  induction lines as [|line lines IH]; intros i md Hlines; [done|].
  apply Forall_cons in Hlines as [Hline Hlines].
  cbn [Adcb.account_header]. rewrite Hline.
  destruct (_ || _); cbn [fst]; [|rewrite IH by done];
    by rewrite !maybe_capture_other.
Qed.

(** The metadata of a result holds no key besides those of its parser:
    account number, period and account name for an ADCB account statement;
    period, balance and credit limit for an ADCB card statement; card
    number and period for an Emirates NBD card statement; account number,
    IBAN, period and currency for an Emirates NBD account statement.  An
    ADCB account statement none of whose lines holds the label of the
    account number has no account number in its metadata. *)
Theorem metadata_keys :
  (forall content,
     dom (metadata (Adcb.parseADCBAccount content))
     ⊆ ({["accountNumber"; "period"; "accountName"]} : gset string))
  /\ (forall content,
        dom (metadata (Adcb.parseADCBCreditCard content))
        ⊆ ({["period"; "balance"; "creditLimit"]} : gset string))
  /\ (forall file r,
        Enbd.parseENBDCreditCard file = Resolved r ->
        dom (metadata r) ⊆ ({["cardNumber"; "period"]} : gset string))
  /\ (forall file r,
        Enbd.parseENBDAccount file = Resolved r ->
        dom (metadata r) ⊆ ({["accountNumber"; "iban"; "period"; "currency"]} : gset string))
  /\ (forall content,
        Forall (fun line => includes line "Account Number:" = false)
          (Adcb.content_lines content) ->
        metadata (Adcb.parseADCBAccount content) !! "accountNumber" = None).
Proof.
  split; [|split; [|split; [|split]]].
  - intros content. unfold Adcb.parseADCBAccount.
    pose proof (account_header_keys (Adcb.content_lines content) 0 ∅) as H.
    destruct (Adcb.account_header _ _ _) as [md [i|]]; cbn [metadata fst] in *;
      apply H; by rewrite dom_empty; apply empty_subseteq.
  - intros content. unfold Adcb.parseADCBCreditCard.
    pose proof (creditcard_header_keys (Adcb.content_lines content) 0 ∅) as H.
    destruct (Adcb.creditcard_header _ _ _) as [md [i|]]; cbn [metadata fst] in *;
      apply H; by rewrite dom_empty; apply empty_subseteq.
  - intros file r. unfold Enbd.parseENBDCreditCard.
    destruct (Enbd.extractTextFromPDF file) as [pages|m]; intros [= <-]; cbn [metadata];
      [|by rewrite dom_empty; apply empty_subseteq].
    unfold Enbd.card_metadata.
    repeat (apply match_insert_keys;
            [by rewrite !elem_of_union, !elem_of_singleton; tauto|]).
    by rewrite dom_empty; apply empty_subseteq.
  - intros file r. unfold Enbd.parseENBDAccount.
    destruct (Enbd.extractTextFromPDF file) as [pages|m]; intros [= <-]; cbn [metadata];
      [|by rewrite dom_empty; apply empty_subseteq].
    unfold Enbd.account_metadata.
    repeat (apply match_insert_keys;
            [by rewrite !elem_of_union, !elem_of_singleton; tauto|]).
    by rewrite dom_empty; apply empty_subseteq.
  - intros content Hlines. unfold Adcb.parseADCBAccount.
    pose proof (account_header_unlabelled (Adcb.content_lines content) 0 ∅ Hlines) as H.
    destruct (Adcb.account_header _ _ _) as [md [i|]]; cbn [metadata fst] in *;
      by rewrite H.
Qed.

Lemma metadata_keys_witness :
  metadata (Adcb.parseADCBAccount "Posting Date,Value Date,Ref,Description,Debit,Credit")
    !! "accountNumber" = None
  /\ dom (metadata (Adcb.parseADCBAccount coffee_shop_statement))
     ⊆ ({["accountNumber"; "period"; "accountName"]} : gset string).
Proof.
  destruct metadata_keys as (H1 & _ & _ & _ & H5).
  split; [|apply H1].
  apply H5. by repeat constructor.
Defined.

(** ** The totals of the transaction table *)

Lemma shr_1_nonneg mrs : (0 <= shr_m mrs)%Z -> (0 <= shr_m (shr_1 mrs))%Z.
Proof. destruct mrs as [[|[p|p|]|p] r s]; cbn; lia. Qed.

Lemma iter_shr_nonneg n : forall mrs,
  (0 <= shr_m mrs)%Z -> (0 <= shr_m (SpecFloat.iter_pos shr_1 n mrs))%Z.
Proof.
  induction n as [n IH|n IH|]; intros mrs H; cbn [SpecFloat.iter_pos].
  - by apply IH, IH, shr_1_nonneg.
  - by apply IH, IH.
  - by apply shr_1_nonneg.
Qed.

Lemma shr_fexp_nonneg m e l :
  (0 <= m)%Z -> (0 <= shr_m (fst (shr_fexp prec emax m e l)))%Z.
Proof.
  intros H. unfold shr_fexp, shr.
  assert (H0 : (0 <= shr_m (shr_record_of_loc m l))%Z) by (by destruct l as [|[]]).
  destruct (_ - e)%Z; cbn [fst]; [done| |done]. by apply iter_shr_nonneg.
Qed.

Lemma binary_round_aux_nonneg m e l :
  (0 <= m)%Z -> not_negative (binary_round_aux prec emax false m e l).
Proof.
  intros H. unfold binary_round_aux.
  pose proof (shr_fexp_nonneg m e l H) as H1.
  destruct (shr_fexp _ _ m e l) as [mrs' e']. cbn [fst] in H1.
  assert (H2 : (0 <= round_nearest_even (shr_m mrs') (loc_of_shr_record mrs'))%Z).
  { unfold round_nearest_even. destruct (loc_of_shr_record mrs') as [|[]]; try lia.
    destruct (IntDef.Z.even _); lia. }
  pose proof (shr_fexp_nonneg _ e' loc_Exact H2) as H3.
  destruct (shr_fexp _ _ _ e' loc_Exact) as [mrs'' e'']. cbn [fst] in H3.
  destruct (shr_m mrs''); [done| |lia]. by destruct (_ <=? _)%Z.
Qed.

Lemma add_not_negative x y :
  not_negative x -> not_negative y -> not_negative (TransactionTable.add x y).
Proof.
  unfold not_negative, TransactionTable.add.
  destruct x as [[]|[]| |[] mx ex], y as [[]|[]| |[] my ey]; cbn [isNaN negative SFadd];
    intros [? ?] [? ?]; try done.
  unfold binary_normalize. cbn [cond_Zopp].
  destruct (shl_align mx ex _) as [mx' ?], (shl_align my ey _) as [my' ?].
  cbn [fst]. change (Z.pos mx' + Z.pos my')%Z with (Z.pos (mx' + my')).
  unfold binary_round. cbv iota beta.
  destruct (shl_align (mx' + my') _ _) as [mz ez].
  by apply binary_round_aux_nonneg.
Qed.

Lemma positive_not_negative x : num_gt x zero = true -> not_negative x.
Proof. by destruct x as [[]|[]| |[] m e]. Qed.

Lemma abs_not_negative x : num_lt x zero = true -> not_negative (Math_abs x).
Proof. by destruct x as [[]|[]| |[] m e]. Qed.

Lemma fold_not_negative (f : Transaction -> number) txs : forall sum,
  not_negative sum -> Forall (fun t => not_negative (f t)) txs ->
  not_negative (fold_left (fun sum t => TransactionTable.add sum (f t)) txs sum).
Proof.
  induction txs as [|t txs IH]; intros sum Hsum Hall; [done|].
  apply Forall_cons in Hall as [Ht Hall]. cbn [fold_left].
  apply IH; [by apply add_not_negative|done].
Qed.

(** The two totals of the table are numbers that are not negative, zero
    for a list without inflows or without outflows, whatever the amounts
    are: a transaction whose amount is NaN or zero counts in neither. *)
Theorem totals_are_not_negative (transactions : list Transaction) :
  not_negative (TransactionTable.totalInflow transactions)
  /\ not_negative (TransactionTable.totalOutflow transactions)
  /\ (Forall (fun t => num_gt (amount t) zero = false) transactions ->
      TransactionTable.totalInflow transactions = zero)
  /\ (Forall (fun t => num_lt (amount t) zero = false) transactions ->
      TransactionTable.totalOutflow transactions = zero).
Proof.
  split; [|split; [|split]].
  - apply fold_not_negative; [done|].
    apply Forall_forall. intros t [_ Ht]%list_elem_of_In%filter_In.
    by apply positive_not_negative.
  - apply (fold_not_negative (fun t => Math_abs (amount t))); [done|].
    apply Forall_forall. intros t [_ Ht]%list_elem_of_In%filter_In.
    by apply abs_not_negative.
  - intros H. unfold TransactionTable.totalInflow.
    replace (List.filter _ transactions) with (@nil Transaction); [done|].
    induction H as [|t txs Ht _ IH]; [done|]. cbn [List.filter]. by rewrite Ht.
  - intros H. unfold TransactionTable.totalOutflow.
    replace (List.filter _ transactions) with (@nil Transaction); [done|].
    induction H as [|t txs Ht _ IH]; [done|]. cbn [List.filter]. by rewrite Ht.
Qed.

Lemma totals_are_not_negative_witness :
  TransactionTable.totalInflow
    [ {| date := "2024-02-01"; payee := "Coffee Shop"; memo := "";
         amount := of_Z (-15); originalDate := "01/02/2024" |};
      {| date := "2024-02-02"; payee := "Unreadable"; memo := "";
         amount := NaN; originalDate := "02/02/2024" |} ] = zero.
Proof.
  destruct (totals_are_not_negative
              [ {| date := "2024-02-01"; payee := "Coffee Shop"; memo := "";
                   amount := of_Z (-15); originalDate := "01/02/2024" |};
                {| date := "2024-02-02"; payee := "Unreadable"; memo := "";
                   amount := NaN; originalDate := "02/02/2024" |} ]) as (_ & _ & H & _).
  apply H. by repeat constructor.
Defined.

(** ** Texts without line feed *)

Lemma runs_ahead r s s' : runs r s s' -> exists t, ahead s = t ++ ahead s'.
Proof.
  induction 1 as [s|p c tl s Ha Hp|r1 r2 s s1 s2 _ [t1 H1] _ [t2 H2]|r1 r2 s s' _ IH
                  |r1 r2 s s' _ IH|g r s|g r s s1 s2 _ [t1 H1] _ _ [t2 H2]
                  |i r s s1 _ IH|s Hs|s Hs|s Hs];
    try (by exists []); try done.
  - exists [c]. by rewrite Ha.
  - exists (t1 ++ t2). by rewrite H1, H2, <- app_assoc.
  - exists (t1 ++ t2). by rewrite H1, H2, <- app_assoc.
Qed.

Lemma replace_first_Forall (Q : ascii -> Prop) r (by_ s : str) :
  Forall Q s -> Forall Q by_ -> Forall Q (replace_first r by_ s).
Proof.
  intros Hs Hby. unfold replace_first.
  destruct (rx_search r (start_state s)) as [[b e]|] eqn:Hsearch; [|done].
  apply rx_search_spec in Hsearch as (j & -> & He & _).
  apply rx_match_sound in He as (e' & Hruns & [= ->]).
  apply runs_ahead in Hruns as [t Ht]. cbn [at_index seen ahead] in *.
  change (rev (rev ?x)) with (List.rev (List.rev x)). rewrite rev_involutive.
  rewrite !Forall_app. split; [by apply Forall_take|]. split; [done|].
  assert (H : Forall Q (skipn j s)) by (by apply Forall_drop).
  rewrite Ht in H. by apply Forall_app in H as [_ H].
Qed.

Lemma splice_Forall (Q : ascii -> Prop) (by_ s : str) ms : forall from,
  Forall Q s -> Forall Q by_ -> Forall Q (splice from by_ s ms).
Proof.
  induction ms as [|[b e] ms IH]; intros from Hs Hby; cbn [splice].
  - by apply Forall_drop.
  - rewrite !Forall_app. split; [by apply Forall_take, Forall_drop|]. split; [done|].
    by apply IH.
Qed.

Lemma replace_all_Forall (Q : ascii -> Prop) r (by_ s : str) :
  Forall Q s -> Forall Q by_ -> Forall Q (replace_all r by_ s).
Proof. intros Hs Hby. by apply splice_Forall. Qed.

Lemma trim_Forall (Q : ascii -> Prop) (s : str) : Forall Q s -> Forall Q (trim s).
Proof.
  intros H. unfold trim.
  destruct (trimStart_suffix s) as [p Hp]. rewrite Hp in H. apply Forall_app in H as [_ H].
  destruct (trimEnd_prefix (trimStart s)) as [ws Hws]. rewrite Hws in H.
  by apply Forall_app in H as [H _].
Qed.

Lemma collapse_one_line (s : str) : forall in_run, one_line (collapse_from in_run s).
Proof.
  unfold one_line. induction s as [|c s IH]; intros in_run; [done|]. cbn [collapse_from].
  destruct (is_space c) eqn:Hc.
  - destruct in_run; [apply IH|]. constructor; [done|apply IH].
  - constructor; [|apply IH]. revert Hc.
    destruct c as [[] [] [] [] [] [] [] []]; vm_compute; congruence.
Qed.

Lemma cleanDescription_one_line (desc : str) : one_line (Adcb.cleanDescription desc).
Proof. rewrite cleanDescription_normal. apply trim_Forall, collapse_one_line. Qed.

Lemma cleanENBDDescription_one_line (desc : str) : one_line (Enbd.cleanENBDDescription desc).
Proof.
  unfold Enbd.cleanENBDDescription. destruct (negb (truthy desc)); [constructor|].
  apply trim_Forall, replace_all_Forall; [|by repeat constructor].
  apply replace_first_Forall; [|constructor].
  rewrite replace_all_spaces. apply collapse_one_line.
Qed.

Lemma digits_one_line (s : str) : Forall (fun c => is_digit c = true) s -> one_line s.
Proof.
  unfold one_line. intros H. eapply Forall_impl; [exact H|]. intros c.
  destruct c as [[] [] [] [] [] [] [] []]; vm_compute; congruence.
Qed.

Lemma strict_date_one_line (original iso : str) : strict_date original iso -> one_line iso.
Proof.
  intros [dd mm yyyy _ _ _ H].
  apply Forall_app in H as [Hdd H]. apply Forall_app in H as [Hmm Hyyyy].
  unfold one_line. rewrite !Forall_app.
  repeat split; try (by apply digits_one_line); by repeat constructor.
Qed.

Lemma month_date_one_line (original iso : str) : named_month_date original iso -> one_line iso.
Proof.
  intros [day ws1 mon ws2 year mm Hshape Hmm].
  destruct Hshape as [_ Hday _ _ _ _ _ Hyear].
  unfold one_line. rewrite !Forall_app.
  split; [by apply digits_one_line|]. split; [by repeat constructor|].
  split.
  - apply months_get_In in Hmm. cbn in Hmm.
    repeat (destruct Hmm as [[= _ <-]|Hmm]; [by repeat constructor|]). done.
  - split; [by repeat constructor|]. unfold padStart. apply Forall_app. split.
    + apply Forall_forall. intros c Hc%list_elem_of_In%repeat_spec. by subst c.
    + by apply digits_one_line.
Qed.

Lemma split_pieces sep (s : str) : forall cur,
  Forall (fun c => ascii_eqb sep c = false) cur ->
  Forall (Forall (fun c => ascii_eqb sep c = false)) (split_aux sep cur s).
Proof.
  induction s as [|c s IH]; intros cur Hcur; cbn [split_aux].
  - constructor; [|done]. by apply Forall_rev.
  - destruct (ascii_eqb c sep) eqn:E.
    + constructor; [by apply Forall_rev|]. by apply IH.
    + apply IH. constructor; [|done]. by rewrite ascii_eqb_sym.
Qed.

Lemma memo_one_line (next : option str) :
  (forall l, next = Some l -> one_line l) -> one_line (Enbd.memo_of next).
Proof.
  intros H. unfold Enbd.memo_of. destruct next as [l|]; [|constructor].
  destruct (_ || _); [|constructor]. by apply trim_Forall, H.
Qed.

Lemma each_line_lines (P : Transaction -> Prop) (R : str -> Prop) body lines :
  Forall R lines ->
  (forall l next tx, (forall n, next = Some n -> R n) -> body l next = Some tx -> P tx) ->
  Forall P (Enbd.each_line body lines).
Proof.
  intros Hlines Hbody. induction Hlines as [|l lines Hl Hlines IH]; [constructor|].
  cbn [Enbd.each_line].
  destruct (body l (head lines)) as [tx|] eqn:E; [|done].
  constructor; [|done]. apply (Hbody l (head lines)); [|done].
  intros n Hn. destruct Hlines as [|? ? Hn' _]; [done|]. by injection Hn as <-.
Qed.

Lemma each_page_split (P : Transaction -> Prop) body pages :
  (forall pageText, Forall P (body (split nl pageText))) ->
  Forall P (Enbd.each_page body pages).
Proof.
  intros H. unfold Enbd.each_page. induction pages as [|page pages IH]; [constructor|].
  cbn [List.map concat]. apply Forall_app. split; [apply H|apply IH].
Qed.

(** No transaction of the four parsers holds a line feed in its date, its
    payee or its memo. *)
Theorem transactions_hold_no_line_feed :
  (forall content,
     Forall on_one_line_each (transactions (Adcb.parseADCBAccount content))
     /\ Forall on_one_line_each (transactions (Adcb.parseADCBCreditCard content)))
  /\ (forall file r,
        Enbd.parseENBDCreditCard file = Resolved r \/ Enbd.parseENBDAccount file = Resolved r ->
        Forall on_one_line_each (transactions r)).
Proof.
  split.
  - intros content.
    destruct (adcb_transactions_of_rows content) as [[rows Ha] [rows' Hc]].
    rewrite Ha, Hc. split.
    + apply omap_Forall. intros line tx Hrow.
      destruct (account_row_date line tx Hrow) as [Hd Hm].
      unfold on_one_line_each. rewrite Hm.
      split; [by eapply strict_date_one_line|]. split; [|constructor].
      unfold Adcb.account_row in Hrow.
      destruct (Adcb.parseCSVLine line) as [|f1 [|f2 [|f3 [|f4 [|f5 [|f6 more]]]]]]; try done.
      destruct (_ || _); [done|]. destruct (_ && _); [done|].
      injection Hrow as <-. apply cleanDescription_one_line.
    + apply omap_Forall. intros line tx Hrow.
      destruct (creditcard_row_date line tx Hrow) as [Hd Hm].
      unfold on_one_line_each. rewrite Hm.
      split; [by eapply strict_date_one_line|]. split; [|constructor].
      unfold Adcb.creditcard_row in Hrow.
      destruct (Adcb.parseCSVLine line) as [|f1 [|f2 [|f3 [|f4 more]]]]; try done.
      destruct (_ || _); [done|]. destruct (_ || _); [done|].
      destruct (num_eq _ _); [done|].
      injection Hrow as <-. apply cleanDescription_one_line.
  - intros file r [Hr|Hr].
    + unfold Enbd.parseENBDCreditCard in Hr.
      destruct (Enbd.extractTextFromPDF file) as [pages|m]; injection Hr as <-; [|constructor].
      cbn [transactions].
      assert (Hcard : forall l next tx,
                (forall n, next = Some n -> one_line n) ->
                Enbd.card_line l next = Some tx -> on_one_line_each tx).
      { intros l next tx Hnext Htx.
        destruct (card_line_facts l next tx Htx) as [Hd _].
        split; [by eapply strict_date_one_line|].
        unfold Enbd.card_line in Htx.
        destruct (rx_exec Enbd.card_row (trim l)); [|done].
        destruct (_ || _); [done|]. destruct (_ || _); [done|].
        injection Htx as <-. cbn [payee memo].
        split; [apply cleanENBDDescription_one_line|by apply memo_one_line]. }
      assert (Hfallback : forall l next tx,
                (forall n, next = Some n -> one_line n) ->
                Enbd.fallback_line l next = Some tx -> on_one_line_each tx).
      { intros l next tx Hnext Htx.
        destruct (fallback_line_facts l next tx Htx) as [Hd _].
        split; [by eapply strict_date_one_line|].
        unfold Enbd.fallback_line in Htx.
        destruct (rx_exec Enbd.leading_date (trim l)); [|done].
        destruct (rx_exec Enbd.trailing_amount (trim l)); [|done].
        destruct (_ || _); [done|]. destruct (_ || _); [done|].
        injection Htx as <-. cbn [payee memo].
        split; [apply cleanENBDDescription_one_line|by apply memo_one_line]. }
      destruct (_ =? _)%nat; apply each_page_split; intros pageText;
        apply (each_line_lines _ one_line); try done;
        apply (split_pieces nl pageText []); constructor.
    + unfold Enbd.parseENBDAccount in Hr.
      destruct (Enbd.extractTextFromPDF file) as [pages|m]; injection Hr as <-; [|constructor].
      cbn [transactions]. apply each_page_Forall. intros lines.
      apply account_lines_Forall. intros l following tx Htx.
      destruct (account_line_date l following tx Htx) as [Hd Hm].
      unfold on_one_line_each. rewrite Hm.
      split; [by eapply month_date_one_line|]. split; [|constructor].
      unfold Enbd.account_line in Htx.
      destruct (rx_exec Enbd.row_date l); [|done].
      destruct (Enbd.amounts_of _) as [|first others]; [done|].
      destruct (_ || _); [done|].
      destruct (if (2 <=? _)%nat then _ else _); [|done].
      destruct (_ || _); [done|].
      injection Htx as <-. apply cleanENBDDescription_one_line.
Qed.

Lemma transactions_hold_no_line_feed_witness :
  let file := {| name := "card.pdf"; text_of := Resolved [];
                 pdf := Resolved [Resolved [ {| item_str := "01/02/2026 02/02/2026 GROCER 120.50";
                                                item_x := 10; item_y := 700 |} ]] |} in
  let tx := {| date := "2026-02-01"; payee := "GROCER"; memo := [];
               amount := neg (parseFloat "120.50"); originalDate := "01/02/2026" |} in
  exists r,
    Enbd.parseENBDCreditCard file = Resolved r
    /\ transactions r = [tx]
    /\ on_one_line_each tx.
Proof.
  intros file tx.
  assert (E : exists r, Enbd.parseENBDCreditCard file = Resolved r /\ transactions r = [tx]).
  { eexists. split; [reflexivity|]. vm_compute. reflexivity. }
  destruct E as (r & Hr & Htx).
  exists r. split; [exact Hr|]. split; [exact Htx|].
  destruct transactions_hold_no_line_feed as [_ H].
  specialize (H file r (or_introl Hr)). rewrite Htx in H.
  exact (Forall_inv H).
Defined.

(** ** The lines of the export *)

Lemma one_line_mentions (s : str) : one_line s -> mentions nl s = false.
Proof.
  unfold one_line, mentions. induction 1 as [|c s Hc _ IH]; [done|].
  cbn [existsb]. by rewrite Hc, IH.
Qed.

Lemma split_join sep (l : str) (ls : list str) :
  Forall (fun x => mentions sep x = false) (l :: ls) ->
  split sep (join [sep] (l :: ls)) = l :: ls.
Proof.
  unfold split. revert l. induction ls as [|l' ls IH]; intros l H.
  - apply Forall_cons in H as [Hl _]. cbn [join]. by rewrite split_aux_piece.
  - apply Forall_cons in H as [Hl H].
    change (join [sep] (l :: l' :: ls)) with (l ++ sep :: join [sep] (l' :: ls)).
    rewrite split_aux_app by done. cbn [rev app]. f_equal. by apply IH.
Qed.

Lemma join_Forall (Q : ascii -> Prop) (sep : str) (ls : list str) :
  Forall Q sep -> Forall (Forall Q) ls -> Forall Q (join sep ls).
Proof.
  intros Hsep. induction 1 as [|l ls Hl Hls IH]; [constructor|].
  destruct ls as [|l' ls]; [done|].
  change (join sep (l :: l' :: ls)) with (l ++ sep ++ join sep (l' :: ls)).
  rewrite !Forall_app. done.
Qed.

Lemma substitute_Forall (Q : ascii -> Prop) p (by_ s : str) :
  Forall Q s -> Forall Q by_ -> Forall Q (substitute p by_ s).
Proof.
  intros Hs Hby. unfold substitute. induction Hs as [|c s Hc _ IH]; [constructor|].
  cbn [flat_map]. apply Forall_app. split; [|done]. destruct (p c); [done|by constructor].
Qed.

Lemma q_one_line (v : str) : one_line v -> one_line (YnabExport.q v).
Proof.
  intros H. unfold YnabExport.q, one_line, chr. rewrite replace_all_chr.
  rewrite !Forall_app. split; [by repeat constructor|]. split; [|by repeat constructor].
  apply substitute_Forall; [done|by repeat constructor].
Qed.

Lemma row_one_line (fields : list str) :
  Forall one_line fields -> one_line (YnabExport.row fields).
Proof.
  intros H. unfold YnabExport.row. apply join_Forall; [by repeat constructor|].
  apply Forall_map. eapply Forall_impl; [exact H|]. apply q_one_line.
Qed.

Lemma formatDate_one_line (s : str) : one_line s -> one_line (YnabExport.formatDate s).
Proof.
  intros H. unfold YnabExport.formatDate.
  assert (Hpieces : Forall one_line (split "-" s)).
  { unfold split. apply (split_aux_Forall _ "-"%char s H []). constructor. }
  destruct (split "-" s) as [|a [|b [|c [|d l]]]]; try done.
  apply Forall_cons in Hpieces as [Ha Hpieces].
  apply Forall_cons in Hpieces as [Hb Hpieces].
  apply Forall_cons in Hpieces as [Hc _].
  unfold cat, one_line. rewrite !Forall_app.
  repeat split; try done; by repeat constructor.
Qed.

Lemma uint_digits (u : Decimal.uint) :
  Forall (fun c => is_digit c = true) (lit (NilZero.string_of_uint u)).
Proof.
  assert (H : Forall (fun c => is_digit c = true) (lit (NilEmpty.string_of_uint u))).
  { induction u; cbn [NilEmpty.string_of_uint lit list_ascii_of_string];
      [constructor|constructor; [reflexivity|exact IHu]..]. }
  destruct u; try exact H. by repeat constructor.
Qed.

Lemma fixed2_one_line (n : N) : one_line (fixed2_digits n).
Proof.
  unfold fixed2_digits.
  assert (H : one_line (padStart 3 "0" (decimal_of_N n))).
  { unfold padStart. apply Forall_app. split.
    - apply Forall_forall. intros c Hc%list_elem_of_In%repeat_spec. by subst c.
    - apply digits_one_line, uint_digits. }
  unfold one_line. rewrite !Forall_app. split; [by apply Forall_take|].
  split; [by repeat constructor|by apply Forall_drop].
Qed.

Section Lines.
Variable NumberToString : number -> str.
Hypothesis NumberToString_one_line : forall x, one_line (NumberToString x).

Lemma toFixed2_one_line (x : number) : one_line (toFixed2 NumberToString x).
Proof.
  unfold toFixed2. destruct x as [s|[]| |s m e];
    [by repeat constructor|by repeat constructor|by repeat constructor
    |by repeat constructor|].
  destruct (num_lt _ _); apply Forall_app; split;
    [destruct s; by repeat constructor|apply fixed2_one_line
    |destruct s; by repeat constructor|apply NumberToString_one_line].
Qed.

Lemma formatAmount_one_line (x : number) :
  one_line (YnabExport.formatAmount NumberToString x).
Proof.
  unfold YnabExport.formatAmount.
  pose proof (replace_first_Forall (fun c => ascii_eqb nl c = false)
                YnabExport.trailing_zeros []
                (toFixed2 NumberToString (Math_abs x))
                (toFixed2_one_line _) (List.Forall_nil _)) as H.
  destruct (replace_first _ _ _); [by repeat constructor|exact H].
Qed.

Lemma export_lines (transactions : list Transaction) (format : YNABFormat) :
  Forall on_one_line_each transactions ->
  exists header rows,
    YnabExport.toYNABCSV NumberToString transactions format = join [nl] (header :: rows)
    /\ length rows = length transactions
    /\ Forall (fun line =>
                 one_line line
                 /\ length (Adcb.parseCSVLine line)
                    = match format with inflow_outflow => 5%nat | amount_only => 4%nat end)
         (header :: rows).
Proof.
  intros Htx. unfold YnabExport.toYNABCSV. destruct format.
  - eexists _, _. split; [reflexivity|]. split; [by rewrite length_map|].
    constructor.
    + split; [by apply row_one_line; repeat constructor|by vm_compute].
    + apply Forall_map. eapply Forall_impl; [exact Htx|].
      intros tx (Hd & Hp & Hm). cbv zeta. split.
      * apply row_one_line. repeat constructor; try done.
        -- by apply formatDate_one_line.
        -- destruct (num_lt _ _); [apply formatAmount_one_line|by repeat constructor].
        -- destruct (num_gt _ _); [apply formatAmount_one_line|by repeat constructor].
      * by rewrite read_row.
  - eexists _, _. split; [reflexivity|]. split; [by rewrite length_map|].
    constructor.
    + split; [by apply row_one_line; repeat constructor|by vm_compute].
    + apply Forall_map. eapply Forall_impl; [exact Htx|].
      intros tx (Hd & Hp & Hm). cbv zeta. split.
      * apply row_one_line. repeat constructor; try done.
        -- by apply formatDate_one_line.
        -- unfold cat. apply Forall_app. split; [|apply formatAmount_one_line].
           destruct (num_lt _ _); by repeat constructor.
      * by rewrite read_row.
Qed.

End Lines.

(** When the printer of numbers writes no line feed, the export of
    transactions without line feed has one line for the header and one for
    each transaction, in their order, and the tokenizer of the statements
    reads five fields from every line (four in the single-amount
    format). *)
Theorem export_has_one_line_per_transaction (NumberToString : number -> str)
    (transactions : list Transaction) (format : YNABFormat) :
  (forall x, one_line (NumberToString x)) ->
  Forall on_one_line_each transactions ->
  let lines := split nl (YnabExport.toYNABCSV NumberToString transactions format) in
  length lines = S (length transactions)
  /\ Forall (fun line => length (Adcb.parseCSVLine line)
                         = match format with inflow_outflow => 5%nat | amount_only => 4%nat end)
       lines.
Proof.
  intros Hprinter Htx lines.
  destruct (export_lines NumberToString Hprinter transactions format Htx)
    as (header & rows & Hcsv & Hlen & Hrows).
  assert (Hlines : lines = header :: rows).
  { subst lines. rewrite Hcsv. apply split_join.
    eapply Forall_impl; [exact Hrows|]. intros line [H _]. by apply one_line_mentions. }
  rewrite Hlines. split; [by cbn [length]; rewrite Hlen|].
  eapply Forall_impl; [exact Hrows|]. by intros line [_ H].
Qed.

Lemma export_has_one_line_per_transaction_witness :
  length (split nl (YnabExport.toYNABCSV (fun _ => "1e+21")
                      [ {| date := "2024-02-01"; payee := "Coffee Shop"; memo := "";
                           amount := of_Z (-15); originalDate := "01/02/2024" |} ]
                      inflow_outflow)) = 2%nat.
Proof.
  destruct (export_has_one_line_per_transaction (fun _ => "1e+21")
              [ {| date := "2024-02-01"; payee := "Coffee Shop"; memo := "";
                   amount := of_Z (-15); originalDate := "01/02/2024" |} ] inflow_outflow)
    as [H _].
  - intros x. by repeat constructor.
  - by repeat constructor.
  - exact H.
Defined.
